(** * shady-render: scoped template cache, style extraction and the render gate

    A shallow embedding of [src/lib/shady-render.ts].  The module keeps
    three pieces of shared mutable state (the template cache imported
    from lit-html, the [Template] objects stored in it, and
    [shadyRenderSet]); they are threaded explicitly through a small
    state-and-exception monad.  Calls into collaborators that are not
    part of the file (the ShadyCSS polyfill, lit-html's base [render])
    are recorded in an event log, in call order. *)

From stdpp Require Import gmap strings list fin_maps.

From Stdlib Require Import ZArith Lia.

Set Warnings "-register-all".

(** * The model *)

(** ** DOM nodes

    The tree walker is created with SHOW_ELEMENT | SHOW_COMMENT |
    SHOW_TEXT, so these are the three kinds of node it can stop on. *)

Inductive Node :=
| Element (localName : string) (childNodes : list Node)
| Text (data : string)
| Comment (data : string).

(** [node.localName === 'style']; text and comment nodes have no
    [localName]. *)
Definition isStyle (node : Node) : bool :=
  match node with
  | Element name _ => String.eqb name "style"
  | _ => false
  end.

(** [node.childNodes] *)
Definition childNodesOf (node : Node) : list Node :=
  match node with
  | Element _ cs => cs
  | _ => []
  end.

(** The node and everything below it, in document order. *)
Fixpoint subtree (node : Node) : list Node :=
  node :: match node with
          | Element _ cs => flat_map subtree cs
          | _ => []
          end.

(** The nodes [walker.nextNode()] stops on, one after the other, for a
    walker rooted at a fragment with children [content]: every
    descendant of the root, in document order. *)
Definition walkerNodes (content : list Node) : list Node :=
  flat_map subtree content.

Fixpoint Node_eqb (a b : Node) : bool :=
  match a, b with
  | Element n1 cs1, Element n2 cs2 =>
      String.eqb n1 n2 &&
      (fix all2 (l1 l2 : list Node) : bool :=
         match l1, l2 with
         | [], [] => true
         | x :: l1', y :: l2' => Node_eqb x y && all2 l1' l2'
         | _, _ => false
         end) cs1 cs2
  | Text d1, Text d2 => String.eqb d1 d2
  | Comment d1, Comment d2 => String.eqb d1 d2
  | _, _ => false
  end.

Fixpoint content_eqb (l1 l2 : list Node) : bool :=
  match l1, l2 with
  | [], [] => true
  | x :: l1', y :: l2' => Node_eqb x y && content_eqb l1' l2'
  | _, _ => false
  end.

(** Nodes are removed from a tree by reference.  In this embedding a
    node of a tree is referred to by its traversal position (the value
    of [index] when the walker stops on it).  [pruneNode rm i node]
    rebuilds [node], which sits at position [i], without the nodes whose
    positions are in [rm]; it also returns the position following the
    subtree. *)
Fixpoint pruneNode (rm : list Z) (i : Z) (node : Node) : option Node * Z :=
  match node with
  | Element name cs =>
      let '(cs', j) :=
        (fix pruneAll (i : Z) (cs : list Node) : list Node * Z :=
           match cs with
           | [] => ([], i)
           | c :: cs0 =>
               let '(c', j) := pruneNode rm i c in
               let '(cs0', k) := pruneAll j cs0 in
               (match c' with Some c1 => c1 :: cs0' | None => cs0' end, k)
           end) (i + 1)%Z cs in
      (if decide (i ∈ rm) then None else Some (Element name cs'), j)
  | _ => (if decide (i ∈ rm) then None else Some node, (i + 1)%Z)
  end.

Fixpoint pruneAll (rm : list Z) (i : Z) (cs : list Node) : list Node * Z :=
  match cs with
  | [] => ([], i)
  | c :: cs0 =>
      let '(c', j) := pruneNode rm i c in
      let '(cs0', k) := pruneAll rm j cs0 in
      (match c' with Some c1 => c1 :: cs0' | None => cs0' end, k)
  end.

(** [nodesToRemove.forEach((n) => n.parentNode!.removeChild(n))] *)
Definition removeNodes (rm : list Z) (content : list Node) : list Node :=
  (pruneAll rm 0 content).1.

(** [root.querySelector('style')]: the first matching descendant in
    document order. *)
Definition querySelectorStyle (content : list Node) : option Node :=
  find isStyle (walkerNodes content).

Fixpoint Node_induction (P : Node → Prop)
    (HElement : ∀ name cs, Forall P cs → P (Element name cs))
    (HText : ∀ d, P (Text d)) (HComment : ∀ d, P (Comment d))
    (node : Node) : P node :=
  match node with
  | Element name cs =>
      HElement name cs
        ((fix all (cs : list Node) : Forall P cs :=
            match cs with
            | [] => List.Forall_nil P
            | c :: cs' =>
                List.Forall_cons P c cs'
                  (Node_induction P HElement HText HComment c) (all cs')
            end) cs)
  | Text d => HText d
  | Comment d => HComment d
  end.

(** ** Values, template results, templates *)

(** What a template literal can interpolate ([value: any]).  [VObject]
    stands for any object that is neither a [TemplateResult] nor
    iterable (a DOM node, a directive function, a plain object);
    [VIterable] for an iterable object that is not an array. *)
Inductive Value :=
| VTemplateResult (type : string) (strings : nat) (values : list Value)
| VArray (items : list Value)
| VIterable (items : list Value)
| VString (s : string)
| VNumber (n : Z)
| VBoolean (b : bool)
| VNull
| VUndefined
| VObject.

(** [strings] is a [TemplateStringsArray]; the cache compares it by
    identity, so it is represented by a number naming the array
    object. *)
Record TemplateResult := mkTemplateResult {
  type : string;
  strings : nat;
  values : list Value;
}.

(** A lit-html [Template]: [element.content]'s children and the
    [index] field of each entry of [parts]. *)
Record Template := mkTemplate {
  content : list Node;
  parts : list Z;
}.

Definition emptyTemplate : Template := mkTemplate [] [].

(** ** The environment and the state *)

(** [window.ShadyCSS], with its two flags read as booleans. *)
Record ShadyCSS := mkShadyCSS {
  nativeShadow : bool;
  ApplyShim : bool;
}.

(** The container passed to [render]: an element, or a document
    fragment, which is a shadow root exactly when it has a [host]. *)
Inductive Container :=
| ElementContainer (name : string)
| FragmentContainer (host : option string).

(** The calls into the polyfill and into lit-html's base [render], as
    they are logged.  [styleElement] and the base render are taken to
    return; what the base render does with the factory it is given is
    its own business. *)
Inductive Event :=
| PrepareTemplateDom (element : list Node) (scopeName : string)
| PrepareTemplateStyles (styleTemplate : list Node) (scopeName : string)
| StyleElement (host : string)
| BaseRender (result : TemplateResult) (container : Container)
             (templateFactory : option string).

(** All state the module reads or writes.  [templates] is the heap of
    [Template] objects: a template is referred to by its position in
    it, and [templateCaches] stores such references.  [needsStyleFixup]
    is the module-level constant of that name, fixed when the module is
    evaluated. *)
Record State := mkState {
  window_ShadyCSS : option ShadyCSS;
  needsStyleFixup : bool;
  templateCaches : gmap string (gmap nat nat);
  templates : list Template;
  shadyRenderSet : gset string;
  events : list Event;
}.

Definition set_templateCaches (c : gmap string (gmap nat nat)) (st : State) : State :=
  mkState (window_ShadyCSS st) (needsStyleFixup st) c (templates st)
          (shadyRenderSet st) (events st).

Definition set_templates (ts : list Template) (st : State) : State :=
  mkState (window_ShadyCSS st) (needsStyleFixup st) (templateCaches st) ts
          (shadyRenderSet st) (events st).

Definition set_shadyRenderSet (s : gset string) (st : State) : State :=
  mkState (window_ShadyCSS st) (needsStyleFixup st) (templateCaches st)
          (templates st) s (events st).

Definition set_window_ShadyCSS (w : option ShadyCSS) (st : State) : State :=
  mkState w (needsStyleFixup st) (templateCaches st) (templates st)
          (shadyRenderSet st) (events st).

Definition emit (e : Event) (st : State) : State :=
  mkState (window_ShadyCSS st) (needsStyleFixup st) (templateCaches st)
          (templates st) (shadyRenderSet st) (events st ++ [e]).

(** [window.ShadyCSS && (!window.ShadyCSS.nativeShadow ||
    window.ShadyCSS.ApplyShim)], as a truth value. *)
Definition computeNeedsStyleFixup (w : option ShadyCSS) : bool :=
  match w with
  | Some shady => negb (nativeShadow shady) || ApplyShim shady
  | None => false
  end.

(** The state right after the module has been evaluated in an
    environment whose [window.ShadyCSS] is [w]. *)
Definition loadModule (w : option ShadyCSS) : State :=
  mkState w (computeNeedsStyleFixup w) ∅ [] ∅ [].

(** The template a reference points to. *)
Definition getTemplate (st : State) (loc : nat) : Template :=
  default emptyTemplate (templates st !! loc).

Definition setContent (loc : nat) (c : list Node) (st : State) : State :=
  set_templates
    (<[loc := mkTemplate c (parts (getTemplate st loc))]> (templates st)) st.

(** [parts[i].index = v] on the template at [loc]. *)
Definition setPartIndex (loc : nat) (i : nat) (v : Z) (st : State) : State :=
  set_templates
    (<[loc := mkTemplate (content (getTemplate st loc))
                         (<[i := v]> (parts (getTemplate st loc)))]>
       (templates st)) st.

(** ** Outcomes and the monad *)

Inductive Error :=
| TypeError (message : string)
| HookError.

(** A call returns, throws (the state reached is kept: a caller may
    catch the exception and call again), or leaves the embedding:
    [OutOfFuel] when the recursion bound given to it is too small, and
    [StaleWalker] when the content a live tree walker is traversing has
    been changed under it, which the node list of [walkerNodes] does
    not follow. *)
Inductive Outcome (A : Type) :=
| Return (a : A) (st : State)
| Throw (e : Error) (st : State)
| OutOfFuel
| StaleWalker.
Arguments Return {A} a st.
Arguments Throw {A} e st.
Arguments OutOfFuel {A}.
Arguments StaleWalker {A}.

Definition M (A : Type) : Type := State → Outcome A.

Definition ret {A} (a : A) : M A := fun st => Return a st.

Definition bind {A B} (m : M A) (k : A → M B) : M B := fun st =>
  match m st with
  | Return a st' => k a st'
  | Throw e st' => Throw e st'
  | OutOfFuel => OutOfFuel
  | StaleWalker => StaleWalker
  end.

Definition throw {A} (e : Error) : M A := fun st => Throw e st.

Definition get : M State := fun st => Return st st.

Definition modify (f : State → State) : M unit := fun st => Return tt (f st).

Global Instance M_ret : MRet M := @ret.

Global Instance M_bind : MBind M := fun A B k m => bind m k.

(** The state an outcome carries, if any. *)
Definition finalState {A} (o : Outcome A) : option State :=
  match o with
  | Return _ st | Throw _ st => Some st
  | _ => None
  end.

(** ** The functions of the module *)

Section ShadyRender.

(** Collaborators the file calls but does not define. *)

(** [result.getTemplateElement()]: the children of the content of the
    [<template>] element built from the result's strings. *)
Variable getTemplateElement : TemplateResult → list Node.

(** [window.ShadyCSS.prepareTemplateDom(element, scopeName)] changes
    the element in place; here it returns the changed content. *)
Variable prepareTemplateDom : list Node → string → list Node.

(** [new Template(result, element)] *)
Variable newTemplate : TemplateResult → list Node → Template.

(** [window.ShadyCSS.prepareTemplateStyles(styleTemplate, scopeName)]
    changes the style template in place, or raises ([None]). *)
Variable prepareTemplateStyles : list Node → string → option (list Node).

(** [`${result.type}--${scopeName}`] *)
Definition cacheKey (result : TemplateResult) (scopeName : string) : string :=
  type result +:+ "--" +:+ scopeName.

(** The template the factory builds on a cache miss, and the polyfill
    call it makes on the way. *)
Definition compile (w : option ShadyCSS) (scopeName : string)
    (result : TemplateResult) : Template * list Event :=
  let element := getTemplateElement result in
  match w with
  | Some _ =>
      (newTemplate result (prepareTemplateDom element scopeName),
       [PrepareTemplateDom element scopeName])
  | None => (newTemplate result element, [])
  end.

(** [shadyTemplateFactory(scopeName)(result)]; the value is the
    reference to the [Template] returned. *)
Definition shadyTemplateFactory (scopeName : string)
    (result : TemplateResult) : M nat := fun st =>
  let key := cacheKey result scopeName in
  let st1 :=
    match templateCaches st !! key with
    | Some _ => st
    | None => set_templateCaches (<[key := ∅]> (templateCaches st)) st
    end in
  let templateCache := default ∅ (templateCaches st1 !! key) in
  match templateCache !! strings result with
  | Some template => Return template st1
  | None =>
      let '(t, evs) := compile (window_ShadyCSS st1) scopeName result in
      let template := length (templates st1) in
      Return template
        (mkState (window_ShadyCSS st1) (needsStyleFixup st1)
           (<[key := <[strings result := template]> templateCache]>
              (templateCaches st1))
           (templates st1 ++ [t])
           (shadyRenderSet st1)
           (events st1 ++ evs))
  end.

(** The local variables of [extractStylesFromTemplate]'s loop.  The
    variable [part] is always [parts[partIndex]] and is read from the
    template when needed; [nodesToRemove] holds traversal positions. *)
Record Locals := mkLocals {
  partIndex : nat;
  partDelta : Z;
  disableUntil : Z;
  index : Z;
  nodesToRemove : list Z;
}.

Definition initialLocals : Locals := mkLocals 0 0 0 (-1) [].

(** Lines 67-75: advance [index]; a style element is cloned into the
    style template and queued for removal. *)
Definition visitStyle (node : Node) (l : Locals) (styleTemplate : list Node)
    : Locals * list Node :=
  let index := (index l + 1)%Z in
  if isStyle node then
    let removeCount := (Z.of_nat (length (childNodesOf node)) + 1)%Z in
    (mkLocals (partIndex l) (partDelta l - removeCount)
              (index + removeCount) index (nodesToRemove l ++ [index]),
     styleTemplate ++ [node])
  else
    (mkLocals (partIndex l) (partDelta l) (disableUntil l) index
              (nodesToRemove l),
     styleTemplate).

(** Lines 76-86: when the part under the cursor sits on this node,
    disable or shift it, look for styles in its value, and move the
    cursor on.  The source's walker is live: if the search in the value
    reaches the very template being traversed and removes style
    elements from it, the walker goes on in the changed tree.  The node
    list the embedding walks over is the one of the tree as the walker
    found it, so it stops there, with [StaleWalker]. *)
Definition visitPart (extractValue : Value → list Node → M (list Node))
    (result : TemplateResult) (template : nat)
    (l : Locals) (styleTemplate : list Node) : M (Locals * list Node) :=
  fun st =>
  match parts (getTemplate st template) !! partIndex l with
  | Some partIdx =>
      if decide (partIdx = index l) then
        let st1 :=
          if decide (index l < disableUntil l)%Z
          then setPartIndex template (partIndex l) (-1) st
          else setPartIndex template (partIndex l) (partIdx + partDelta l) st in
        let value := default VUndefined (values result !! partIndex l) in
        match extractValue value styleTemplate st1 with
        | Return styleTemplate' st2 =>
            if content_eqb (content (getTemplate st2 template))
                           (content (getTemplate st1 template))
            then Return (mkLocals (S (partIndex l)) (partDelta l)
                           (disableUntil l) (index l) (nodesToRemove l),
                         styleTemplate') st2
            else StaleWalker
        | Throw e st2 => Throw e st2
        | OutOfFuel => OutOfFuel
        | StaleWalker => StaleWalker
        end
      else Return (l, styleTemplate) st
  | None => Return (l, styleTemplate) st
  end.

(** The body of the [while] loop, for the node the walker stopped
    on. *)
Definition visitNode (extractValue : Value → list Node → M (list Node))
    (result : TemplateResult) (template : nat)
    (node : Node) (acc : Locals * list Node) : M (Locals * list Node) :=
  let '(l, styleTemplate) := visitStyle node acc.1 acc.2 in
  visitPart extractValue result template l styleTemplate.

(** [while (walker.nextNode()) { ... }] *)
Fixpoint walk {A} (body : Node → A → M A) (nodes : list Node) (acc : A) : M A :=
  match nodes with
  | [] => mret acc
  | node :: rest => acc' ← body node acc; walk body rest acc'
  end.

(** Lines 54-88 of [extractStylesFromTemplate]: the traversal of the
    template that the factory returned, and the removal of the style
    elements found.  The value is the content of [styleTemplate]
    afterwards. *)
Definition traverseTemplate
    (extractValue : Value → list Node → M (list Node))
    (styleTemplate : list Node) (result : TemplateResult) (template : nat)
    : M (list Node) :=
  st ← get;
  '(l, styleTemplate') ←
    walk (visitNode extractValue result template)
         (walkerNodes (content (getTemplate st template)))
         (initialLocals, styleTemplate);
  modify (fun st' =>
    setContent template
      (removeNodes (nodesToRemove l) (content (getTemplate st' template))) st');;
  mret styleTemplate'.

(** [extractStylesFromTemplate], with the recursive call of line 83
    left open. *)
Definition extractStylesFromTemplateWith
    (extractValue : Value → list Node → M (list Node))
    (styleTemplate : list Node) (templateFactory : TemplateResult → M nat)
    (result : TemplateResult) : M (list Node) :=
  template ← templateFactory result;
  traverseTemplate extractValue styleTemplate result template.

(** [for (const item of value) extractStylesFromValue(.., item)] *)
Fixpoint forOf (extractValue : Value → list Node → M (list Node))
    (items : list Value) (styleTemplate : list Node) : M (list Node) :=
  match items with
  | [] => mret styleTemplate
  | item :: rest =>
      styleTemplate' ← extractValue item styleTemplate;
      forOf extractValue rest styleTemplate'
  end.

(** [extractStylesFromValue].  [fuel] bounds the nesting of template
    results and sequences that is followed.  Reading
    [value[Symbol.iterator]] of [null] or [undefined] is a
    TypeError. *)
Fixpoint extractStylesFromValue (fuel : nat) (styleTemplate : list Node)
    (templateFactory : TemplateResult → M nat) (value : Value) : M (list Node) :=
  match value with
  | VTemplateResult t s vs =>
      match fuel with
      | O => fun _ => OutOfFuel
      | S fuel' =>
          extractStylesFromTemplateWith
            (fun v sink => extractStylesFromValue fuel' sink templateFactory v)
            styleTemplate templateFactory (mkTemplateResult t s vs)
      end
  | VArray items | VIterable items =>
      match fuel with
      | O => fun _ => OutOfFuel
      | S fuel' =>
          forOf (fun v sink => extractStylesFromValue fuel' sink templateFactory v)
                items styleTemplate
      end
  | VString _ => mret styleTemplate
  | VNull | VUndefined =>
      throw (TypeError "Cannot read properties of null or undefined (reading 'Symbol(Symbol.iterator)')")
  | VNumber _ | VBoolean _ | VObject => mret styleTemplate
  end.

Definition extractStylesFromTemplate (fuel : nat) (styleTemplate : list Node)
    (templateFactory : TemplateResult → M nat) (result : TemplateResult)
    : M (list Node) :=
  extractStylesFromTemplateWith
    (fun v sink => extractStylesFromValue fuel sink templateFactory v)
    styleTemplate templateFactory result.

(** [insertStyleInTemplate(template, style)] *)
Definition insertStyleInTemplate (template : nat) (style : Node) : M unit :=
  fun st =>
  let t := getTemplate st template in
  let adjustIndex := (1 + Z.of_nat (length (childNodesOf style)))%Z in
  Return tt
    (set_templates
       (<[template :=
            mkTemplate (style :: content t)
              (map (fun partIdx =>
                      if decide (0 ≤ partIdx)%Z
                      then (partIdx + adjustIndex)%Z else partIdx)
                   (parts t))]> (templates st)) st).

(** [hostForNode(node)], as the host when the result is truthy. *)
Definition hostForNode (node : Container) : option string :=
  match node with
  | FragmentContainer host => host
  | ElementContainer _ => None
  end.

(** A method call on [window.ShadyCSS]; it is a TypeError when the
    polyfill is not there. *)
Definition withShadyCSS {A} (k : ShadyCSS → M A) : M A := fun st =>
  match window_ShadyCSS st with
  | Some shady => k shady st
  | None =>
      Throw (TypeError "Cannot read properties of undefined (window.ShadyCSS)") st
  end.

(** [render(result, container, scopeName)] *)
Definition render (fuel : nat) (result : TemplateResult)
    (container : Container) (scopeName : string) : M unit :=
  fun st =>
  match needsStyleFixup st, hostForNode container with
  | true, Some host =>
      let templateFactory := shadyTemplateFactory scopeName in
      ((if decide (scopeName ∈ shadyRenderSet st) then mret tt
        else
          (modify (fun st =>
             set_shadyRenderSet ({[scopeName]} ∪ shadyRenderSet st) st);;
           styleTemplate ←
             extractStylesFromTemplate fuel [] templateFactory result;
           styleTemplate' ←
             withShadyCSS (fun _ st =>
               match prepareTemplateStyles styleTemplate scopeName with
               | Some styleTemplate' =>
                   Return styleTemplate'
                     (emit (PrepareTemplateStyles styleTemplate scopeName) st)
               | None =>
                   Throw HookError
                     (emit (PrepareTemplateStyles styleTemplate scopeName) st)
               end);
           withShadyCSS (fun shady =>
             if nativeShadow shady then
               match querySelectorStyle styleTemplate' with
               | Some style =>
                   template ← templateFactory result;
                   insertStyleInTemplate template style
               | None => mret tt
               end
             else mret tt)));;
       withShadyCSS (fun _ => modify (emit (StyleElement host)));;
       modify (emit (BaseRender result container (Some scopeName)))) st
  | _, _ =>
      modify (emit (BaseRender result container None)) st
  end.

End ShadyRender.

(** * The vocabulary of the properties *)

(** ** Reading the state and the log *)

(** The reference stored in the cache for a key and a strings array. *)
Definition cached (st : State) (key : string) (s : nat) : option nat :=
  templateCaches st !! key ≫= (fun templateCache => templateCache !! s).

Definition isPrepareTemplateDom (e : Event) : Prop :=
  match e with PrepareTemplateDom _ _ => True | _ => False end.

Definition isPrepareTemplateStyles (scopeName : string) (e : Event) : bool :=
  match e with
  | PrepareTemplateStyles _ s => bool_decide (s = scopeName)
  | _ => false
  end.

Definition countPrepareTemplateStyles (scopeName : string) (evs : list Event) : nat :=
  length (List.filter (isPrepareTemplateStyles scopeName) evs).

(** Events of the polyfill's two preparation hooks. *)
Definition isPreparation (e : Event) : Prop :=
  match e with
  | PrepareTemplateDom _ _ | PrepareTemplateStyles _ _ => True
  | _ => False
  end.

(** The mark [render] leaves in the render set before it extracts. *)
Definition markScope (scopeName : string) (st : State) : State :=
  set_shadyRenderSet ({[scopeName]} ∪ shadyRenderSet st) st.

(** The style-processing hook has run at most once per scope, and only
    for scopes in the render set. *)
Definition gateInvariant (st : State) : Prop :=
  ∀ s, countPrepareTemplateStyles s (events st) ≤ 1 ∧
       (s ∉ shadyRenderSet st → countPrepareTemplateStyles s (events st) = 0).

(** Every reference in the cache points to a template. *)
Definition cacheAllocated (st : State) : Prop :=
  ∀ key s loc, cached st key s = Some loc → loc < length (templates st).

(** ** Footprints

    [respects R m]: whenever [m] ends with a state, returning or
    throwing, that state is [R]-related to the one it started in. *)

Definition respects {A} (R : State → State → Prop) (m : M A) : Prop :=
  ∀ st st', finalState (m st) = Some st' → R st st'.

(** What no function of the module undoes: the polyfill object, the
    constant and the render set stay as they are, cache entries stay,
    templates are never deallocated, and the log grows by
    [PrepareTemplateDom] events only.  This is the footprint of the
    factory and of style extraction. *)
Record grows (st st' : State) : Prop := mkGrows {
  grows_window : window_ShadyCSS st' = window_ShadyCSS st;
  grows_needs : needsStyleFixup st' = needsStyleFixup st;
  grows_set : shadyRenderSet st' = shadyRenderSet st;
  grows_cached : ∀ key s loc, cached st key s = Some loc → cached st' key s = Some loc;
  grows_templates : length (templates st) ≤ length (templates st');
  grows_events : ∃ evs, events st' = events st ++ evs ∧ Forall isPrepareTemplateDom evs;
}.

(** Cache entries are kept, and stay allocated. *)
Definition stable (st st' : State) : Prop :=
  (∀ key s loc, cached st key s = Some loc → cached st' key s = Some loc) ∧
  (cacheAllocated st → cacheAllocated st').

(** ** Fuel

    [depth value] is how deep template results and sequences nest in
    [value]; that much fuel is enough for the recursion to reach every
    leaf. *)

Fixpoint depth (value : Value) : nat :=
  match value with
  | VTemplateResult _ _ vs | VArray vs | VIterable vs =>
      S (foldr Nat.max 0 (map depth vs))
  | _ => 0
  end.

Definition depthResult (result : TemplateResult) : nat :=
  foldr Nat.max 0 (map depth (values result)).

Definition hasFuel {A} (m : M A) : Prop := ∀ st, m st ≠ OutOfFuel.

(** ** Templates without style elements *)

(** No [<style>] anywhere in the content. *)
Definition styleFree (c : list Node) : Prop :=
  Forall (fun node => isStyle node = false) (walkerNodes c).

(** The template results met when descending into a value. *)
Fixpoint nestedResults (value : Value) : list TemplateResult :=
  match value with
  | VTemplateResult t s vs => mkTemplateResult t s vs :: flat_map nestedResults vs
  | VArray vs | VIterable vs => flat_map nestedResults vs
  | _ => []
  end.

(** A result and the results reachable through its values. *)
Definition reachableResults (result : TemplateResult) : list TemplateResult :=
  result :: flat_map nestedResults (values result).

(** The loop variables as long as no style element has been seen. *)
Definition noStyleSeen (l : Locals) : Prop :=
  partDelta l = 0%Z ∧ disableUntil l = 0%Z ∧ (-1 ≤ index l)%Z ∧ nodesToRemove l = [].

(** ** Parts with distinct indices *)

(** A value in which there is nothing to look for, and on which the
    sequence test does not throw. *)
Definition inert (value : Value) : Prop :=
  match value with
  | VString _ | VNumber _ | VBoolean _ | VObject => True
  | _ => False
  end.

(** Part indices that increase strictly, from above [lo]. *)
Fixpoint increasingFrom (lo : Z) (ps : list Z) : Prop :=
  match ps with
  | [] => True
  | p :: ps' => (lo < p)%Z ∧ increasingFrom p ps'
  end.

(** The index that a part at position [p] should end with, when the
    traversal goes on over the nodes [rest] from loop variables [l]:
    the nodes are scanned up to position [p], keeping [disableUntil]
    and [partDelta] as the loop does, and the part is disabled or
    shifted there; a position that is never reached is kept. *)
Fixpoint reindexFrom (l : Locals) (rest : list Node) (p : Z) : Z :=
  match rest with
  | [] => p
  | node :: rest' =>
      let l1 := (visitStyle node l []).1 in
      if decide (p = index l1) then
        if decide (index l1 < disableUntil l1)%Z then (-1)%Z
        else (p + partDelta l1)%Z
      else reindexFrom l1 rest' p
  end.

(** The positions of the style elements among [rest], the node before
    [rest] being at position [i]. *)
Fixpoint stylePositions (i : Z) (rest : list Node) : list Z :=
  match rest with
  | [] => []
  | node :: rest' =>
      (if isStyle node then [(i + 1)%Z] else []) ++ stylePositions (i + 1) rest'
  end.

(** The loop variables [n] nodes further on, none of them a style
    element. *)
Definition advance (l : Locals) (n : nat) : Locals :=
  mkLocals (partIndex l) (partDelta l) (disableUntil l)
           (index l + Z.of_nat n) (nodesToRemove l).

(** ** Content without its style elements *)

(** A node without the style elements below it. *)
Fixpoint withoutStyles (node : Node) : Node :=
  match node with
  | Element name cs =>
      Element name
        ((fix all (cs : list Node) : list Node :=
            match cs with
            | [] => []
            | c :: cs' =>
                if isStyle c then all cs' else withoutStyles c :: all cs'
            end) cs)
  | _ => node
  end.

(** The children of a fragment without the style elements among them
    and below them. *)
Fixpoint contentWithoutStyles (cs : list Node) : list Node :=
  match cs with
  | [] => []
  | c :: cs' =>
      if isStyle c then contentWithoutStyles cs'
      else withoutStyles c :: contentWithoutStyles cs'
  end.

(** The positions in [rm] that fall on [nodes], the first of which is
    at position [i], are those of the style elements. *)
Definition marksStyles (rm : list Z) (i : Z) (nodes : list Node) : Prop :=
  ∀ j node, nodes !! j = Some node →
    (i + Z.of_nat j)%Z ∈ rm ↔ isStyle node = true.

(** A node without children that is not a style element. *)
Definition isLeaf (node : Node) : Prop :=
  childNodesOf node = [] ∧ isStyle node = false.

(** Style elements as the HTML parser builds them: what they contain
    is text, so their children are leaves. *)
Definition flatStyles (c : list Node) : Prop :=
  Forall (fun node => isStyle node = true → Forall isLeaf (childNodesOf node))
         (walkerNodes c).

(** The nodes of a traversal that are neither style elements nor among
    the [skip] nodes still counted for the children of the last style
    element. *)
Fixpoint keptNodes (skip : nat) (nodes : list Node) : list Node :=
  match nodes with
  | [] => []
  | node :: rest =>
      if isStyle node then keptNodes (length (childNodesOf node)) rest
      else match skip with
           | 0 => node :: keptNodes 0 rest
           | S skip' => keptNodes skip' rest
           end
  end.

(** No style element among the nodes counted for the children of
    another. *)
Fixpoint flatFrom (skip : nat) (nodes : list Node) : Prop :=
  match nodes with
  | [] => True
  | node :: rest =>
      if isStyle node then skip = 0 ∧ flatFrom (length (childNodesOf node)) rest
      else flatFrom (pred skip) rest
  end.

(** The node at position [j] of a traversal is a style element, or is
    one of the nodes counted for the children of one. *)
Definition inStyle (nodes : list Node) (j : nat) : Prop :=
  ∃ s style, nodes !! s = Some style ∧ isStyle style = true ∧
             s ≤ j ≤ s + length (childNodesOf style).

(** ** The style template and the log *)

(** An outcome that, when it returns, has only added style elements to
    the style template [sink]; [proj] reads the style template off the
    value returned. *)
Definition onlyStylesAdded {A} (proj : A → list Node) (sink : list Node)
    (o : Outcome A) : Prop :=
  match o with
  | Return a _ =>
      ∃ added, proj a = sink ++ added ∧ Forall (fun n => isStyle n = true) added
  | _ => True
  end.

(** The log has grown, by events that satisfy [P]. *)
Definition logs (P : Event → Prop) (st st' : State) : Prop :=
  ∃ evs, events st' = events st ++ evs ∧ Forall P evs.

(** The calls [render(result, container, scopeName)] may make: hooks of
    the polyfill for its scope and its host, the base render for its
    result and container. *)
Definition ownEvent (result : TemplateResult) (container : Container)
    (scopeName : string) (e : Event) : Prop :=
  match e with
  | PrepareTemplateDom _ s | PrepareTemplateStyles _ s => s = scopeName
  | StyleElement host => hostForNode container = Some host
  | BaseRender r c f =>
      r = result ∧ c = container ∧ (f = None ∨ f = Some scopeName)
  end.

(** A call of the style-processing hook is given style elements only. *)
Definition stylesOnly (e : Event) : Prop :=
  match e with
  | PrepareTemplateStyles styleTemplate _ =>
      Forall (fun node => isStyle node = true) styleTemplate
  | _ => True
  end.

Definition countPrepareTemplateDom (evs : list Event) : nat :=
  length (List.filter
            (fun e => match e with PrepareTemplateDom _ _ => true | _ => false end)
            evs).

(** ** Invariants of the cache and of the heap *)

(** [keeps I]: the relation of a state in which [I] holds to one in
    which it still does. *)
Definition keeps (I : State → Prop) (st st' : State) : Prop := I st → I st'.

(** No two cache entries share a template. *)
Definition cacheInjective (st : State) : Prop :=
  ∀ key1 s1 key2 s2 loc,
    cached st key1 s1 = Some loc → cached st key2 s2 = Some loc →
    key1 = key2 ∧ s1 = s2.

Definition cacheWellFormed (st : State) : Prop :=
  cacheAllocated st ∧ cacheInjective st.

(** The DOM-preparation hook has run at most once per template. *)
Definition domOncePerTemplate (st : State) : Prop :=
  countPrepareTemplateDom (events st) ≤ length (templates st).

(** The cache holds [template] under a key of the scope. *)
Definition cachedInScope (scopeName : string) (template : nat) (st : State) : Prop :=
  ∃ r, cached st (cacheKey r scopeName) (strings r) = Some template.

(** What a call made for a scope may do to the templates there were:
    it leaves a template as it is unless the cache holds it under a key
    of that scope.  Cache entries are kept and no template is
    deallocated. *)
Definition touchesOnlyScope (scopeName : string) (st st' : State) : Prop :=
  (∀ key s loc, cached st key s = Some loc → cached st' key s = Some loc) ∧
  length (templates st) ≤ length (templates st') ∧
  ∀ loc, loc < length (templates st) →
    templates st' !! loc = templates st !! loc ∨ cachedInScope scopeName loc st'.

(** ** The loop variables along a traversal *)

(** The loop variables after the nodes [nodes] have been visited, as
    far as lines 67-75 change them. *)
Definition scanStyles (l : Locals) (nodes : list Node) : Locals :=
  foldl (fun l node => (visitStyle node l []).1) l nodes.

(** ** What depends on the collaborators *)

Section Vocabulary.
Variable getTemplateElement : TemplateResult → list Node.
Variable prepareTemplateDom : list Node → string → list Node.
Variable newTemplate : TemplateResult → list Node → Template.
Variable prepareTemplateStyles : list Node → string → option (list Node).

Local Abbreviation factory :=
  (shadyTemplateFactory getTemplateElement prepareTemplateDom newTemplate).
Local Abbreviation compileFor :=
  (compile getTemplateElement prepareTemplateDom newTemplate).
Local Abbreviation shadyRender :=
  (render getTemplateElement prepareTemplateDom newTemplate prepareTemplateStyles).

(** What [render] does once extraction has returned the style
    template: lines 135-145. *)
Definition afterExtraction (result : TemplateResult) (container : Container)
    (scopeName host : string) (styleTemplate : list Node) : M unit :=
  styleTemplate' ←
    withShadyCSS (fun _ st =>
      match prepareTemplateStyles styleTemplate scopeName with
      | Some styleTemplate' =>
          Return styleTemplate'
            (emit (PrepareTemplateStyles styleTemplate scopeName) st)
      | None =>
          Throw HookError
            (emit (PrepareTemplateStyles styleTemplate scopeName) st)
      end);
  withShadyCSS (fun shady =>
    if nativeShadow shady then
      match querySelectorStyle styleTemplate' with
      | Some style =>
          template ← factory scopeName result;
          insertStyleInTemplate template style
      | None => mret tt
      end
    else mret tt);;
  withShadyCSS (fun _ => modify (emit (StyleElement host)));;
  modify (emit (BaseRender result container (Some scopeName))).

(** One step in the life of the loaded module: a call of [render] that
    ends, by returning or by throwing, or the environment replacing
    [window.ShadyCSS].  [runs] is any number of such steps. *)
Inductive step : State → State → Prop :=
| step_render fuel result container scopeName st st' :
    finalState (shadyRender fuel result container scopeName st) = Some st' →
    step st st'
| step_window w st :
    step st (set_window_ShadyCSS w st).

Definition runs : State → State → Prop := rtc step.

(** Anything that can happen to the state between two calls of the
    factory: the calls of the module's functions, ending either way,
    and the environment replacing [window.ShadyCSS]. *)
Inductive anyCall : State → State → Prop :=
| call_factory scopeName result st template st' :
    factory scopeName result st = Return template st' → anyCall st st'
| call_extract fuel styleTemplate scopeName result st st' :
    finalState (extractStylesFromTemplate fuel styleTemplate (factory scopeName)
                  result st) = Some st' →
    anyCall st st'
| call_insertStyle template style st st' :
    insertStyleInTemplate template style st = Return tt st' → anyCall st st'
| call_render fuel result container scopeName st st' :
    finalState (shadyRender fuel result container scopeName st) = Some st' →
    anyCall st st'
| call_window w st :
    anyCall st (set_window_ShadyCSS w st).

Section InPlay.
Variable scopeName : string.

(** The template the factory hands out for [result] in state [st]: the
    cached one, or the one it would compile. *)
Definition templateFor (st : State) (result : TemplateResult) : Template :=
  match cached st (cacheKey result scopeName) (strings result) with
  | Some loc => getTemplate st loc
  | None => (compileFor (window_ShadyCSS st) scopeName result).1
  end.

(** The results in play. *)
Variable R : list TemplateResult.

Definition allStyleFree (st : State) : Prop :=
  ∀ r, r ∈ R → styleFree (content (templateFor st r)).

Definition covered (value : Value) : Prop :=
  ∀ r, r ∈ nestedResults value → r ∈ R.

(** Between two states, nothing happened to the templates but the
    compilation of new ones, for results in play. *)
Definition onlyCompiled (st st' : State) : Prop :=
  window_ShadyCSS st' = window_ShadyCSS st ∧
  ∃ new, templates st' = templates st ++ new ∧
         Forall (fun t => ∃ r, r ∈ R ∧
                   t = (compileFor (window_ShadyCSS st) scopeName r).1) new.

(** What a call may end with when every template in play is free of
    styles: it returns the style template it was given, or throws, and
    either way only compiled templates; with too little fuel it gives
    up; its tree walkers never go stale. *)
Definition untouched (st : State) (sink : list Node) (o : Outcome (list Node)) : Prop :=
  match o with
  | Return sink' st' => sink' = sink ∧ onlyCompiled st st' ∧ allStyleFree st'
  | Throw _ st' => onlyCompiled st st' ∧ allStyleFree st'
  | OutOfFuel => True
  | StaleWalker => False
  end.

End InPlay.

End Vocabulary.

(** ** Example templates

    Stand-ins for the collaborators, for a handful of template
    literals.  A literal is named by the number of its strings array.
    The contents and part indices follow lit-html's [Template]: an
    expression in text position becomes a pair of empty comment nodes
    and its part has the index of the first; an attribute part has the
    index of its element, so two bound attributes of one element share
    an index. *)

Module Examples.

(** 0: [<style>p{}</style><div a=${x} b=${y}></div>]
    1: [<div a=${x} b=${y}><style>${css}</style></div>]
    2: [<style>p{color:red}</style><p>${x}</p>]
    3: [<p>${x}</p>]
    4: [<style>a{}</style>${x}]
    5: [<ul>${items}</ul>] *)
Definition exampleGetTemplateElement (result : TemplateResult) : list Node :=
  match strings result with
  | 0 => [Element "style" [Text "p{}"]; Element "div" []]
  | 1 => [Element "div" [Element "style" [Comment ""; Comment ""]]]
  | 2 => [Element "style" [Text "p{color:red}"];
          Element "p" [Comment ""; Comment ""]]
  | 3 => [Element "p" [Comment ""; Comment ""]]
  | 4 => [Element "style" [Text "a{}"]; Comment ""; Comment ""]
  | _ => [Element "ul" [Comment ""; Comment ""]]
  end.

Definition exampleNewTemplate (result : TemplateResult) (element : list Node)
    : Template :=
  mkTemplate element
    match strings result with
    | 0 => [2; 2]%Z
    | 1 => [0; 0; 2]%Z
    | 2 => [3]%Z
    | 3 => [1]%Z
    | 4 => [2]%Z
    | _ => [1]%Z
    end.

(** A polyfill whose hooks leave what they are given as it is. *)
Definition examplePrepareTemplateDom (element : list Node) (scopeName : string)
    : list Node := element.

Definition examplePrepareTemplateStyles (styleTemplate : list Node)
    (scopeName : string) : option (list Node) := Some styleTemplate.

(** A polyfill whose style processing raises. *)
Definition failingPrepareTemplateStyles (styleTemplate : list Node)
    (scopeName : string) : option (list Node) := None.

Definition exampleFactory : string → TemplateResult → M nat :=
  shadyTemplateFactory exampleGetTemplateElement examplePrepareTemplateDom
    exampleNewTemplate.

Definition exampleRender : nat → TemplateResult → Container → string → M unit :=
  render exampleGetTemplateElement examplePrepareTemplateDom exampleNewTemplate
    examplePrepareTemplateStyles.

Definition failingRender : nat → TemplateResult → Container → string → M unit :=
  render exampleGetTemplateElement examplePrepareTemplateDom exampleNewTemplate
    failingPrepareTemplateStyles.

(** ShadyCSS in use, without native shadow DOM. *)
Definition shadyWindow : option ShadyCSS := Some (mkShadyCSS false false).

(** ShadyCSS loaded on a platform with native shadow DOM, no ApplyShim. *)
Definition nativeWindow : option ShadyCSS := Some (mkShadyCSS true false).

Definition shadowRoot : Container := FragmentContainer (Some "x-foo#1").

Definition twoAttributes : TemplateResult :=
  mkTemplateResult "html" 0 [VString "a"; VString "b"].

Definition styleInDiv : TemplateResult :=
  mkTemplateResult "html" 1 [VString "a"; VString "b"; VString "red"].

Definition styledParagraph : TemplateResult :=
  mkTemplateResult "html" 2 [VString "hello"].

Definition paragraph (x : Value) : TemplateResult :=
  mkTemplateResult "html" 3 [x].

Definition afterStyle : TemplateResult :=
  mkTemplateResult "html" 4 [VString "hello"].

(** [<ul>${[html`<p>${1}</p>`, html`<p>${'two'}</p>`]}</ul>] *)
Definition listOfParagraphs : TemplateResult :=
  mkTemplateResult "html" 5
    [VArray [VTemplateResult "html" 3 [VNumber 1];
             VTemplateResult "html" 3 [VString "two"]]].

(** [<p>${null}</p>] *)
Definition nullParagraph : TemplateResult := paragraph VNull.

(** The state an outcome leaves, or [st] when it leaves none. *)
Definition stateAfter {A} (o : Outcome A) (st : State) : State :=
  default st (finalState o).

(** After the first render of [styledParagraph] for scope x-foo. *)
Definition renderedOnce : State :=
  stateAfter (exampleRender 1 styledParagraph shadowRoot "x-foo"
                (loadModule shadyWindow)) (loadModule shadyWindow).

(** After a first render during which style processing raised. *)
Definition failedOnce : State :=
  stateAfter (failingRender 1 styledParagraph shadowRoot "x-foo"
                (loadModule shadyWindow)) (loadModule shadyWindow).

(** The module loaded with ShadyCSS in use, and the flags of a native
    platform showing by the time of the render call. *)
Definition flagsChanged : State :=
  set_window_ShadyCSS nativeWindow (loadModule shadyWindow).

Definition renderedAfterChange : State :=
  stateAfter (exampleRender 1 styledParagraph shadowRoot "x-foo" flagsChanged)
             flagsChanged.

(** [afterStyle] compiled, and the loop variables of its traversal
    after the style element and its text have been visited. *)
Definition afterStyleCompiled : State :=
  stateAfter (exampleFactory "x-foo" afterStyle (loadModule shadyWindow))
             (loadModule shadyWindow).

Definition pastTheStyle : Locals := mkLocals 0 (-2) 2 1 [0%Z].

(** A template with parts at 2, 5 and 9 and a disabled part, and a
    style element of three children. *)
Definition fourParts : Template :=
  mkTemplate [Element "p" []] [2; 5; 9; -1]%Z.

Definition fourPartsState : State :=
  set_templates [fourParts] (loadModule nativeWindow).

Definition threeRules : Node :=
  Element "style" [Text "a{}"; Text "b{}"; Text "c{}"].

(** [styledParagraph] compiled for scope x-foo, then a style element
    put back into its template. *)
Definition compiledOnce : State :=
  stateAfter (exampleFactory "x-foo" styledParagraph (loadModule nativeWindow))
             (loadModule nativeWindow).

Definition styleReinjected : State :=
  stateAfter (insertStyleInTemplate 0 threeRules compiledOnce) compiledOnce.

(** [<style>a{}</style><p>${x}</p><style>b{}</style><span>${y}</span>]:
    stand-ins for the collaborators on this one literal. *)
Definition twoStylesContent : list Node :=
  [Element "style" [Text "a{}"]; Element "p" [Comment ""; Comment ""];
   Element "style" [Text "b{}"]; Element "span" [Comment ""; Comment ""]].

Definition twoStylesGetTemplateElement (result : TemplateResult) : list Node :=
  twoStylesContent.

Definition twoStylesNewTemplate (result : TemplateResult) (element : list Node)
    : Template :=
  mkTemplate element [3; 8]%Z.

Definition twoStyles : TemplateResult :=
  mkTemplateResult "html" 6 [VString "x"; VString "y"].

(** [<style>p{color:red}</style><p>${null}</p>] *)
Definition styledNullParagraph : TemplateResult :=
  mkTemplateResult "html" 2 [VNull].

(** After the styles of [twoAttributes] have been extracted. *)
Definition twoAttributesExtracted : State :=
  stateAfter (extractStylesFromTemplate 0 [] (exampleFactory "x-foo")
                twoAttributes (loadModule shadyWindow))
             (loadModule shadyWindow).

(** [styledParagraph] compiled for scope x-foo and then for scope
    x-bar. *)
Definition compiledTwice : State :=
  stateAfter (exampleFactory "x-bar" styledParagraph compiledOnce) compiledOnce.

(** ShadyCSS on a platform with native shadow DOM, with ApplyShim. *)
Definition applyShimWindow : option ShadyCSS := Some (mkShadyCSS true true).

Definition renderedWithApplyShim : State :=
  stateAfter (exampleRender 1 styledParagraph shadowRoot "x-foo"
                (loadModule applyShimWindow)) (loadModule applyShimWindow).

(** After [renderedOnce], the first render of the same template for
    scope x-bar. *)
Definition renderedForBoth : State :=
  stateAfter (exampleRender 1 styledParagraph shadowRoot "x-bar" renderedOnce)
             renderedOnce.

(** [<style>${css}</style>]: the template, and the loop variables of
    its traversal after the style element has been visited. *)
Definition partInStyle : TemplateResult :=
  mkTemplateResult "html" 7 [VString "p{}"].

Definition partInStyleState : State :=
  set_templates [mkTemplate [Element "style" [Comment ""; Comment ""]] [1%Z]]
                (loadModule shadyWindow).

Definition onTheStyle : Locals := mkLocals 0 (-3) 3 0 [0%Z].

(** Stand-ins for the collaborators on that one literal. *)
Definition partInStyleGetTemplateElement (result : TemplateResult) : list Node :=
  [Element "style" [Comment ""; Comment ""]].

Definition partInStyleNewTemplate (result : TemplateResult) (element : list Node)
    : Template :=
  mkTemplate element [1%Z].

(** After the styles of [styledParagraph] have been extracted into a
    style template that held [threeRules]. *)
Definition compiledAndExtracted : State :=
  stateAfter (extractStylesFromTemplate 0 [threeRules] (exampleFactory "x-foo")
                styledParagraph (loadModule shadyWindow))
             (loadModule shadyWindow).

End Examples.

(** * Properties *)

(** ** Trees *)

Lemma Node_eqb_refl node : Node_eqb node node = true.
Proof.
  induction node as [name cs IH|d|d] using Node_induction; simpl;
    try apply String.eqb_refl.
  rewrite String.eqb_refl. simpl.
  induction IH as [|c cs Hc _ IHcs]; [done|]. by rewrite Hc, IHcs.
Qed.

Lemma content_eqb_refl c : content_eqb c c = true.
Proof. induction c as [|n c IH]; [done|]. simpl. by rewrite Node_eqb_refl, IH. Qed.

Lemma pruneNode_Element rm i name cs :
  pruneNode rm i (Element name cs) =
    let '(cs', j) := pruneAll rm (i + 1)%Z cs in
    (if decide (i ∈ rm) then None else Some (Element name cs'), j).
Proof.
  simpl.
  assert (∀ j, (fix pruneAll (i : Z) (cs : list Node) : list Node * Z :=
                  match cs with
                  | [] => ([], i)
                  | c :: cs0 =>
                      let '(c', j) := pruneNode rm i c in
                      let '(cs0', k) := pruneAll j cs0 in
                      (match c' with Some c1 => c1 :: cs0' | None => cs0' end, k)
                  end) j cs = pruneAll rm j cs) as H.
  { induction cs as [|c cs IH]; intros j; [done|]. simpl.
    destruct (pruneNode rm j c) as [c' k]. by rewrite IH. }
  by rewrite H.
Qed.

(** Removing no node leaves the tree as it is. *)
Lemma pruneNode_nil node i : (pruneNode [] i node).1 = Some node.
Proof.
  revert i. induction node as [name cs IH|d|d] using Node_induction;
    intros i; try done.
  rewrite pruneNode_Element.
  assert (∀ j, (pruneAll [] j cs).1 = cs) as H.
  { induction IH as [|c cs Hc _ IHcs]; intros j; [done|]. simpl.
    specialize (Hc j). destruct (pruneNode [] j c) as [c' k]. simpl in Hc. subst c'.
    specialize (IHcs k). destruct (pruneAll [] k cs). simpl in *. by subst. }
  specialize (H (i + 1)%Z). destruct (pruneAll [] (i + 1)%Z cs).
  simpl in *. by subst.
Qed.

Lemma removeNodes_nil c : removeNodes [] c = c.
Proof.
  unfold removeNodes. generalize 0%Z.
  induction c as [|n c IH]; intros i; [done|]. simpl.
  pose proof (pruneNode_nil n i) as Hn.
  destruct (pruneNode [] i n) as [n' j]. simpl in Hn. subst n'.
  specialize (IH j). destruct (pruneAll [] j c). simpl in *. by subst.
Qed.

Lemma withoutStyles_Element name cs :
  withoutStyles (Element name cs) = Element name (contentWithoutStyles cs).
Proof.
  reflexivity.
Qed.

(** [Node_eqb] decides equality. *)
Lemma Node_eqb_eq a : ∀ b, Node_eqb a b = true → a = b.
Proof.
  induction a as [name cs IH|d|d] using Node_induction; intros [name' cs'|d'|d'];
    simpl; try done.
  - intros [Hn Hcs]%andb_prop. apply String.eqb_eq in Hn as ->. f_equal.
    revert cs' Hcs. induction IH as [|c cs Hc _ IHcs]; intros [|c' cs']; try done.
    intros [H1 H2]%andb_prop. f_equal; [by apply Hc|by apply IHcs].
  - by intros ->%String.eqb_eq.
  - by intros ->%String.eqb_eq.
Qed.

Lemma content_eqb_eq c : ∀ c', content_eqb c c' = true → c = c'.
Proof.
  induction c as [|n c IH]; intros [|n' c']; simpl; try done.
  intros [H1 H2]%andb_prop. f_equal; [by apply Node_eqb_eq|by apply IH].
Qed.

Lemma walkerNodes_cons node cs :
  walkerNodes (node :: cs) = subtree node ++ walkerNodes cs.
Proof. done. Qed.

Lemma subtree_Element name cs :
  subtree (Element name cs) = Element name cs :: walkerNodes cs.
Proof. done. Qed.

(** Pruning at the positions of the style elements. *)
Lemma marksStyles_app rm i a b :
  marksStyles rm i (a ++ b) →
  marksStyles rm i a ∧ marksStyles rm (i + Z.of_nat (length a)) b.
Proof.
  intros H. split.
  - intros j node Hj. apply H. by apply lookup_app_l_Some.
  - intros j node Hj.
    specialize (H (length a + j) node). rewrite lookup_app_r in H by lia.
    replace (length a + j - length a) with j in H by lia.
    specialize (H Hj). by replace (i + Z.of_nat (length a + j))%Z
      with (i + Z.of_nat (length a) + Z.of_nat j)%Z in H by lia.
Qed.

Lemma pruneNode_styles node : ∀ rm i,
  marksStyles rm i (subtree node) →
  pruneNode rm i node =
    (if isStyle node then None else Some (withoutStyles node),
     (i + Z.of_nat (length (subtree node)))%Z).
Proof.
  induction node as [name cs IH|d|d] using Node_induction; intros rm i H.
  - rewrite pruneNode_Element, withoutStyles_Element.
    assert (∀ k, marksStyles rm k (walkerNodes cs) →
              pruneAll rm k cs =
                (contentWithoutStyles cs, (k + Z.of_nat (length (walkerNodes cs)))%Z))
      as Hall.
    { clear H. induction IH as [|c cs Hc _ IHcs]; intros k H.
      - simpl. f_equal. lia.
      - rewrite walkerNodes_cons in H. apply marksStyles_app in H as [H1 H2].
        simpl. rewrite (Hc rm k H1), (IHcs _ H2).
        rewrite length_app. destruct (isStyle c); simpl; f_equal; lia. }
    pose proof (H 0 _ eq_refl) as H0. rewrite Z.add_0_r in H0.
    rewrite subtree_Element in H.
    apply (marksStyles_app rm i [Element name cs]) in H as [_ H].
    change (Z.of_nat (length [Element name cs])) with 1%Z in H.
    rewrite (Hall _ H), subtree_Element. cbn [length].
    destruct (isStyle (Element name cs)) eqn:E.
    + rewrite decide_True by by apply H0. f_equal. lia.
    + rewrite decide_False; [f_equal; lia|]. rewrite H0. congruence.
  - pose proof (H 0 _ eq_refl) as H0. rewrite Z.add_0_r in H0. simpl in *.
    rewrite decide_False; [done|]. rewrite H0. congruence.
  - pose proof (H 0 _ eq_refl) as H0. rewrite Z.add_0_r in H0. simpl in *.
    rewrite decide_False; [done|]. rewrite H0. congruence.
Qed.

Lemma pruneAll_styles cs : ∀ rm i,
  marksStyles rm i (walkerNodes cs) →
  pruneAll rm i cs =
    (contentWithoutStyles cs, (i + Z.of_nat (length (walkerNodes cs)))%Z).
Proof.
  induction cs as [|c cs IH]; intros rm i H.
  - simpl. f_equal. lia.
  - rewrite walkerNodes_cons in H. apply marksStyles_app in H as [H1 H2].
    simpl. rewrite (pruneNode_styles c rm i H1), (IH _ _ H2).
    rewrite length_app. destruct (isStyle c); simpl; f_equal; lia.
Qed.

Lemma elem_of_stylePositions nodes : ∀ i p,
  p ∈ stylePositions i nodes ↔
  ∃ j node, nodes !! j = Some node ∧ isStyle node = true ∧ p = (i + 1 + Z.of_nat j)%Z.
Proof.
  induction nodes as [|n nodes IH]; intros i p; simpl.
  - split; [by intros ?%elem_of_nil|]. by intros (j & node & ? & _).
  - rewrite elem_of_app, IH. split.
    + intros [H|(j & node & Hj & Hs & ->)].
      * destruct (isStyle n) eqn:E; [|by apply elem_of_nil in H].
        apply list_elem_of_singleton in H as ->. exists 0, n. repeat split; try done. lia.
      * exists (S j), node. repeat split; try done. lia.
    + intros ([|j] & node & Hj & Hs & ->).
      * left. injection Hj as ->. rewrite Hs. apply list_elem_of_singleton. lia.
      * right. exists j, node. repeat split; try done. lia.
Qed.

Lemma marksStyles_stylePositions nodes i :
  marksStyles (stylePositions i nodes) (i + 1) nodes.
Proof.
  intros j node Hj. rewrite elem_of_stylePositions. split.
  - intros (j' & node' & Hj' & Hs & Heq).
    assert (j' = j) as -> by lia. congruence.
  - intros Hs. by exists j, node.
Qed.

(** Removing the nodes at the positions of the style elements removes
    the style elements, with what is below them, and nothing else. *)
Lemma removeNodes_stylePositions c :
  removeNodes (stylePositions (-1) (walkerNodes c)) c = contentWithoutStyles c.
Proof.
  unfold removeNodes.
  by rewrite (pruneAll_styles c _ 0 (marksStyles_stylePositions (walkerNodes c) (-1))).
Qed.

Lemma styleFree_app a b :
  styleFree a → styleFree b → styleFree (a ++ b).
Proof.
  unfold styleFree, walkerNodes. rewrite flat_map_app. by rewrite Forall_app.
Qed.

Lemma styleFree_contentWithoutStyles c : styleFree (contentWithoutStyles c).
Proof.
  assert (∀ node, isStyle node = false →
            Forall (fun n => isStyle n = false) (subtree (withoutStyles node))) as H.
  { induction node as [name cs IH|d|d] using Node_induction; intros Hs;
      try (by repeat constructor).
    rewrite withoutStyles_Element, subtree_Element. constructor; [done|].
    clear Hs. induction IH as [|n cs Hn _ IHcs]; [constructor|].
    simpl. destruct (isStyle n) eqn:E; [done|].
    rewrite walkerNodes_cons. apply Forall_app. split; [by apply Hn|done]. }
  induction c as [|node c IH]; [constructor|].
  simpl. destruct (isStyle node) eqn:E; [done|].
  unfold styleFree. rewrite walkerNodes_cons. apply Forall_app. split; [by apply H|done].
Qed.

Lemma contentWithoutStyles_styleFree c :
  styleFree c → contentWithoutStyles c = c.
Proof.
  assert (∀ node, Forall (fun n => isStyle n = false) (subtree node) →
            withoutStyles node = node) as H.
  { induction node as [name cs IH|d|d] using Node_induction; intros Hs; try done.
    rewrite withoutStyles_Element. f_equal.
    rewrite subtree_Element in Hs. apply Forall_cons in Hs as [_ Hs].
    induction IH as [|n cs Hn _ IHcs]; [done|].
    rewrite walkerNodes_cons in Hs. apply Forall_app in Hs as [H1 H2].
    simpl. assert (isStyle n = false) as ->.
    { destruct n; simpl in H1; by inversion H1. }
    by rewrite Hn, IHcs. }
  unfold styleFree. induction c as [|node c IH]; [done|].
  rewrite walkerNodes_cons. intros [H1 H2]%Forall_app. simpl.
  assert (isStyle node = false) as ->.
  { destruct node; simpl in H1; by inversion H1. }
  by rewrite H, IH.
Qed.

(** ** The footprint of the factory and of extraction *)

Lemma grows_refl st : grows st st.
Proof.
  split; try done. exists []. by rewrite app_nil_r.
Qed.

Lemma grows_trans st1 st2 st3 : grows st1 st2 → grows st2 st3 → grows st1 st3.
Proof.
  intros [w1 n1 s1 c1 t1 (e1 & He1 & F1)] [w2 n2 s2 c2 t2 (e2 & He2 & F2)].
  split; try congruence; try lia; auto.
  exists (e1 ++ e2). rewrite He2, He1, app_assoc. split; [done|].
  by apply Forall_app.
Qed.

Global Instance grows_reflexive : Reflexive grows := grows_refl.

Global Instance grows_transitive : Transitive grows := grows_trans.

Lemma grows_setPartIndex loc i v st : grows st (setPartIndex loc i v st).
Proof.
  split; try done; simpl.
  - by rewrite length_insert.
  - exists []. by rewrite app_nil_r.
Qed.

Lemma grows_setContent loc c st : grows st (setContent loc c st).
Proof.
  split; try done; simpl.
  - by rewrite length_insert.
  - exists []. by rewrite app_nil_r.
Qed.

Section FactoryProperties.

Variable getTemplateElement : TemplateResult → list Node.

Variable prepareTemplateDom : list Node → string → list Node.

Variable newTemplate : TemplateResult → list Node → Template.

Local Abbreviation factory := (shadyTemplateFactory getTemplateElement prepareTemplateDom newTemplate).

Local Abbreviation compileFor := (compile getTemplateElement prepareTemplateDom newTemplate).

Lemma compile_events w scope r : Forall isPrepareTemplateDom (compileFor w scope r).2.
Proof. unfold compile. destruct w; simpl; repeat constructor. Qed.

(** A cache hit returns the stored reference and changes nothing. *)
Lemma shadyTemplateFactory_hit scope r st loc :
  cached st (cacheKey r scope) (strings r) = Some loc →
  factory scope r st = Return loc st.
Proof.
  unfold cached, shadyTemplateFactory. intros H.
  destruct (templateCaches st !! cacheKey r scope) as [c|] eqn:E; [|done].
  simpl in H. rewrite E. simpl. by rewrite H.
Qed.

(** A cache miss allocates the compiled template and stores its
    reference under the key. *)
Lemma shadyTemplateFactory_miss scope r st :
  cached st (cacheKey r scope) (strings r) = None →
  ∃ st', factory scope r st = Return (length (templates st)) st' ∧
    window_ShadyCSS st' = window_ShadyCSS st ∧
    needsStyleFixup st' = needsStyleFixup st ∧
    shadyRenderSet st' = shadyRenderSet st ∧
    templates st' = templates st ++ [(compileFor (window_ShadyCSS st) scope r).1] ∧
    events st' = events st ++ (compileFor (window_ShadyCSS st) scope r).2 ∧
    cached st' (cacheKey r scope) (strings r) = Some (length (templates st)) ∧
    (∀ key s, (key, s) ≠ (cacheKey r scope, strings r) →
              cached st' key s = cached st key s).
Proof.
  unfold cached, shadyTemplateFactory. intros H.
  destruct (templateCaches st !! cacheKey r scope) as [c|] eqn:E; simpl in *.
  - rewrite E. simpl. rewrite H.
    destruct (compileFor (window_ShadyCSS st) scope r) as [t evs] eqn:Ec.
    eexists. split; [reflexivity|]. simpl.
    repeat split; try done.
    + by rewrite lookup_insert_eq; simpl; rewrite lookup_insert_eq.
    + intros key s Hne. destruct (decide (key = cacheKey r scope)) as [->|Hk].
      * rewrite lookup_insert_eq, E. simpl.
        rewrite lookup_insert_ne; [done|]. congruence.
      * by rewrite lookup_insert_ne.
  - rewrite lookup_insert_eq. simpl. rewrite lookup_empty.
    destruct (compileFor (window_ShadyCSS st) scope r) as [t evs] eqn:Ec.
    eexists. split; [reflexivity|]. simpl.
    repeat split; try done.
    + by rewrite lookup_insert_eq; simpl; rewrite lookup_insert_eq.
    + intros key s Hne. destruct (decide (key = cacheKey r scope)) as [->|Hk].
      * rewrite lookup_insert_eq, E. simpl.
        rewrite lookup_insert_ne; [|congruence]. by rewrite lookup_empty.
      * by rewrite !lookup_insert_ne.
Qed.

(** The factory always returns, and the reference it returns is the
    one the cache holds afterwards. *)
Lemma shadyTemplateFactory_returns scope r st :
  ∃ loc st', factory scope r st = Return loc st' ∧
             cached st' (cacheKey r scope) (strings r) = Some loc ∧
             grows st st'.
Proof.
  destruct (cached st (cacheKey r scope) (strings r)) as [loc|] eqn:E.
  - exists loc, st. split; [by apply shadyTemplateFactory_hit|].
    split; [done|apply grows_refl].
  - destruct (shadyTemplateFactory_miss scope r st E)
      as (st' & Hf & Hw & Hn & Hs & Ht & He & Hc & Ho).
    exists (length (templates st)), st'. split; [done|]. split; [done|].
    split; try done.
    + intros key s loc Hl. rewrite Ho; [done|]. intros [= -> ->]. congruence.
    + rewrite Ht, length_app. lia.
    + eexists. split; [done|]. apply compile_events.
Qed.

Lemma shadyTemplateFactory_grows scope r st loc st' :
  factory scope r st = Return loc st' → grows st st'.
Proof.
  destruct (shadyTemplateFactory_returns scope r st) as (l & s & H & _ & G).
  rewrite H. by intros [= <- <-].
Qed.

Lemma shadyTemplateFactory_cached scope r st loc st' :
  factory scope r st = Return loc st' →
  cached st' (cacheKey r scope) (strings r) = Some loc.
Proof.
  destruct (shadyTemplateFactory_returns scope r st) as (l & s & H & C & _).
  rewrite H. by intros [= <- <-].
Qed.

End FactoryProperties.

Section Respects.

Context (R : State → State → Prop) `{!Reflexive R} `{!Transitive R}.

Lemma respects_ret {A} (a : A) : respects R (mret a).
Proof. intros st st' [= <-]. reflexivity. Qed.

Lemma respects_throw {A} e : respects R (@throw A e).
Proof. intros st st' [= <-]. reflexivity. Qed.

Lemma respects_get : respects R get.
Proof. intros st st' [= <-]. reflexivity. Qed.

Lemma respects_modify f : (∀ st, R st (f st)) → respects R (modify f).
Proof. intros H st st' [= <-]. apply H. Qed.

Lemma respects_bind {A B} (m : M A) (k : A → M B) :
  respects R m → (∀ a, respects R (k a)) → respects R (m ≫= k).
Proof.
  intros Hm Hk st st'. unfold mbind, M_bind, bind.
  specialize (Hm st). destruct (m st) as [a s1|e s1| |]; simpl; try done.
  - intros H. etransitivity; [by apply Hm|]. by eapply Hk.
  - intros [= <-]. by apply Hm.
Qed.

Lemma respects_walk {A} (body : Node → A → M A) nodes :
  (∀ n a, respects R (body n a)) → ∀ acc, respects R (walk body nodes acc).
Proof.
  intros Hb. induction nodes as [|n nodes IH]; intros acc; simpl.
  - apply respects_ret.
  - apply respects_bind; auto.
Qed.

Lemma respects_forOf (f : Value → list Node → M (list Node)) items :
  (∀ v sink, respects R (f v sink)) → ∀ sink, respects R (forOf f items sink).
Proof.
  intros Hf. induction items as [|v items IH]; intros sink; simpl.
  - apply respects_ret.
  - apply respects_bind; auto.
Qed.

(** The loop body and the whole of [extractStylesFromTemplate], for a
    relation that the two writes to a template are in. *)
Hypothesis R_setPartIndex : ∀ loc i v st, R st (setPartIndex loc i v st).

Hypothesis R_setContent : ∀ loc c st, R st (setContent loc c st).

Lemma respects_visitPart extractValue result template l sink :
  (∀ v s, respects R (extractValue v s)) →
  respects R (visitPart extractValue result template l sink).
Proof.
  intros Hx st st'. unfold visitPart.
  destruct (parts (getTemplate st template) !! partIndex l) as [p|];
    [|intros [= <-]; reflexivity].
  destruct (decide (p = index l)); [|intros [= <-]; reflexivity].
  match goal with |- context [extractValue ?v ?s ?st1] =>
    pose proof (Hx v s st1) as Hv; destruct (extractValue v s st1) as [a s2|err s2| |]
  end; simpl; try done.
  - destruct (content_eqb _ _); [|done]. intros [= <-].
    etransitivity; [|by apply Hv]. destruct (decide _); apply R_setPartIndex.
  - intros [= <-].
    etransitivity; [|by apply Hv]. destruct (decide _); apply R_setPartIndex.
Qed.

Lemma respects_visitNode extractValue result template node acc :
  (∀ v s, respects R (extractValue v s)) →
  respects R (visitNode extractValue result template node acc).
Proof.
  intros Hx. unfold visitNode. destruct (visitStyle _ _ _).
  by apply respects_visitPart.
Qed.

Lemma respects_traverseTemplate extractValue sink result template :
  (∀ v s, respects R (extractValue v s)) →
  respects R (traverseTemplate extractValue sink result template).
Proof.
  intros Hx. unfold traverseTemplate.
  apply respects_bind; [apply respects_get|]. intros st.
  apply respects_bind.
  - apply respects_walk. intros. by apply respects_visitNode.
  - intros [l s]. apply respects_bind; [|intros; apply respects_ret].
    apply respects_modify. intros. apply R_setContent.
Qed.

Lemma respects_extractStylesFromTemplateWith extractValue sink templateFactory result :
  (∀ v s, respects R (extractValue v s)) →
  (∀ r, respects R (templateFactory r)) →
  respects R (extractStylesFromTemplateWith extractValue sink templateFactory result).
Proof.
  intros Hx Hf. unfold extractStylesFromTemplateWith.
  apply respects_bind; [apply Hf|]. intros template.
  by apply respects_traverseTemplate.
Qed.

Lemma respects_extractStylesFromValue templateFactory :
  (∀ r, respects R (templateFactory r)) →
  ∀ fuel sink value,
    respects R (extractStylesFromValue fuel sink templateFactory value).
Proof.
  intros Hf. induction fuel as [|fuel IH]; intros sink value;
    destruct value; simpl;
    try apply respects_ret; try apply respects_throw; try done.
  - by apply respects_extractStylesFromTemplateWith.
  - by apply respects_forOf.
  - by apply respects_forOf.
Qed.

Lemma respects_extractStylesFromTemplate templateFactory :
  (∀ r, respects R (templateFactory r)) →
  ∀ fuel sink result,
    respects R (extractStylesFromTemplate fuel sink templateFactory result).
Proof.
  intros Hf fuel sink result. unfold extractStylesFromTemplate.
  apply respects_extractStylesFromTemplateWith; [|done].
  intros. by apply respects_extractStylesFromValue.
Qed.

End Respects.

(** ** Enough fuel *)

Lemma depth_le_foldr v vs : v ∈ vs → depth v ≤ foldr Nat.max 0 (map depth vs).
Proof.
  induction vs as [|w vs IH]; [by intros ?%elem_of_nil|].
  intros [->|H]%elem_of_cons; simpl; [lia|]. specialize (IH H). lia.
Qed.

Lemma depth_lookup_default vs i :
  depth (default VUndefined (vs !! i)) ≤ foldr Nat.max 0 (map depth vs).
Proof.
  destruct (vs !! i) as [v|] eqn:E; simpl; [|lia].
  apply depth_le_foldr. by eapply list_elem_of_lookup_2.
Qed.

Lemma hasFuel_bind {A B} (m : M A) (k : A → M B) :
  hasFuel m → (∀ a, hasFuel (k a)) → hasFuel (m ≫= k).
Proof.
  intros Hm Hk st. unfold mbind, M_bind, bind.
  specialize (Hm st). destruct (m st); try done. apply Hk.
Qed.

Lemma hasFuel_walk {A} (body : Node → A → M A) nodes :
  (∀ n a, hasFuel (body n a)) → ∀ acc, hasFuel (walk body nodes acc).
Proof.
  intros Hb. induction nodes as [|n nodes IH]; intros acc; simpl; [done|].
  apply hasFuel_bind; auto.
Qed.

Lemma hasFuel_forOf (f : Value → list Node → M (list Node)) items :
  (∀ v sink, v ∈ items → hasFuel (f v sink)) →
  ∀ sink, hasFuel (forOf f items sink).
Proof.
  induction items as [|v items IH]; intros Hf sink; simpl; [done|].
  apply hasFuel_bind.
  - apply Hf. by left.
  - intros s. apply IH. intros. apply Hf. by right.
Qed.

Lemma hasFuel_extractStylesFromTemplateWith extractValue sink templateFactory result :
  (∀ i s, hasFuel (extractValue (default VUndefined (values result !! i)) s)) →
  (∀ r, hasFuel (templateFactory r)) →
  hasFuel (extractStylesFromTemplateWith extractValue sink templateFactory result).
Proof.
  intros Hx Hf. unfold extractStylesFromTemplateWith, traverseTemplate.
  apply hasFuel_bind; [apply Hf|]. intros template.
  apply hasFuel_bind; [done|]. intros st0.
  apply hasFuel_bind.
  - apply hasFuel_walk. intros n [l s] st. unfold visitNode.
    destruct (visitStyle _ _ _) as [l1 s1]. unfold visitPart.
    destruct (parts (getTemplate st template) !! partIndex l1) as [p|]; [|done].
    destruct (decide _); [|done].
    match goal with |- context [extractValue ?v ?s ?st1] =>
      pose proof (Hx (partIndex l1) s st1) as Hv;
      destruct (extractValue v s st1)
    end; try done.
    by destruct (content_eqb _ _).
  - intros [l s]. apply hasFuel_bind; done.
Qed.

Lemma hasFuel_extractStylesFromValue templateFactory :
  (∀ r, hasFuel (templateFactory r)) →
  ∀ fuel sink value, depth value ≤ fuel →
    hasFuel (extractStylesFromValue fuel sink templateFactory value).
Proof.
  intros Hf. induction fuel as [|fuel IH]; intros sink value Hd;
    destruct value; simpl in *; try done; try lia.
  - apply hasFuel_extractStylesFromTemplateWith; [|done].
    intros i s. apply IH. simpl. pose proof (depth_lookup_default values0 i). lia.
  - apply hasFuel_forOf. intros v s Hv. apply IH.
    pose proof (depth_le_foldr _ _ Hv). lia.
  - apply hasFuel_forOf. intros v s Hv. apply IH.
    pose proof (depth_le_foldr _ _ Hv). lia.
Qed.

Lemma hasFuel_extractStylesFromTemplate templateFactory :
  (∀ r, hasFuel (templateFactory r)) →
  ∀ fuel sink result, depthResult result ≤ fuel →
    hasFuel (extractStylesFromTemplate fuel sink templateFactory result).
Proof.
  intros Hf fuel sink result Hd. unfold extractStylesFromTemplate.
  apply hasFuel_extractStylesFromTemplateWith; [|done].
  intros i s. apply hasFuel_extractStylesFromValue; [done|].
  pose proof (depth_lookup_default (values result) i). unfold depthResult in Hd. lia.
Qed.

(** ** The render entry point *)

Section RenderProperties.

Variable getTemplateElement : TemplateResult → list Node.

Variable prepareTemplateDom : list Node → string → list Node.

Variable newTemplate : TemplateResult → list Node → Template.

Variable prepareTemplateStyles : list Node → string → option (list Node).

Local Abbreviation factory :=
  (shadyTemplateFactory getTemplateElement prepareTemplateDom newTemplate).

Local Abbreviation extract := extractStylesFromTemplate.

Local Abbreviation shadyRender :=
  (render getTemplateElement prepareTemplateDom newTemplate prepareTemplateStyles).

Local Abbreviation afterExtraction :=
  (afterExtraction getTemplateElement prepareTemplateDom newTemplate
     prepareTemplateStyles).
Local Abbreviation step :=
  (step getTemplateElement prepareTemplateDom newTemplate prepareTemplateStyles).
Local Abbreviation runs :=
  (runs getTemplateElement prepareTemplateDom newTemplate prepareTemplateStyles).

(** Without the constant or without a host, [render] only delegates. *)
Lemma render_delegates fuel result container scopeName st :
  needsStyleFixup st = false ∨ hostForNode container = None →
  shadyRender fuel result container scopeName st =
    Return tt (emit (BaseRender result container None) st).
Proof.
  unfold render. intros [->| ->]; [done|]. by destruct (needsStyleFixup st).
Qed.

(** A scope already in the render set: no extraction, no style
    processing, whatever the fuel. *)
Lemma render_gated fuel result container scopeName host st :
  needsStyleFixup st = true →
  hostForNode container = Some host →
  scopeName ∈ shadyRenderSet st →
  shadyRender fuel result container scopeName st =
    match window_ShadyCSS st with
    | Some _ =>
        Return tt (emit (BaseRender result container (Some scopeName))
                        (emit (StyleElement host) st))
    | None =>
        Throw (TypeError "Cannot read properties of undefined (window.ShadyCSS)") st
    end.
Proof.
  intros Hn Hh Hs. unfold render. rewrite Hn, Hh.
  rewrite decide_True by done.
  unfold mbind, M_bind, bind, mret, M_ret, ret, withShadyCSS. simpl.
  by destruct (window_ShadyCSS st).
Qed.

(** A scope not yet in the render set: the scope is added first, then
    extraction runs from that state, and the rest follows only if
    extraction returns. *)
Lemma render_first fuel result container scopeName host st :
  needsStyleFixup st = true →
  hostForNode container = Some host →
  scopeName ∉ shadyRenderSet st →
  shadyRender fuel result container scopeName st =
    match extract fuel [] (factory scopeName) result
            (set_shadyRenderSet ({[scopeName]} ∪ shadyRenderSet st) st) with
    | Return styleTemplate st' =>
        afterExtraction result container scopeName host styleTemplate st'
    | Throw e st' => Throw e st'
    | OutOfFuel => OutOfFuel
    | StaleWalker => StaleWalker
    end.
Proof.
  intros Hn Hh Hs. unfold render. rewrite Hn, Hh.
  rewrite decide_False by done.
  unfold afterExtraction, mbind, M_bind, bind, modify. simpl.
  destruct (extract _ _ _ _ _) as [sink st'|e st'| |]; try done.
  destruct (withShadyCSS _ st') as [sink' st2|e st2| |]; try done.
Qed.

Lemma countPrepareTemplateStyles_app scope evs1 evs2 :
  countPrepareTemplateStyles scope (evs1 ++ evs2) =
  countPrepareTemplateStyles scope evs1 + countPrepareTemplateStyles scope evs2.
Proof.
  unfold countPrepareTemplateStyles. by rewrite List.filter_app, length_app.
Qed.

Lemma countPrepareTemplateStyles_dom scope evs :
  Forall isPrepareTemplateDom evs → countPrepareTemplateStyles scope evs = 0.
Proof.
  induction 1 as [|e evs He _ IH]; [done|].
  unfold countPrepareTemplateStyles in *. simpl. by destruct e.
Qed.

Lemma factory_respects_grows scopeName result :
  respects grows (factory scopeName result).
Proof.
  intros st st'.
  destruct (shadyTemplateFactory_returns getTemplateElement prepareTemplateDom
              newTemplate scopeName result st) as (loc & s & H & _ & G).
  rewrite H. by intros [= <-].
Qed.

Lemma factory_hasFuel scopeName result : hasFuel (factory scopeName result).
Proof.
  intros st.
  destruct (shadyTemplateFactory_returns getTemplateElement prepareTemplateDom
              newTemplate scopeName result st) as (loc & s & H & _ & G).
  by rewrite H.
Qed.

(** The steps of [afterExtraction] that return: the style-processing
    hook is called with the extracted style template, then the host is
    styled, then the base render is called.  Between the first two only
    the factory can run (line 140). *)
Lemma afterExtraction_returns result container scopeName host styleTemplate st st' :
  afterExtraction result container scopeName host styleTemplate st = Return tt st' →
  ∃ evs,
    events st' = events st ++ [PrepareTemplateStyles styleTemplate scopeName] ++ evs
                   ++ [StyleElement host; BaseRender result container (Some scopeName)] ∧
    Forall isPrepareTemplateDom evs ∧
    (is_Some (cached st (cacheKey result scopeName) (strings result)) → evs = []) ∧
    window_ShadyCSS st' = window_ShadyCSS st ∧
    needsStyleFixup st' = needsStyleFixup st ∧
    shadyRenderSet st' = shadyRenderSet st ∧
    (∀ key s loc, cached st key s = Some loc → cached st' key s = Some loc).
Proof.
  unfold afterExtraction, mbind, M_bind, bind, withShadyCSS, modify, mret, M_ret, ret.
  destruct (window_ShadyCSS st) as [shady|] eqn:Ew; [|done].
  destruct (prepareTemplateStyles styleTemplate scopeName) as [sink'|]; [|done].
  simpl. rewrite Ew.
  destruct (nativeShadow shady); [destruct (querySelectorStyle sink') as [style|]|].
  - set (st1 := emit _ st).
    destruct (shadyTemplateFactory_returns getTemplateElement prepareTemplateDom
                newTemplate scopeName result st1) as (loc & st2 & Hf & Hc & G).
    rewrite Hf. simpl.
    destruct G as [Gw Gn Gs Gc Gt (evs & Ge & Fe)]. simpl in *.
    rewrite Gw, Ew. intros [= <-]. exists evs. simpl. rewrite Ge.
    repeat split; try done.
    + by rewrite <- !app_assoc.
    + intros [loc' Hl].
      assert (cached st1 (cacheKey result scopeName) (strings result) = Some loc')
        as Hl1 by exact Hl.
      apply (shadyTemplateFactory_hit getTemplateElement
        prepareTemplateDom newTemplate) in Hl1.
      rewrite Hf in Hl1. injection Hl1 as _ Hst. rewrite Hst in Ge.
      rewrite <- (app_nil_r (events st1)) in Ge at 1. by apply app_inv_head in Ge.
    + congruence.
  - unfold emit at 1. simpl. rewrite Ew. intros [= <-]. exists []. simpl.
    repeat split; try done. by rewrite <- !app_assoc.
  - unfold emit at 1. simpl. rewrite Ew. intros [= <-]. exists []. simpl.
    repeat split; try done. by rewrite <- !app_assoc.
Qed.

(** Whatever way [afterExtraction] ends, it calls the style-processing
    hook at most once and for this scope only, and leaves the render
    set, the constant and the cache entries alone. *)
Lemma afterExtraction_frame result container scopeName host styleTemplate st st' :
  finalState (afterExtraction result container scopeName host styleTemplate st)
    = Some st' →
  window_ShadyCSS st' = window_ShadyCSS st ∧
  needsStyleFixup st' = needsStyleFixup st ∧
  shadyRenderSet st' = shadyRenderSet st ∧
  (∀ key s loc, cached st key s = Some loc → cached st' key s = Some loc) ∧
  ∃ evs, events st' = events st ++ evs ∧
         countPrepareTemplateStyles scopeName evs ≤ 1 ∧
         ∀ s, s ≠ scopeName → countPrepareTemplateStyles s evs = 0.
Proof.
  destruct (afterExtraction _ _ _ _ _ st) as [[] s1|e s1| |] eqn:E; try done.
  - intros [= ->].
    apply afterExtraction_returns in E as (evs & He & Fe & _ & Hw & Hn & Hs & Hc).
    repeat split; try done. eexists. split; [exact He|].
    split.
    + rewrite !countPrepareTemplateStyles_app, (countPrepareTemplateStyles_dom _ evs) by done.
      unfold countPrepareTemplateStyles. simpl. case_bool_decide; simpl; lia.
    + intros s Hne.
      rewrite !countPrepareTemplateStyles_app, (countPrepareTemplateStyles_dom _ evs) by done.
      unfold countPrepareTemplateStyles. simpl. by rewrite bool_decide_false.
  - intros [= ->]. revert E.
    unfold afterExtraction, mbind, M_bind, bind, withShadyCSS, modify, mret, M_ret, ret.
    destruct (window_ShadyCSS st) as [shady|] eqn:Ew.
    + destruct (prepareTemplateStyles styleTemplate scopeName) as [sink'|].
      * simpl. rewrite Ew.
        destruct (nativeShadow shady); [destruct (querySelectorStyle sink') as [style|]|].
        -- set (st1 := emit _ st).
           destruct (shadyTemplateFactory_returns getTemplateElement prepareTemplateDom
                       newTemplate scopeName result st1) as (loc & st2 & Hf & Hc & G).
           rewrite Hf. simpl. destruct G as [Gw _ _ _ _ _]. simpl in Gw.
           by rewrite Gw, Ew.
        -- simpl. by rewrite Ew.
        -- simpl. by rewrite Ew.
      * intros [= <- <-]. simpl. repeat split; try done.
        eexists. split; [done|]. unfold countPrepareTemplateStyles. simpl.
        split; [case_bool_decide; simpl; lia|].
        intros s Hne. by rewrite bool_decide_false.
    + intros [= <- <-]. repeat split; try done. exists [].
      rewrite app_nil_r. unfold countPrepareTemplateStyles. simpl.
      repeat split; try done; lia.
Qed.


(** What any call of [render] that ends leaves behind. *)
Lemma render_frame fuel result container scopeName st st' :
  finalState (shadyRender fuel result container scopeName st) = Some st' →
  needsStyleFixup st' = needsStyleFixup st ∧
  window_ShadyCSS st' = window_ShadyCSS st ∧
  shadyRenderSet st ⊆ shadyRenderSet st' ∧
  (needsStyleFixup st = true → is_Some (hostForNode container) →
   scopeName ∈ shadyRenderSet st') ∧
  (∀ key s loc, cached st key s = Some loc → cached st' key s = Some loc) ∧
  ∃ evs, events st' = events st ++ evs ∧
    ∀ s, (s ∈ shadyRenderSet st → countPrepareTemplateStyles s evs = 0) ∧
         (s ∉ shadyRenderSet st' → countPrepareTemplateStyles s evs = 0) ∧
         countPrepareTemplateStyles s evs ≤ 1.
Proof.
  destruct (needsStyleFixup st) eqn:Hn; [destruct (hostForNode container) as [host|] eqn:Hh|].
  - destruct (decide (scopeName ∈ shadyRenderSet st)) as [Hs|Hs].
    + rewrite (render_gated _ _ _ _ host) by done.
      destruct (window_ShadyCSS st) as [shady|] eqn:Ew; intros [= <-]; simpl.
      * repeat split; try done. eexists. split; [by rewrite <- app_assoc|].
        intros s. unfold countPrepareTemplateStyles. simpl. repeat split; intros; lia.
      * repeat split; try done. exists []. split; [by rewrite app_nil_r|].
        intros s. unfold countPrepareTemplateStyles. simpl. repeat split; intros; lia.
    + rewrite (render_first _ _ _ _ host) by done.
      pose proof (respects_extractStylesFromTemplate grows grows_setPartIndex
                    grows_setContent (factory scopeName)
                    (factory_respects_grows scopeName) fuel [] result
                    (markScope scopeName st)) as Hx.
      fold (markScope scopeName st).
      destruct (extract fuel [] (factory scopeName) result (markScope scopeName st))
        as [sink st2|e st2| |] eqn:Ex; try done.
      * specialize (Hx st2 eq_refl).
        destruct Hx as [Gw Gn Gs Gc Gt (evs & Ge & Fe)]. simpl in *.
        intros Ha. apply afterExtraction_frame in Ha
          as (Hw & Hn' & Hs' & Hc & evs' & He & Hle & Hz).
        rewrite Hw, Hn', Hs', Gw, Gn, Gs.
        repeat split; try done.
        -- apply union_subseteq_r.
        -- intros _ _. by apply elem_of_union_l, elem_of_singleton.
        -- intros key s loc Hl. apply Hc, Gc. exact Hl.
        -- exists (evs ++ evs'). split; [by rewrite He, Ge, app_assoc|].
           intros s. rewrite countPrepareTemplateStyles_app,
             (countPrepareTemplateStyles_dom _ evs) by done. simpl.
           destruct (decide (s = scopeName)) as [->|Hne].
           ++ repeat split; [done| |done]. intros Hnot. exfalso. apply Hnot.
              by apply elem_of_union_l, elem_of_singleton.
           ++ rewrite Hz by done. repeat split; intros; lia.
      * specialize (Hx st2 eq_refl).
        destruct Hx as [Gw Gn Gs Gc Gt (evs & Ge & Fe)]. simpl in *.
        intros [= <-]. rewrite Gs.
        repeat split; try done.
        -- congruence.
        -- apply union_subseteq_r.
        -- intros _ _. by apply elem_of_union_l, elem_of_singleton.
        -- exists evs. split; [done|]. intros s.
           rewrite (countPrepareTemplateStyles_dom _ evs) by done.
           repeat split; intros; lia.
  - rewrite render_delegates by auto. intros [= <-]. simpl.
    repeat split; try done; try by intros _ [? ?].
    eexists. split; [done|]. intros s. unfold countPrepareTemplateStyles. simpl.
    repeat split; intros; lia.
  - rewrite render_delegates by auto. intros [= <-]. simpl.
    repeat split; try done.
    eexists. split; [done|]. intros s. unfold countPrepareTemplateStyles. simpl.
    repeat split; intros; lia.
Qed.

Lemma step_invariant st st' :
  step st st' →
  needsStyleFixup st' = needsStyleFixup st ∧
  shadyRenderSet st ⊆ shadyRenderSet st' ∧
  (gateInvariant st → gateInvariant st').
Proof.
  intros [fuel result container scopeName st0 st1 H|w st0]; [|done].
  apply render_frame in H as (Hn & _ & Hs & _ & _ & evs & He & Hc).
  repeat split; try done.
  - rewrite He, countPrepareTemplateStyles_app.
    destruct (H s) as [H1 H2]. destruct (Hc s) as (C1 & C2 & C3).
    destruct (decide (s ∈ shadyRenderSet st0)) as [Hin|Hin].
    + rewrite C1 by done. lia.
    + rewrite H2 by done. lia.
  - intros Hnot. rewrite He, countPrepareTemplateStyles_app.
    destruct (H s) as [H1 H2]. destruct (Hc s) as (C1 & C2 & C3).
    rewrite C2 by done. rewrite H2; [done|]. intros Hin. by apply Hnot, Hs.
Qed.

Lemma runs_invariant st st' :
  runs st st' →
  needsStyleFixup st' = needsStyleFixup st ∧
  shadyRenderSet st ⊆ shadyRenderSet st' ∧
  (gateInvariant st → gateInvariant st').
Proof.
  induction 1 as [st|st1 st2 st3 Hstep _ IH]; [done|].
  apply step_invariant in Hstep as (Hn & Hs & Hg).
  destruct IH as (Hn' & Hs' & Hg').
  split; [congruence|]. split; [by etransitivity|]. tauto.
Qed.

(** Once a scope is in the render set, no step calls the
    style-processing hook for it. *)
Lemma step_gated scopeName st st' :
  step st st' →
  scopeName ∈ shadyRenderSet st →
  countPrepareTemplateStyles scopeName (events st')
    = countPrepareTemplateStyles scopeName (events st).
Proof.
  intros [fuel result container scope st0 st1 H|w st0] Hin; [|done].
  apply render_frame in H as (_ & _ & _ & _ & _ & evs & He & Hc).
  rewrite He, countPrepareTemplateStyles_app.
  destruct (Hc scopeName) as (C1 & _). rewrite C1 by done. lia.
Qed.

Lemma runs_gated scopeName st st' :
  runs st st' →
  scopeName ∈ shadyRenderSet st →
  scopeName ∈ shadyRenderSet st' ∧
  countPrepareTemplateStyles scopeName (events st')
    = countPrepareTemplateStyles scopeName (events st).
Proof.
  induction 1 as [st|st1 st2 st3 Hstep _ IH]; [done|]. intros Hin.
  pose proof (step_gated scopeName _ _ Hstep Hin) as Hcount.
  apply step_invariant in Hstep as (_ & Hs & _).
  destruct (IH (Hs _ Hin)) as [Hin' Hcount']. split; [done|]. congruence.
Qed.


Lemma extract_cached fuel sink scopeName result st st' :
  finalState (extract fuel sink (factory scopeName) result st) = Some st' →
  is_Some (cached st' (cacheKey result scopeName) (strings result)).
Proof.
  unfold extractStylesFromTemplate, extractStylesFromTemplateWith.
  unfold mbind at 1, M_bind at 1, bind at 1.
  destruct (shadyTemplateFactory_returns getTemplateElement prepareTemplateDom
              newTemplate scopeName result st) as (loc & s1 & Hf & Hc & _).
  rewrite Hf. intros H.
  eapply (respects_traverseTemplate grows grows_setPartIndex grows_setContent) in H.
  - exists loc. by apply (grows_cached _ _ H).
  - intros v s. apply respects_extractStylesFromValue; try apply _.
    + apply grows_setPartIndex.
    + apply grows_setContent.
    + apply factory_respects_grows.
Qed.

Lemma render_hasFuel fuel result container scopeName :
  depthResult result ≤ fuel →
  hasFuel (shadyRender fuel result container scopeName).
Proof.
  intros Hd st.
  destruct (needsStyleFixup st) eqn:Hn;
    [destruct (hostForNode container) as [host|] eqn:Hh|];
    [|by rewrite render_delegates by auto..].
  destruct (decide (scopeName ∈ shadyRenderSet st)) as [Hs|Hs].
  - rewrite (render_gated _ _ _ _ host) by done. by destruct (window_ShadyCSS st).
  - rewrite (render_first _ _ _ _ host) by done.
    pose proof (hasFuel_extractStylesFromTemplate (factory scopeName)
                  (factory_hasFuel scopeName) fuel [] result Hd
                  (set_shadyRenderSet ({[scopeName]} ∪ shadyRenderSet st) st)) as Hx.
    destruct (extract _ _ _ _ _) as [sink st2|e st2| |]; try done.
    intros Ha. assert (finalState (afterExtraction result container scopeName host sink st2) = None)
      as Hnone by by rewrite Ha.
    revert Hnone.
    unfold afterExtraction, mbind, M_bind, bind, withShadyCSS, modify, mret, M_ret, ret.
    destruct (window_ShadyCSS st2) as [shady|] eqn:Ew; [|done].
    destruct (prepareTemplateStyles sink scopeName) as [sink'|]; [|done].
    unfold emit at 1. simpl. rewrite Ew.
    destruct (nativeShadow shady); [destruct (querySelectorStyle sink') as [style|]|].
    + match goal with |- context [factory scopeName result ?s] =>
        destruct (shadyTemplateFactory_returns getTemplateElement prepareTemplateDom
                    newTemplate scopeName result s) as (loc & st3 & Hf & _ & [Gw _ _ _ _ _])
      end.
      rewrite Hf. simpl in *. by rewrite Gw, Ew.
    + simpl. by rewrite Ew.
    + simpl. by rewrite Ew.
Qed.

(** The events of a first call for a scope that returns: extraction
    (which may compile templates), the style-processing hook on the
    style template extraction returned, the host, the base render. *)
Lemma render_first_returns fuel result container scopeName host st st' :
  needsStyleFixup st = true →
  hostForNode container = Some host →
  scopeName ∉ shadyRenderSet st →
  shadyRender fuel result container scopeName st = Return tt st' →
  ∃ styleTemplate st2 evs,
    extract fuel [] (factory scopeName) result (markScope scopeName st)
      = Return styleTemplate st2 ∧
    events st2 = events st ++ evs ∧
    Forall isPrepareTemplateDom evs ∧
    events st' = events st2 ++
      [PrepareTemplateStyles styleTemplate scopeName; StyleElement host;
       BaseRender result container (Some scopeName)] ∧
    scopeName ∈ shadyRenderSet st'.
Proof.
  intros Hn Hh Hs. rewrite (render_first _ _ _ _ host) by done.
  fold (markScope scopeName st).
  destruct (extract fuel [] (factory scopeName) result (markScope scopeName st))
    as [sink st2|e st2| |] eqn:Ex; try done.
  intros Ha. exists sink, st2.
  pose proof (respects_extractStylesFromTemplate grows grows_setPartIndex
                grows_setContent (factory scopeName)
                (factory_respects_grows scopeName) fuel [] result
                (markScope scopeName st) st2) as G.
  rewrite Ex in G. specialize (G eq_refl).
  destruct G as [Gw Gn Gs Gc Gt (evs & Ge & Fe)]. simpl in *.
  assert (is_Some (cached st2 (cacheKey result scopeName) (strings result))) as Hc.
  { eapply extract_cached. by rewrite Ex. }
  apply afterExtraction_returns in Ha as (evs' & He & _ & Hnil & _ & _ & Hs' & _).
  rewrite (Hnil Hc) in He. exists evs. repeat split; try done.
  rewrite Hs', Gs. by apply elem_of_union_l, elem_of_singleton.
Qed.


(** C10.  When the first call of [render] for a scope throws, the scope
    had been put in the render set before extraction started: the
    exception comes from extraction started in the marked state, or
    from what follows an extraction that returned from it (among which
    a raising [prepareTemplateStyles]).  The scope is in the render set
    of the state the exception leaves, it stays there whatever is
    called afterwards, and every later call of [render] for that scope
    skips extraction and style processing: it only styles the host and
    calls the base render. *)
Theorem render_gate_marked_before_extraction
    fuel result container scopeName host e st st1 :
  needsStyleFixup st = true →
  hostForNode container = Some host →
  scopeName ∉ shadyRenderSet st →
  shadyRender fuel result container scopeName st = Throw e st1 →
  (extract fuel [] (factory scopeName) result (markScope scopeName st)
     = Throw e st1 ∨
   ∃ styleTemplate st2,
     extract fuel [] (factory scopeName) result (markScope scopeName st)
       = Return styleTemplate st2 ∧
     afterExtraction result container scopeName host styleTemplate st2
       = Throw e st1) ∧
  scopeName ∈ shadyRenderSet st1 ∧
  ∀ st2, runs st1 st2 →
    scopeName ∈ shadyRenderSet st2 ∧
    ∀ fuel' result' container' host',
      hostForNode container' = Some host' →
      shadyRender fuel' result' container' scopeName st2 =
        match window_ShadyCSS st2 with
        | Some _ =>
            Return tt (emit (BaseRender result' container' (Some scopeName))
                            (emit (StyleElement host') st2))
        | None =>
            Throw (TypeError "Cannot read properties of undefined (window.ShadyCSS)") st2
        end.
Proof.
  intros Hn Hh Hs Hr.
  assert (finalState (shadyRender fuel result container scopeName st) = Some st1)
    as Hfin by by rewrite Hr.
  apply render_frame in Hfin as (Hn1 & _ & _ & Hin & _).
  specialize (Hin Hn (ltac:(by rewrite Hh))).
  split; [|split; [done|]].
  - rewrite (render_first _ _ _ _ host) in Hr by done.
    fold (markScope scopeName st) in Hr.
    destruct (extract fuel [] (factory scopeName) result (markScope scopeName st))
      as [sink s2|e' s2| |]; try done.
    + right. by exists sink, s2.
    + left. by injection Hr as -> ->.
  - intros st2 Hruns. apply runs_invariant in Hruns as (Hn2 & Hs2 & _).
    split; [by apply Hs2|].
    intros fuel' result' container' host' Hh'.
    apply render_gated; [congruence|done|by apply Hs2].
Qed.

(** C1, as amended.  The constant [needsStyleFixup] is what the
    polyfill's flags were when the module was loaded; in any state
    reached from there, a call of [render] that returns has, when that
    constant is true and the container has a host, called
    [styleElement] on the host and then the base render with the scoped
    factory, after nothing but the preparation hooks; and has otherwise
    called only the base render, with the default factory. *)
Theorem render_styles_host_when_fixup_needed
    w st fuel result container scopeName st' :
  runs (loadModule w) st →
  shadyRender fuel result container scopeName st = Return tt st' →
  needsStyleFixup st = computeNeedsStyleFixup w ∧
  match computeNeedsStyleFixup w, hostForNode container with
  | true, Some host =>
      ∃ evs, events st' = events st ++ evs ++
               [StyleElement host; BaseRender result container (Some scopeName)] ∧
             Forall isPreparation evs
  | _, _ => events st' = events st ++ [BaseRender result container None]
  end.
Proof.
  intros Hruns Hr. apply runs_invariant in Hruns as (Hn & _ & _).
  simpl in Hn. split; [done|]. rewrite <- Hn.
  destruct (needsStyleFixup st) eqn:En;
    [destruct (hostForNode container) as [host|] eqn:Hh|].
  - destruct (decide (scopeName ∈ shadyRenderSet st)) as [Hs|Hs].
    + rewrite (render_gated _ _ _ _ host) in Hr by done.
      destruct (window_ShadyCSS st); [|done]. injection Hr as <-.
      exists []. simpl. split; [by rewrite <- app_assoc|done].
    + eapply render_first_returns in Hr as (sink & st2 & evs & _ & He2 & Fe & He & _);
        try done.
      exists (evs ++ [PrepareTemplateStyles sink scopeName]). split.
      * rewrite He, He2. by rewrite <- !app_assoc.
      * apply Forall_app. split; [|by repeat constructor].
        eapply Forall_impl; [exact Fe|]. by intros [].
  - rewrite render_delegates in Hr by auto. by injection Hr as <-.
  - rewrite render_delegates in Hr by auto. by injection Hr as <-.
Qed.

End RenderProperties.

(** ** Templates without style elements *)

Lemma set_templates_same st : set_templates (templates st) st = st.
Proof. by destruct st. Qed.

Lemma set_templates_twice ts ts' st :
  set_templates ts (set_templates ts' st) = set_templates ts st.
Proof. done. Qed.

Lemma templates_set_templates ts st : templates (set_templates ts st) = ts.
Proof. done. Qed.

Lemma setPartIndex_same loc i p st :
  parts (getTemplate st loc) !! i = Some p → setPartIndex loc i p st = st.
Proof.
  unfold setPartIndex, getTemplate. intros H.
  destruct (templates st !! loc) as [t|] eqn:E; simpl in *.
  - rewrite (list_insert_id (parts t)) by done.
    destruct t as [c ps]. simpl. rewrite list_insert_id by done.
    apply set_templates_same.
  - by rewrite lookup_nil in H.
Qed.

Lemma setContent_same loc st :
  setContent loc (content (getTemplate st loc)) st = st.
Proof.
  unfold setContent, getTemplate.
  destruct (templates st !! loc) as [t|] eqn:E; simpl.
  - destruct t as [c ps]. simpl. rewrite list_insert_id by done.
    apply set_templates_same.
  - rewrite list_insert_ge; [apply set_templates_same|].
    by apply lookup_ge_None.
Qed.

Lemma getTemplate_allocated st st' new loc :
  templates st' = templates st ++ new →
  is_Some (templates st !! loc) →
  getTemplate st' loc = getTemplate st loc.
Proof.
  unfold getTemplate. intros -> [t H]. by rewrite (lookup_app_l_Some _ _ _ _ H), H.
Qed.

Lemma getTemplate_Some st loc t :
  templates st !! loc = Some t → getTemplate st loc = t.
Proof. unfold getTemplate. by intros ->. Qed.

Lemma parts_allocated st loc i p :
  parts (getTemplate st loc) !! i = Some p → is_Some (templates st !! loc).
Proof.
  unfold getTemplate. destruct (templates st !! loc); [eauto|].
  simpl. by rewrite lookup_nil.
Qed.

Section StyleFree.

Variable getTemplateElement : TemplateResult → list Node.

Variable prepareTemplateDom : list Node → string → list Node.

Variable newTemplate : TemplateResult → list Node → Template.

Variable scopeName : string.

Local Abbreviation factory :=
  (shadyTemplateFactory getTemplateElement prepareTemplateDom newTemplate scopeName).

Local Abbreviation compileFor :=
  (compile getTemplateElement prepareTemplateDom newTemplate).

Variable R : list TemplateResult.

Local Abbreviation templateFor :=
  (templateFor getTemplateElement prepareTemplateDom newTemplate scopeName).
Local Abbreviation allStyleFree :=
  (allStyleFree getTemplateElement prepareTemplateDom newTemplate scopeName R).
Local Abbreviation covered := (covered R).
Local Abbreviation onlyCompiled :=
  (onlyCompiled getTemplateElement prepareTemplateDom newTemplate scopeName R).
Local Abbreviation untouched :=
  (untouched getTemplateElement prepareTemplateDom newTemplate scopeName R).

Lemma onlyCompiled_refl st : onlyCompiled st st.
Proof. split; [done|]. exists []. by rewrite app_nil_r. Qed.

Lemma onlyCompiled_trans st1 st2 st3 :
  onlyCompiled st1 st2 → onlyCompiled st2 st3 → onlyCompiled st1 st3.
Proof.
  intros (w1 & n1 & H1 & F1) (w2 & n2 & H2 & F2). split; [congruence|].
  exists (n1 ++ n2). rewrite H2, H1, app_assoc. split; [done|].
  apply Forall_app. split; [done|]. by rewrite w1 in F2.
Qed.

Lemma styleFree_empty : styleFree (content emptyTemplate).
Proof. constructor. Qed.

Lemma factory_styleFree r st :
  r ∈ R → allStyleFree st →
  ∃ loc st', factory r st = Return loc st' ∧
    onlyCompiled st st' ∧ allStyleFree st' ∧
    styleFree (content (getTemplate st' loc)).
Proof.
  intros Hr Hall.
  destruct (cached st (cacheKey r scopeName) (strings r)) as [loc|] eqn:E.
  - exists loc, st. split; [by apply shadyTemplateFactory_hit|].
    split; [apply onlyCompiled_refl|]. split; [done|].
    specialize (Hall r Hr). unfold templateFor in Hall. by rewrite E in Hall.
  - destruct (shadyTemplateFactory_miss getTemplateElement prepareTemplateDom
                newTemplate scopeName r st E)
      as (st' & Hf & Hw & _ & _ & Ht & _ & Hc & Ho).
    exists (length (templates st)), st'. split; [done|].
    assert (styleFree (content (compileFor (window_ShadyCSS st) scopeName r).1)) as Hnew.
    { specialize (Hall r Hr). unfold templateFor in Hall. by rewrite E in Hall. }
    assert (∀ loc, getTemplate st' loc = getTemplate st loc ∨
                   getTemplate st' loc = (compileFor (window_ShadyCSS st) scopeName r).1)
      as Hget.
    { intros loc. unfold getTemplate. rewrite Ht.
      destruct (decide (loc < length (templates st))) as [Hlt|Hge].
      - left. by rewrite lookup_app_l.
      - rewrite lookup_app_r by lia.
        destruct (loc - length (templates st)) as [|k] eqn:Ek; simpl; [by right|].
        left. by rewrite (proj2 (lookup_ge_None _ _)) by lia. }
    split; [|split].
    + split; [done|]. eexists. split; [exact Ht|]. repeat constructor. eauto.
    + intros r' Hr'. unfold templateFor.
      destruct (decide ((cacheKey r' scopeName, strings r') =
                        (cacheKey r scopeName, strings r))) as [Heq|Hne].
      * injection Heq as -> ->. rewrite Hc.
        destruct (Hget (length (templates st))) as [-> | ->]; [|done].
        unfold getTemplate. rewrite (proj2 (lookup_ge_None _ _)) by lia.
        apply styleFree_empty.
      * rewrite Ho by done. specialize (Hall r' Hr'). unfold templateFor in Hall.
        destruct (cached st (cacheKey r' scopeName) (strings r')) as [loc|].
        -- by destruct (Hget loc) as [-> | ->].
        -- by rewrite Hw.
    + destruct (Hget (length (templates st))) as [-> | ->]; [|done].
      unfold getTemplate. rewrite (proj2 (lookup_ge_None _ _)) by lia.
      apply styleFree_empty.
Qed.

Lemma walk_styleFree extractValue result template nodes :
  (∀ i sink st, allStyleFree st →
     untouched st sink (extractValue (default VUndefined (values result !! i)) sink st)) →
  Forall (fun node => isStyle node = false) nodes →
  ∀ l sink st, noStyleSeen l → allStyleFree st →
    match walk (visitNode extractValue result template) nodes (l, sink) st with
    | Return (l', sink') st' =>
        noStyleSeen l' ∧ sink' = sink ∧ onlyCompiled st st' ∧ allStyleFree st'
    | Throw _ st' => onlyCompiled st st' ∧ allStyleFree st'
    | OutOfFuel => True
    | StaleWalker => False
    end.
Proof.
  intros Hx. induction 1 as [|node nodes Hnode _ IH]; intros l sink st Hl Hall.
  { simpl. split; [done|]. split; [done|]. split; [apply onlyCompiled_refl|done]. }
  simpl. unfold mbind, M_bind, bind.
  destruct Hl as (Hd & Hu & Hi & Hrm).
  unfold visitNode, visitStyle. simpl. rewrite Hnode.
  set (l1 := mkLocals _ _ _ _ _).
  assert (noStyleSeen l1) as Hl1 by (repeat split; simpl; try done; lia).
  unfold visitPart.
  destruct (parts (getTemplate st template) !! partIndex l1) as [p|] eqn:Ep;
    [|by apply IH].
  destruct (decide (p = index l1)) as [->|Hne]; [|by apply IH].
  rewrite decide_False by (simpl; lia).
  replace (index l1 + partDelta l1)%Z with (index l1) by (simpl; lia).
  rewrite setPartIndex_same by done.
  specialize (Hx (partIndex l1) sink st Hall).
  destruct (extractValue _ sink st) as [sink' st2|e st2| |]; try done.
  destruct Hx as (-> & Hoc & Hall2).
  destruct Hoc as (Hw & new & Ht & Fn).
  rewrite (getTemplate_allocated st st2 new) by eauto using parts_allocated.
  rewrite content_eqb_refl.
  set (l2 := mkLocals _ _ _ _ _).
  assert (noStyleSeen l2) as Hl2 by (repeat split; simpl; try done; lia).
  specialize (IH l2 sink st2 Hl2 Hall2).
  destruct (walk _ nodes (l2, sink) st2) as [[l' s'] st'|e st'| |]; try done.
  - destruct IH as (? & ? & Hoc' & ?). split; [done|]. split; [done|].
    split; [|done].
    eapply onlyCompiled_trans; [|exact Hoc']. split; [done|]. by exists new.
  - destruct IH as (Hoc' & ?). split; [|done].
    eapply onlyCompiled_trans; [|exact Hoc']. split; [done|]. by exists new.
Qed.

Lemma traverseTemplate_styleFree extractValue sink result template st :
  (∀ i sink st, allStyleFree st →
     untouched st sink (extractValue (default VUndefined (values result !! i)) sink st)) →
  allStyleFree st →
  styleFree (content (getTemplate st template)) →
  untouched st sink (traverseTemplate extractValue sink result template st).
Proof.
  intros Hx Hall Hfree. unfold traverseTemplate, mbind, M_bind, bind, get, modify.
  pose proof (walk_styleFree extractValue result template _ Hx Hfree
                initialLocals sink st) as Hwalk.
  destruct (walk _ _ _ st) as [[l' s'] st'|e st'| |]; try done.
  - destruct Hwalk as ((_ & _ & _ & Hrm) & -> & Hoc & Hall');
      [by repeat split|done|].
    simpl. rewrite Hrm, removeNodes_nil, setContent_same. by split.
  - apply Hwalk; [by repeat split|done].
  - apply Hwalk; [by repeat split|done].
Qed.

Lemma forOf_styleFree (f : Value → list Node → M (list Node)) items :
  (∀ v sink st, v ∈ items → allStyleFree st → untouched st sink (f v sink st)) →
  ∀ sink st, allStyleFree st → untouched st sink (forOf f items sink st).
Proof.
  induction items as [|v items IH]; intros Hf sink st Hall.
  { simpl. split; [done|]. split; [apply onlyCompiled_refl|done]. }
  simpl. unfold mbind, M_bind, bind.
  pose proof (Hf v sink st (ltac:(by left)) Hall) as Hv.
  destruct (f v sink st) as [sink' st1|e st1| |]; try done.
  destruct Hv as (-> & Hoc & Hall1).
  assert (untouched st1 sink (forOf f items sink st1)) as Hrest.
  { apply IH; [|done]. intros. apply Hf; [by right|done]. }
  destruct (forOf f items sink st1) as [sink' st2|e st2| |]; try done.
  - destruct Hrest as (? & Hoc' & ?). split; [done|]. split; [|done].
    eapply onlyCompiled_trans; [exact Hoc|exact Hoc'].
  - destruct Hrest as (Hoc' & ?). split; [|done].
    eapply onlyCompiled_trans; [exact Hoc|exact Hoc'].
Qed.

Lemma covered_lookup t s vs i :
  covered (VTemplateResult t s vs) → covered (default VUndefined (vs !! i)).
Proof.
  intros Hc r Hr. destruct (vs !! i) as [v|] eqn:E; simpl in Hr;
    [|by apply elem_of_nil in Hr].
  apply Hc. simpl. right. apply list_elem_of_In, in_flat_map.
  exists v. split; [by eapply list_elem_of_In, list_elem_of_lookup_2|].
  by apply list_elem_of_In.
Qed.

Lemma covered_item vs v :
  (∀ r, r ∈ flat_map nestedResults vs → r ∈ R) → v ∈ vs → covered v.
Proof.
  intros Hc Hv r Hr. apply Hc. apply list_elem_of_In, in_flat_map.
  exists v. split; by apply list_elem_of_In.
Qed.

Lemma extractStylesFromTemplateWith_styleFree extractValue sink result st :
  (∀ i sink st, allStyleFree st →
     untouched st sink (extractValue (default VUndefined (values result !! i)) sink st)) →
  result ∈ R → allStyleFree st →
  untouched st sink (extractStylesFromTemplateWith extractValue sink factory result st).
Proof.
  intros Hx Hr Hall. unfold extractStylesFromTemplateWith, mbind, M_bind, bind.
  destruct (factory_styleFree result st Hr Hall) as (loc & st1 & Hf & Hoc & Hall1 & Hfree).
  rewrite Hf.
  pose proof (traverseTemplate_styleFree extractValue sink result loc st1 Hx Hall1 Hfree)
    as Ht.
  destruct (traverseTemplate _ _ _ _ st1) as [sink' st2|e st2| |]; try done.
  - destruct Ht as (? & Hoc' & ?). split; [done|]. split; [|done].
    eapply onlyCompiled_trans; [exact Hoc|exact Hoc'].
  - destruct Ht as (Hoc' & ?). split; [|done].
    eapply onlyCompiled_trans; [exact Hoc|exact Hoc'].
Qed.

Lemma extractStylesFromValue_styleFree fuel :
  ∀ value sink st, covered value → allStyleFree st →
    untouched st sink (extractStylesFromValue fuel sink factory value st).
Proof.
  induction fuel as [|fuel IH]; intros value sink st Hc Hall;
    destruct value as [t s vs|vs|vs| | | | | |]; simpl; try done;
    try (split; [done|split; [apply onlyCompiled_refl|done]]);
    try (split; [apply onlyCompiled_refl|done]).
  - apply extractStylesFromTemplateWith_styleFree; [|apply Hc; by left|done].
    intros i sink' st' Hall'. apply IH; [|done]. by eapply covered_lookup.
  - apply forOf_styleFree; [|done]. intros v sink' st' Hv Hall'.
    apply IH; [|done]. by eapply covered_item.
  - apply forOf_styleFree; [|done]. intros v sink' st' Hv Hall'.
    apply IH; [|done]. by eapply covered_item.
Qed.

End StyleFree.

(** ** Parts with distinct indices

    When the indices of the parts increase strictly and their values
    are inert, the cursor of the traversal reaches every part, and the
    traversal does to each part what [reindexFrom] says. *)

Lemma extractStylesFromValue_inert fuel sink templateFactory value st :
  inert value →
  extractStylesFromValue fuel sink templateFactory value st = Return sink st.
Proof. by destruct value, fuel. Qed.

Lemma visitStyle_index node l sink :
  index (visitStyle node l sink).1 = (index l + 1)%Z ∧
  partIndex (visitStyle node l sink).1 = partIndex l.
Proof. unfold visitStyle. by destruct (isStyle node). Qed.

Lemma visitStyle_sink node l sink :
  (visitStyle node l sink).2 = sink ++ (if isStyle node then [node] else []).
Proof. unfold visitStyle. destruct (isStyle node); simpl; by rewrite ?app_nil_r. Qed.

Lemma visitStyle_nodesToRemove node l sink :
  nodesToRemove (visitStyle node l sink).1 =
    nodesToRemove l ++ (if isStyle node then [(index l + 1)%Z] else []).
Proof. unfold visitStyle. destruct (isStyle node); simpl; by rewrite ?app_nil_r. Qed.

(** [reindexFrom] looks at three of the loop variables only. *)
Lemma reindexFrom_ext rest : ∀ l l' p,
  partDelta l = partDelta l' → disableUntil l = disableUntil l' →
  index l = index l' →
  reindexFrom l rest p = reindexFrom l' rest p.
Proof.
  induction rest as [|node rest IH]; intros l l' p Hd Hu Hi; [done|].
  simpl. unfold visitStyle. rewrite Hd, Hu, Hi.
  destruct (isStyle node); simpl; repeat case_decide; try done;
    by apply IH.
Qed.

Lemma reindexFrom_nil_map l ps : map (reindexFrom l []) ps = ps.
Proof. induction ps as [|p ps IH]; [done|]. simpl. f_equal. exact IH. Qed.

Lemma increasingFrom_above lo ps :
  increasingFrom lo ps → Forall (fun p => (lo < p)%Z) ps.
Proof.
  revert lo. induction ps as [|p ps IH]; intros lo; [constructor|].
  intros [Hp Hps]. constructor; [done|].
  eapply Forall_impl; [by apply IH|]. simpl. lia.
Qed.

Lemma increasingFrom_weaken lo lo' ps :
  (lo' ≤ lo)%Z → increasingFrom lo ps → increasingFrom lo' ps.
Proof. destruct ps as [|p ps]; [done|]. intros Hle [Hp Hps]. split; [lia|done]. Qed.

(** Parts beyond the node being visited are looked at later. *)
Lemma reindexFrom_later l node rest ps :
  Forall (fun p => (index l + 1 < p)%Z) ps →
  map (reindexFrom l (node :: rest)) ps =
  map (reindexFrom (visitStyle node l []).1 rest) ps.
Proof.
  intros H. apply Forall_fmap_ext. eapply Forall_impl; [exact H|].
  intros p Hp. cbv beta in Hp. simpl.
  destruct (visitStyle_index node l []) as [Hi _].
  rewrite decide_False; [done|]. rewrite Hi. lia.
Qed.

Lemma walk_cons {A} (body : Node → A → M A) node rest acc st :
  walk body (node :: rest) acc st =
    match body node acc st with
    | Return acc' st' => walk body rest acc' st'
    | Throw e st' => Throw e st'
    | OutOfFuel => OutOfFuel
    | StaleWalker => StaleWalker
    end.
Proof. done. Qed.

Lemma visitNode_pair extractValue result template node l sink :
  visitNode extractValue result template node (l, sink) =
    visitPart extractValue result template
      (visitStyle node l sink).1 (visitStyle node l sink).2.
Proof. unfold visitNode. simpl. by destruct (visitStyle node l sink). Qed.

Lemma walk_increasing extractValue result template c n :
  (∀ i sink st0, i < n →
     extractValue (default VUndefined (values result !! i)) sink st0
       = Return sink st0) →
  ∀ rest l sink st done todo,
    templates st !! template = Some (mkTemplate c (done ++ todo)) →
    length done + length todo = n →
    partIndex l = length done →
    increasingFrom (index l) todo →
    ∃ l',
      walk (visitNode extractValue result template) rest (l, sink) st
        = Return (l', sink ++ List.filter isStyle rest)
            (set_templates
               (<[template := mkTemplate c (done ++ map (reindexFrom l rest) todo)]>
                  (templates st)) st) ∧
      nodesToRemove l' = nodesToRemove l ++ stylePositions (index l) rest.
Proof.
  intros Hx. induction rest as [|node rest IH];
    intros l sink st done todo Ht Hlen Hk Hinc.
  { exists l. rewrite reindexFrom_nil_map. simpl. rewrite !app_nil_r.
    rewrite list_insert_id by done. by rewrite set_templates_same. }
  rewrite walk_cons, visitNode_pair.
  pose proof (visitStyle_index node l sink) as [Hi1 Hk1].
  pose proof (visitStyle_sink node l sink) as Hs1.
  pose proof (visitStyle_nodesToRemove node l sink) as Hr1.
  assert (∀ q, reindexFrom (visitStyle node l []).1 rest q
               = reindexFrom (visitStyle node l sink).1 rest q) as Hsame.
  { intros q. apply reindexFrom_ext; unfold visitStyle; by destruct (isStyle node). }
  set (l1 := (visitStyle node l sink).1) in *.
  set (sink1 := (visitStyle node l sink).2) in *.
  assert (sink1 ++ List.filter isStyle rest
          = sink ++ List.filter isStyle (node :: rest)) as Hsink.
  { rewrite Hs1. simpl. destruct (isStyle node); simpl;
      by rewrite <- ?app_assoc, ?app_nil_r. }
  assert (nodesToRemove l1 ++ stylePositions (index l1) rest
          = nodesToRemove l ++ stylePositions (index l) (node :: rest)) as Hrm.
  { rewrite Hr1, Hi1. simpl. by rewrite <- app_assoc. }
  assert (map (reindexFrom l (node :: rest)) todo
          = match todo with
            | [] => []
            | p :: more =>
                (if decide (p = index l1)
                 then if decide (index l1 < disableUntil l1)%Z then (-1)%Z
                      else (p + partDelta l1)%Z
                 else reindexFrom l1 rest p)
                :: map (reindexFrom l1 rest) more
            end) as Hmap.
  { destruct todo as [|p more]; [done|]. destruct Hinc as [Hp Hmore].
    change (map (reindexFrom l (node :: rest)) (p :: more))
      with (reindexFrom l (node :: rest) p
            :: map (reindexFrom l (node :: rest)) more).
    f_equal.
    - simpl. rewrite Hsame.
      replace (index (visitStyle node l []).1) with (index l1)
        by (unfold l1, visitStyle; by destruct (isStyle node)).
      replace (disableUntil (visitStyle node l []).1) with (disableUntil l1)
        by (unfold l1, visitStyle; by destruct (isStyle node)).
      replace (partDelta (visitStyle node l []).1) with (partDelta l1)
        by (unfold l1, visitStyle; by destruct (isStyle node)).
      done.
    - rewrite reindexFrom_later.
      + apply Forall_fmap_ext, Forall_forall. intros q _. apply Hsame.
      + apply increasingFrom_above in Hmore.
        eapply Forall_impl; [exact Hmore|]. intros q Hq. cbv beta in Hq.
        destruct (decide (index l + 1 < q)%Z); [done|].
        (* q > p > index l *) lia. }
  rewrite Hmap. clear Hmap.
  unfold visitPart. rewrite (getTemplate_Some _ _ _ Ht).
  cbn [parts]. rewrite Hk1, Hk. rewrite lookup_app_r by lia.
  rewrite Nat.sub_diag.
  destruct todo as [|p more].
  - (* no part left *)
    cbn [lookup list_lookup].
    destruct (IH l1 sink1 st done [] Ht Hlen (eq_trans Hk1 Hk) I) as (l' & Hw & Hn).
    exists l'. by rewrite Hw, Hsink, Hn, Hrm.
  - destruct Hinc as [Hp Hmore]. cbn [lookup list_lookup].
    destruct (decide (p = index l1)) as [->|Hne].
    + (* the part under the cursor sits on this node *)
      set (new := if decide (index l1 < disableUntil l1)%Z then (-1)%Z
                  else (index l1 + partDelta l1)%Z).
      set (st1 := set_templates
                    (<[template := mkTemplate c (done ++ new :: more)]>
                       (templates st)) st).
      assert ((if decide (index l1 < disableUntil l1)%Z
               then setPartIndex template (length done) (-1) st
               else setPartIndex template (length done)
                      (index l1 + partDelta l1) st) = st1) as Hst1.
      { unfold st1, new, setPartIndex, getTemplate. rewrite Ht. simpl.
        rewrite !insert_app_r_alt by lia. rewrite Nat.sub_diag. simpl.
        by destruct (decide _). }
      rewrite Hst1, Hx, content_eqb_refl by (simpl in Hlen; lia).
      set (l2 := mkLocals _ _ _ _ _).
      destruct (IH l2 sink1 st1 (done ++ [new]) more) as (l' & Hw & Hn).
      { unfold st1. simpl.
        rewrite list_lookup_insert_eq by by eapply lookup_lt_Some.
        by rewrite <- app_assoc. }
      { rewrite length_app. simpl in *. lia. }
      { unfold l2. simpl. rewrite length_app. simpl. lia. }
      { done. }
      exists l'. rewrite Hw, Hsink, Hn. split; [|exact Hrm].
      assert (map (reindexFrom l2 rest) more = map (reindexFrom l1 rest) more)
        as -> by (apply Forall_fmap_ext, Forall_forall; intros q _;
                  by apply reindexFrom_ext).
      f_equal. unfold st1. rewrite set_templates_twice, templates_set_templates.
      by rewrite list_insert_insert_eq, <- app_assoc.
    + (* the part under the cursor sits further on *)
      destruct (IH l1 sink1 st done (p :: more) Ht Hlen (eq_trans Hk1 Hk))
        as (l' & Hw & Hn).
      { split; [lia|done]. }
      exists l'. by rewrite Hw, Hsink, Hn, Hrm.
Qed.

(** The traversal of a template whose parts have increasing indices
    and inert values: the style elements are moved to the style
    template, and every part gets the index [reindexFrom] computes for
    it. *)
Lemma traverseTemplate_increasing fuel templateFactory sink result template st c ps :
  templates st !! template = Some (mkTemplate c ps) →
  increasingFrom (-1) ps →
  (∀ i, i < length ps → inert (default VUndefined (values result !! i))) →
  traverseTemplate
    (fun v s => extractStylesFromValue fuel s templateFactory v)
    sink result template st
  = Return (sink ++ List.filter isStyle (walkerNodes c))
      (set_templates
         (<[template :=
              mkTemplate (removeNodes (stylePositions (-1) (walkerNodes c)) c)
                         (map (reindexFrom initialLocals (walkerNodes c)) ps)]>
            (templates st)) st).
Proof.
  intros Ht Hinc Hinert.
  unfold traverseTemplate, mbind, M_bind, bind, get, modify, mret, M_ret, ret.
  rewrite (getTemplate_Some _ _ _ Ht). cbn [content].
  destruct (walk_increasing
              (fun v s => extractStylesFromValue fuel s templateFactory v)
              result template c (length ps)
              (fun i s st0 Hi => extractStylesFromValue_inert fuel s templateFactory
                                   _ st0 (Hinert i Hi))
              (walkerNodes c) initialLocals sink st [] ps Ht eq_refl eq_refl Hinc)
    as (l' & Hw & Hn).
  rewrite Hw, Hn. cbn [app nodesToRemove initialLocals index].
  f_equal. unfold setContent, getTemplate.
  rewrite templates_set_templates, set_templates_twice.
  rewrite list_lookup_insert_eq by by eapply lookup_lt_Some.
  cbn [default from_option id content parts]. by rewrite list_insert_insert_eq.
Qed.

(** Over nodes that are not style elements, [disableUntil] and
    [partDelta] stay as they are. *)
Lemma reindexFrom_plain pre :
  Forall (fun node => isStyle node = false) pre →
  ∀ l rest p, (index l < p)%Z →
    reindexFrom l (pre ++ rest) p =
      if decide (p ≤ index l + Z.of_nat (length pre))%Z
      then if decide (p < disableUntil l)%Z then (-1)%Z else (p + partDelta l)%Z
      else reindexFrom (advance l (length pre)) rest p.
Proof.
  induction 1 as [|node pre Hnode _ IH]; intros l rest p Hp.
  { simpl. case_decide; [lia|]. apply reindexFrom_ext; simpl; lia. }
  simpl. unfold visitStyle. rewrite Hnode. simpl.
  destruct (decide (p = (index l + 1)%Z)) as [->|Hne].
  - repeat case_decide; try lia; done.
  - rewrite IH by (simpl; lia). simpl.
    repeat case_decide; try lia; try done.
    apply reindexFrom_ext; simpl; lia.
Qed.

(** One style element, at position [length pre], among nodes that are
    not: parts before it keep their index, parts on it or on one of the
    positions counted for its children are disabled, parts from
    [disableUntil] on are shifted by what was counted. *)
Lemma reindexFrom_one_style pre style post p :
  Forall (fun node => isStyle node = false) pre →
  Forall (fun node => isStyle node = false) post →
  isStyle style = true →
  (0 ≤ p < Z.of_nat (length (pre ++ style :: post)))%Z →
  reindexFrom initialLocals (pre ++ style :: post) p =
    if decide (p < Z.of_nat (length pre))%Z then p
    else if decide (p < Z.of_nat (length pre) + 1
                        + Z.of_nat (length (childNodesOf style)))%Z
         then (-1)%Z
         else (p - (1 + Z.of_nat (length (childNodesOf style))))%Z.
Proof.
  intros Hpre Hpost Hstyle Hp. rewrite length_app in Hp. simpl in Hp.
  rewrite reindexFrom_plain by (done || simpl; lia). simpl.
  destruct (decide (p < Z.of_nat (length pre))%Z) as [Hlt|Hge].
  { repeat case_decide; lia. }
  case_decide; [lia|].
  unfold visitStyle. rewrite Hstyle. simpl.
  destruct (decide (p = (-1 + Z.of_nat (length pre) + 1)%Z)) as [->|Hne].
  { repeat case_decide; lia. }
  rewrite <- (app_nil_r post). rewrite reindexFrom_plain by (done || simpl; lia).
  simpl. repeat case_decide; lia.
Qed.

Lemma filter_isStyle_plain nodes :
  Forall (fun node => isStyle node = false) nodes → List.filter isStyle nodes = [].
Proof. induction 1 as [|node nodes H _ IH]; [done|]. simpl. by rewrite H. Qed.

Section IncreasingParts.
Variable getTemplateElement : TemplateResult → list Node.
Variable prepareTemplateDom : list Node → string → list Node.
Variable newTemplate : TemplateResult → list Node → Template.
Variable scopeName : string.

Local Abbreviation factory :=
  (shadyTemplateFactory getTemplateElement prepareTemplateDom newTemplate scopeName).
Local Abbreviation templateFor :=
  (templateFor getTemplateElement prepareTemplateDom newTemplate scopeName).

(** The factory returns a reference to [templateFor]. *)
Lemma factory_templateFor result st :
  cacheAllocated st →
  ∃ template st',
    factory result st = Return template st' ∧
    templates st' !! template = Some (templateFor st result) ∧
    cached st' (cacheKey result scopeName) (strings result) = Some template.
Proof.
  intros Ha. unfold templateFor.
  destruct (cached st (cacheKey result scopeName) (strings result)) as [loc|] eqn:E.
  - exists loc, st. split; [by apply shadyTemplateFactory_hit|].
    split; [|done]. unfold getTemplate.
    destruct (lookup_lt_is_Some_2 _ _ (Ha _ _ _ E)) as [t ->]. done.
  - destruct (shadyTemplateFactory_miss getTemplateElement prepareTemplateDom
                newTemplate scopeName result st E)
      as (st' & Hf & _ & _ & _ & Ht & _ & Hc & _).
    exists (length (templates st)), st'. split; [done|]. split; [|done].
    rewrite Ht. by apply list_lookup_middle.
Qed.

(** Extraction from a template whose parts have increasing indices and
    inert values. *)
Lemma extractStylesFromTemplate_increasing fuel sink result st c ps :
  cacheAllocated st →
  templateFor st result = mkTemplate c ps →
  increasingFrom (-1) ps →
  (∀ i, i < length ps → inert (default VUndefined (values result !! i))) →
  ∃ template st',
    extractStylesFromTemplate fuel sink factory result st
      = Return (sink ++ List.filter isStyle (walkerNodes c)) st' ∧
    cached st' (cacheKey result scopeName) (strings result) = Some template ∧
    getTemplate st' template =
      mkTemplate (removeNodes (stylePositions (-1) (walkerNodes c)) c)
                 (map (reindexFrom initialLocals (walkerNodes c)) ps).
Proof.
  intros Ha Hfor Hinc Hinert.
  destruct (factory_templateFor result st Ha) as (loc & st1 & Hf & Ht & Hc).
  rewrite Hfor in Ht.
  unfold extractStylesFromTemplate, extractStylesFromTemplateWith.
  unfold mbind at 1, M_bind at 1, bind at 1. rewrite Hf.
  rewrite (traverseTemplate_increasing fuel factory sink result loc st1 c ps Ht Hinc Hinert).
  eexists loc, _. split; [reflexivity|]. split; [exact Hc|].
  unfold getTemplate. rewrite templates_set_templates.
  by rewrite list_lookup_insert_eq by by eapply lookup_lt_Some.
Qed.

(** X5.  Extraction from a template with one style element, parts of
    increasing indices within the template, and inert values: the
    style element is what is added to the style template; a part
    before the style element keeps its index, a part on the style
    element or on a position counted for its children is disabled, and
    a part further on, starting with the position right after those,
    is shifted by one plus the number of children. *)
Theorem extraction_around_one_style
    fuel sink result st c ps pre style post :
  cacheAllocated st →
  templateFor st result = mkTemplate c ps →
  walkerNodes c = pre ++ style :: post →
  Forall (fun node => isStyle node = false) pre →
  Forall (fun node => isStyle node = false) post →
  isStyle style = true →
  increasingFrom (-1) ps →
  Forall (fun p => (p < Z.of_nat (length (walkerNodes c)))%Z) ps →
  (∀ i, i < length ps → inert (default VUndefined (values result !! i))) →
  ∃ template st',
    extractStylesFromTemplate fuel sink factory result st
      = Return (sink ++ [style]) st' ∧
    cached st' (cacheKey result scopeName) (strings result) = Some template ∧
    length (parts (getTemplate st' template)) = length ps ∧
    ∀ i p, ps !! i = Some p →
      parts (getTemplate st' template) !! i =
        Some (if decide (p < Z.of_nat (length pre))%Z then p
              else if decide (p < Z.of_nat (length pre) + 1
                                  + Z.of_nat (length (childNodesOf style)))%Z
                   then (-1)%Z
                   else (p - (1 + Z.of_nat (length (childNodesOf style))))%Z).
Proof.
  intros Ha Hfor Hnodes Hpre Hpost Hstyle Hinc Hrange Hinert.
  destruct (extractStylesFromTemplate_increasing fuel sink result st c ps
              Ha Hfor Hinc Hinert) as (loc & st' & Hx & Hc & Hget).
  exists loc, st'. rewrite Hx, Hget, Hnodes. cbn [parts].
  split; [|split; [done|split; [by rewrite length_map|]]].
  - rewrite List.filter_app. simpl. rewrite Hstyle.
    by rewrite !filter_isStyle_plain by done.
  - intros i p Hp. rewrite list_lookup_fmap, Hp. simpl. f_equal.
    apply reindexFrom_one_style; try done.
    rewrite <- Hnodes. split.
    + apply increasingFrom_above in Hinc.
      rewrite Forall_forall in Hinc.
      specialize (Hinc p (list_elem_of_lookup_2 _ _ _ Hp)). lia.
    + rewrite Forall_forall in Hrange.
      exact (Hrange p (list_elem_of_lookup_2 _ _ _ Hp)).
Qed.

End IncreasingParts.

(** ** Template identity *)

Global Instance stable_reflexive : Reflexive stable.
Proof. by intros st. Qed.

Global Instance stable_transitive : Transitive stable.
Proof. intros st1 st2 st3 [H1 A1] [H2 A2]. split; auto. Qed.

Lemma stable_same_cache st st' :
  templateCaches st' = templateCaches st →
  length (templates st') = length (templates st) →
  stable st st'.
Proof.
  intros Hc Hl. unfold stable, cacheAllocated, cached. rewrite Hc, Hl. auto.
Qed.

Lemma respects_withShadyCSS {A} (R : State → State → Prop) `{!Reflexive R}
    (k : ShadyCSS → M A) :
  (∀ shady, respects R (k shady)) → respects R (withShadyCSS k).
Proof.
  intros Hk st st'. unfold withShadyCSS.
  destruct (window_ShadyCSS st); [apply Hk|]. intros [= <-]. reflexivity.
Qed.

Section Identity.

Variable getTemplateElement : TemplateResult → list Node.

Variable prepareTemplateDom : list Node → string → list Node.

Variable newTemplate : TemplateResult → list Node → Template.

Variable prepareTemplateStyles : list Node → string → option (list Node).

Local Abbreviation factory :=
  (shadyTemplateFactory getTemplateElement prepareTemplateDom newTemplate).

Local Abbreviation shadyRender :=
  (render getTemplateElement prepareTemplateDom newTemplate prepareTemplateStyles).

Local Abbreviation anyCall :=
  (anyCall getTemplateElement prepareTemplateDom newTemplate
     prepareTemplateStyles).

Lemma factory_stable scopeName result : respects stable (factory scopeName result).
Proof.
  intros st st'.
  destruct (cached st (cacheKey result scopeName) (strings result)) as [loc|] eqn:E.
  - rewrite (shadyTemplateFactory_hit _ _ _ _ _ _ _ E). intros [= <-]. reflexivity.
  - destruct (shadyTemplateFactory_miss getTemplateElement prepareTemplateDom
                newTemplate scopeName result st E)
      as (s1 & Hf & _ & _ & _ & Ht & _ & Hc & Ho).
    rewrite Hf. intros [= <-]. split.
    + intros key s loc Hl. rewrite Ho; [done|]. intros [= -> ->]. congruence.
    + intros Ha key s loc Hl. rewrite Ht, length_app. simpl.
      destruct (decide ((key, s) = (cacheKey result scopeName, strings result)))
        as [[= -> ->]|Hne].
      * rewrite Hc in Hl. injection Hl as <-. lia.
      * rewrite Ho in Hl by done. apply Ha in Hl. lia.
Qed.

Lemma insertStyleInTemplate_stable template style :
  respects stable (insertStyleInTemplate template style).
Proof.
  intros st st' [= <-]. apply stable_same_cache; [done|]. simpl.
  by rewrite length_insert.
Qed.

Lemma extract_stable fuel sink scopeName result :
  respects stable (extractStylesFromTemplate fuel sink (factory scopeName) result).
Proof.
  apply respects_extractStylesFromTemplate; try apply _.
  - intros. apply stable_same_cache; [done|]. simpl. by rewrite length_insert.
  - intros. apply stable_same_cache; [done|]. simpl. by rewrite length_insert.
  - intros. apply factory_stable.
Qed.

Lemma render_stable fuel result container scopeName :
  respects stable (shadyRender fuel result container scopeName).
Proof.
  intros st st'.
  destruct (needsStyleFixup st) eqn:Hn;
    [destruct (hostForNode container) as [host|] eqn:Hh|].
  - destruct (decide (scopeName ∈ shadyRenderSet st)) as [Hs|Hs].
    + rewrite (render_gated _ _ _ _ _ _ _ _ host) by done.
      destruct (window_ShadyCSS st); intros [= <-]; [|reflexivity].
      by apply stable_same_cache.
    + rewrite (render_first _ _ _ _ _ _ _ _ host) by done.
      pose proof (extract_stable fuel [] scopeName result
                    (set_shadyRenderSet ({[scopeName]} ∪ shadyRenderSet st) st)) as Hx.
      destruct (extractStylesFromTemplate _ _ _ _ _) as [sink st2|e st2| |];
        try done.
      * intros Ha. transitivity st2.
        { etransitivity; [|by apply Hx]. by apply stable_same_cache. }
        revert Ha. apply (respects_bind stable).
        { apply respects_withShadyCSS; [apply _|]. intros _ s s'.
          destruct (prepareTemplateStyles sink scopeName);
            intros [= <-]; by apply stable_same_cache. }
        intros sink'. apply (respects_bind stable).
        { apply respects_withShadyCSS; [apply _|]. intros shady.
          destruct (nativeShadow shady); [|apply respects_ret; apply _].
          destruct (querySelectorStyle sink'); [|apply respects_ret; apply _].
          apply (respects_bind stable); [apply factory_stable|].
          intros. apply insertStyleInTemplate_stable. }
        intros _. apply (respects_bind stable).
        { apply respects_withShadyCSS; [apply _|]. intros _.
          apply respects_modify. intros. by apply stable_same_cache. }
        intros _. apply respects_modify. intros. by apply stable_same_cache.
      * intros [= <-]. etransitivity; [|by apply Hx]. by apply stable_same_cache.
  - rewrite render_delegates by auto. intros [= <-]. by apply stable_same_cache.
  - rewrite render_delegates by auto. intros [= <-]. by apply stable_same_cache.
Qed.

Lemma anyCall_stable st st' : anyCall st st' → stable st st'.
Proof.
  intros [scope r s loc s' H|fuel sink scope r s s' H|loc style s s' H
         |fuel r c scope s s' H|w s].
  - eapply factory_stable. by rewrite H.
  - by eapply extract_stable.
  - eapply insertStyleInTemplate_stable. by rewrite H.
  - by eapply render_stable.
  - by apply stable_same_cache.
Qed.

(** C9.  The reference the factory of a scope returns for a template
    result is the one it returns on every later call, for that scope,
    with a result of the same type and the same strings array, whatever
    the module has been doing in between: the reference points to an
    allocated template, and the later call changes nothing, so that it
    hands out the template as it then is, with the changes made to it
    in place since. *)
Theorem factory_returns_same_template
    scopeName result1 result2 st template st1 st2 :
  cacheAllocated st →
  type result1 = type result2 →
  strings result1 = strings result2 →
  factory scopeName result1 st = Return template st1 →
  rtc anyCall st1 st2 →
  is_Some (templates st2 !! template) ∧
  factory scopeName result2 st2 = Return template st2.
Proof.
  intros Ha Ht Hs Hf Hcalls.
  assert (stable st st1) as [_ A1] by (eapply factory_stable; by rewrite Hf).
  assert (stable st1 st2) as [C2 A2].
  { clear Hf A1. induction Hcalls as [|s1 s2 s3 Hstep _ IH]; [reflexivity|].
    etransitivity; [by apply anyCall_stable|done]. }
  apply shadyTemplateFactory_cached in Hf. apply C2 in Hf.
  split.
  - apply lookup_lt_is_Some. by eapply (A2 (A1 Ha)).
  - apply shadyTemplateFactory_hit. unfold cacheKey in *. by rewrite <- Ht, <- Hs.
Qed.

End Identity.

(** * Extraction and reinjection *)

(** C2 (the code differs).  [extractStylesFromValue] on the values that
    are neither template results nor sequences: strings, numbers,
    booleans and objects without an iterator are skipped, the state and
    the style template untouched; [null] and [undefined] make the
    sequence test read [value[Symbol.iterator]] and throw a TypeError. *)
Theorem extractStylesFromValue_on_scalars
    fuel styleTemplate templateFactory st s n b :
  extractStylesFromValue fuel styleTemplate templateFactory (VString s) st
    = Return styleTemplate st ∧
  extractStylesFromValue fuel styleTemplate templateFactory (VNumber n) st
    = Return styleTemplate st ∧
  extractStylesFromValue fuel styleTemplate templateFactory (VBoolean b) st
    = Return styleTemplate st ∧
  extractStylesFromValue fuel styleTemplate templateFactory VObject st
    = Return styleTemplate st ∧
  (∃ message,
     extractStylesFromValue fuel styleTemplate templateFactory VNull st
       = Throw (TypeError message) st) ∧
  (∃ message,
     extractStylesFromValue fuel styleTemplate templateFactory VUndefined st
       = Throw (TypeError message) st).
Proof. destruct fuel; repeat split; try done; by eexists. Qed.

(** The first render of [<p>${null}</p>] into a shadow root throws. *)
Example render_null_value_throws :
  ∃ message st',
    Examples.exampleRender 1 Examples.nullParagraph Examples.shadowRoot "x-foo"
      (loadModule Examples.shadyWindow) = Throw (TypeError message) st'.
Proof. eexists _, _. vm_compute. reflexivity. Qed.

(** C3 (the code differs).  Extraction from
    [<style>p{}</style><div a=${x} b=${y}></div>]: one style element, of
    one child, before both parts, which sit on the [div] at position 2.
    The first part is shifted to 0; the second part, which shares its
    index, is left at 2. *)
Theorem extraction_skips_second_part_of_a_node :
  ∃ st',
    extractStylesFromTemplate 0 [] (Examples.exampleFactory "x-foo")
      Examples.twoAttributes (loadModule Examples.shadyWindow)
      = Return [Element "style" [Text "p{}"]] st' ∧
    content (getTemplate st' 0) = [Element "div" []] ∧
    parts (getTemplate st' 0) = [0; 2]%Z.
Proof. eexists. split; [vm_compute; reflexivity|]. by vm_compute. Qed.

(** C4 (the code differs).  Extraction from
    [<div a=${x} b=${y}><style>${css}</style></div>]: the style element
    is at position 1 and has two children, so positions 1 to 3 are
    being removed; the third part has index 2.  The cursor is stuck on
    the second part of the [div], and the third part keeps index 2. *)
Theorem extraction_leaves_part_inside_style_enabled :
  ∃ st',
    extractStylesFromTemplate 0 [] (Examples.exampleFactory "x-foo")
      Examples.styleInDiv (loadModule Examples.shadyWindow)
      = Return [Element "style" [Comment ""; Comment ""]] st' ∧
    content (getTemplate st' 0) = [Element "div" []] ∧
    parts (getTemplate st' 0) = [0; 0; 2]%Z.
Proof. eexists. split; [vm_compute; reflexivity|]. by vm_compute. Qed.


(** [<style>p{color:red}</style><p>${x}</p>]: the style element comes
    first and has one child; the part at position 3 ends at 1. *)
Lemma extraction_around_one_style_witness :
  ∃ template st',
    extractStylesFromTemplate 0 [] (Examples.exampleFactory "x-foo")
      Examples.styledParagraph (loadModule Examples.shadyWindow)
      = Return [Element "style" [Text "p{color:red}"]] st' ∧
    cached st' (cacheKey Examples.styledParagraph "x-foo")
           (strings Examples.styledParagraph) = Some template ∧
    parts (getTemplate st' template) !! 0 = Some 1%Z.
Proof.
  destruct (extraction_around_one_style
              Examples.exampleGetTemplateElement Examples.examplePrepareTemplateDom
              Examples.exampleNewTemplate "x-foo" 0 [] Examples.styledParagraph
              (loadModule Examples.shadyWindow)
              [Element "style" [Text "p{color:red}"];
               Element "p" [Comment ""; Comment ""]]
              [3%Z] [] (Element "style" [Text "p{color:red}"])
              [Text "p{color:red}"; Element "p" [Comment ""; Comment ""];
               Comment ""; Comment ""])
    as (template & st' & Hx & Hc & _ & Hp).
  - intros key s loc H. unfold cached in H. simpl in H.
    rewrite lookup_empty in H. discriminate H.
  - reflexivity.
  - reflexivity.
  - constructor.
  - repeat constructor.
  - reflexivity.
  - simpl. split; [lia|done].
  - repeat constructor.
  - intros [|i] Hi; [exact I|simpl in Hi; lia].
  - exists template, st'. split; [exact Hx|]. split; [exact Hc|].
    exact (Hp 0 3%Z eq_refl).
Defined.

(** The loop body, on the node the walker stopped on, when the
    part under the cursor sits on that node ([part.index === index])
    and the position of the node is exactly [disableUntil]: the part is
    not disabled, its index becomes the position plus [partDelta], as
    accumulated so far; the cursor moves to the next part.  The loop
    variables are taken after lines 67-75, where a style element would
    have moved [disableUntil] past its own position.  (The part's value
    is then searched for styles; that search is assumed here to return
    and to leave this template alone.) *)
Lemma visitNode_shifts_part_at_disableUntil
    extractValue result template node l styleTemplate st t :
  templates st !! template = Some t →
  parts t !! partIndex l = Some (index (visitStyle node l styleTemplate).1) →
  disableUntil (visitStyle node l styleTemplate).1
    = index (visitStyle node l styleTemplate).1 →
  (∀ st0, ∃ styleTemplate' st1,
     extractValue (default VUndefined (values result !! partIndex l))
                  styleTemplate st0 = Return styleTemplate' st1 ∧
     templates st1 !! template = templates st0 !! template) →
  ∃ l' styleTemplate' st',
    visitNode extractValue result template node (l, styleTemplate) st
      = Return (l', styleTemplate') st' ∧
    parts (getTemplate st' template) !! partIndex l
      = Some (index (visitStyle node l styleTemplate).1
              + partDelta (visitStyle node l styleTemplate).1)%Z ∧
    partIndex l' = S (partIndex l) ∧
    index l' = (index l + 1)%Z ∧
    disableUntil l' = disableUntil l ∧
    partDelta l' = partDelta l.
Proof.
  intros Ht Hp Hu Hx.
  assert (isStyle node = false) as Hnode.
  { revert Hu. unfold visitStyle. destruct (isStyle node); [|done]. simpl. lia. }
  revert Hp Hu. unfold visitNode, visitStyle. simpl. rewrite Hnode. simpl.
  intros Hp Hu.
  unfold visitPart. simpl.
  unfold getTemplate at 1. rewrite Ht. simpl. rewrite Hp.
  rewrite decide_True by done. rewrite decide_False by lia.
  match goal with |- context [extractValue ?v ?s ?st1] =>
    destruct (Hx st1) as (sink' & st2 & Hv & Hsame); rewrite Hv;
    assert (getTemplate st2 template = getTemplate st1 template) as Hget
      by (unfold getTemplate; by rewrite Hsame)
  end.
  rewrite Hget, content_eqb_refl.
  eexists _, _, _. split; [reflexivity|]. simpl. rewrite Hget.
  repeat split; try done.
  unfold getTemplate, setPartIndex. simpl.
  rewrite list_lookup_insert_eq by by eapply lookup_lt_Some.
  simpl. unfold getTemplate. rewrite Ht. simpl.
  by rewrite list_lookup_insert_eq by by eapply lookup_lt_Some.
Qed.

(** In [<style>a{}</style>${x}] the style element and its text count
    for two positions; the part sits at position 2. *)
Lemma visitNode_shifts_part_example :
  templates Examples.afterStyleCompiled !! 0
    = Some (mkTemplate [Element "style" [Text "a{}"]; Comment ""; Comment ""]
                       [2%Z]) ∧
  index (visitStyle (Comment "") Examples.pastTheStyle
           [Element "style" [Text "a{}"]]).1 = 2%Z ∧
  disableUntil (visitStyle (Comment "") Examples.pastTheStyle
                  [Element "style" [Text "a{}"]]).1 = 2%Z ∧
  partDelta (visitStyle (Comment "") Examples.pastTheStyle
               [Element "style" [Text "a{}"]]).1 = (-2)%Z ∧
  ∃ l' styleTemplate' st',
    visitNode
      (fun v sink => extractStylesFromValue 0 sink (Examples.exampleFactory "x-foo") v)
      Examples.afterStyle 0 (Comment "")
      (Examples.pastTheStyle, [Element "style" [Text "a{}"]])
      Examples.afterStyleCompiled
      = Return (l', styleTemplate') st' ∧
    parts (getTemplate st' 0) !! 0 = Some 0%Z.
Proof.
  split; [reflexivity|]. split; [reflexivity|]. split; [reflexivity|].
  split; [reflexivity|].
  destruct (visitNode_shifts_part_at_disableUntil
              (fun v sink => extractStylesFromValue 0 sink
                               (Examples.exampleFactory "x-foo") v)
              Examples.afterStyle 0 (Comment "") Examples.pastTheStyle
              [Element "style" [Text "a{}"]] Examples.afterStyleCompiled
              (mkTemplate [Element "style" [Text "a{}"]; Comment ""; Comment ""]
                          [2%Z])
              eq_refl eq_refl eq_refl)
    as (l' & sink' & st' & Hv & Hp & _).
  { intros st0. eexists _, _. split; reflexivity. }
  exists l', sink', st'. split; [exact Hv|exact Hp].
Defined.

(** The loop body, when the part under the cursor sits on the
    node the walker stopped on and that node is inside the range being
    removed, that is, it is a style element or is at one of the
    positions counted for the children of the last one: the part is
    disabled, its index becomes -1.  (The search in the part's value is
    assumed to return and to leave this template alone.) *)
Lemma visitNode_disables_part_below_disableUntil
    extractValue result template node l styleTemplate st t :
  templates st !! template = Some t →
  parts t !! partIndex l = Some (index (visitStyle node l styleTemplate).1) →
  (index (visitStyle node l styleTemplate).1
   < disableUntil (visitStyle node l styleTemplate).1)%Z →
  (∀ st0, ∃ styleTemplate' st1,
     extractValue (default VUndefined (values result !! partIndex l))
                  (visitStyle node l styleTemplate).2 st0
       = Return styleTemplate' st1 ∧
     templates st1 !! template = templates st0 !! template) →
  ∃ l' styleTemplate' st',
    visitNode extractValue result template node (l, styleTemplate) st
      = Return (l', styleTemplate') st' ∧
    parts (getTemplate st' template) !! partIndex l = Some (-1)%Z.
Proof.
  intros Ht Hp Hu Hx. rewrite visitNode_pair.
  destruct (visitStyle_index node l styleTemplate) as [Hi Hk].
  unfold visitPart. rewrite (getTemplate_Some _ _ _ Ht), Hk, Hp.
  rewrite decide_True by done. rewrite decide_True by done.
  match goal with |- context [extractValue ?v ?s ?st1] =>
    destruct (Hx st1) as (sink' & st2 & Hv & Hsame); rewrite Hv;
    assert (getTemplate st2 template = getTemplate st1 template) as Hget
      by (unfold getTemplate; by rewrite Hsame)
  end.
  rewrite Hget, content_eqb_refl.
  eexists _, _, _. split; [reflexivity|]. rewrite Hget.
  unfold getTemplate, setPartIndex. simpl.
  rewrite list_lookup_insert_eq by by eapply lookup_lt_Some.
  simpl. unfold getTemplate. rewrite Ht. simpl.
  by rewrite list_lookup_insert_eq by by eapply lookup_lt_Some.
Qed.

(** The whole traversal of [<style>a{}</style>${x}]: the part at
    position 2, the first after the style element and its text, ends
    at 0. *)
Example extraction_shifts_part_after_style :
  ∃ st',
    extractStylesFromTemplate 0 [] (Examples.exampleFactory "x-foo")
      Examples.afterStyle (loadModule Examples.shadyWindow)
      = Return [Element "style" [Text "a{}"]] st' ∧
    content (getTemplate st' 0) = [Comment ""; Comment ""] ∧
    parts (getTemplate st' 0) = [0%Z].
Proof. eexists. split; [vm_compute; reflexivity|]. by vm_compute. Qed.

(** C6.  When the template of a result and the templates of all
    results reachable through its values (nested template results,
    arrays and other sequences) contain no style element, extraction
    changes no template: every template that existed is exactly as it
    was, so every part keeps its index; templates compiled on the way
    are as the compiler built them; and the style template comes back
    as it was given.  With fuel for the nesting of the values the call
    returns or throws (as it does on a [null] value); both ways this
    holds. *)
Theorem extraction_without_styles_changes_nothing
    getTemplateElement prepareTemplateDom newTemplate scopeName
    fuel styleTemplate result st :
  depthResult result ≤ fuel →
  (∀ r, r ∈ reachableResults result →
     styleFree (content (templateFor getTemplateElement prepareTemplateDom
                           newTemplate scopeName st r))) →
  ∃ st' new,
    (extractStylesFromTemplate fuel styleTemplate
       (shadyTemplateFactory getTemplateElement prepareTemplateDom newTemplate
          scopeName) result st = Return styleTemplate st'
     ∨ ∃ e, extractStylesFromTemplate fuel styleTemplate
              (shadyTemplateFactory getTemplateElement prepareTemplateDom
                 newTemplate scopeName) result st = Throw e st') ∧
    templates st' = templates st ++ new ∧
    Forall (fun t => ∃ r, r ∈ reachableResults result ∧
              t = (compile getTemplateElement prepareTemplateDom newTemplate
                     (window_ShadyCSS st) scopeName r).1) new.
Proof.
  intros Hfuel Hfree.
  pose proof (extractStylesFromTemplateWith_styleFree getTemplateElement
    prepareTemplateDom newTemplate scopeName (reachableResults result)
    (fun v sink => extractStylesFromValue fuel sink
       (shadyTemplateFactory getTemplateElement prepareTemplateDom newTemplate
          scopeName) v) styleTemplate result st) as H.
  pose proof (hasFuel_extractStylesFromTemplate _
    (factory_hasFuel getTemplateElement prepareTemplateDom newTemplate scopeName)
    fuel styleTemplate result Hfuel st) as Hf.
  unfold extractStylesFromTemplate in *.
  match type of H with ?A → ?B → ?C → _ =>
    assert A as HA; [|assert B as HB by (by left); specialize (H HA HB Hfree)]
  end.
  { intros i sink st0 Hall. apply extractStylesFromValue_styleFree; [|done].
    intros r Hr. destruct (values result !! i) as [v|] eqn:E; simpl in Hr;
      [|by apply elem_of_nil in Hr].
    right. apply list_elem_of_In, in_flat_map. exists v.
    split; [by eapply list_elem_of_In, list_elem_of_lookup_2|by apply list_elem_of_In]. }
  destruct (extractStylesFromTemplateWith _ _ _ _ st) as [sink' st'|e st'| |];
    try done.
  - destruct H as (-> & (_ & new & Ht & Fn) & _). exists st', new. eauto.
  - destruct H as ((_ & new & Ht & Fn) & _). exists st', new. eauto.
Qed.

(** A list of two paragraphs, each a nested template result of the
    same literal. *)
Lemma extraction_without_styles_witness :
  depthResult Examples.listOfParagraphs ≤ 2 ∧
  (∀ r, r ∈ reachableResults Examples.listOfParagraphs →
     styleFree (content (templateFor Examples.exampleGetTemplateElement
                           Examples.examplePrepareTemplateDom
                           Examples.exampleNewTemplate "x-list"
                           (loadModule Examples.shadyWindow) r))) ∧
  ∃ st' new,
    (extractStylesFromTemplate 2 [] (Examples.exampleFactory "x-list")
       Examples.listOfParagraphs (loadModule Examples.shadyWindow)
       = Return [] st'
     ∨ ∃ e, extractStylesFromTemplate 2 [] (Examples.exampleFactory "x-list")
              Examples.listOfParagraphs (loadModule Examples.shadyWindow)
              = Throw e st') ∧
    templates st' = templates (loadModule Examples.shadyWindow) ++ new ∧
    Forall (fun t => ∃ r, r ∈ reachableResults Examples.listOfParagraphs ∧
              t = (compile Examples.exampleGetTemplateElement
                     Examples.examplePrepareTemplateDom
                     Examples.exampleNewTemplate
                     (window_ShadyCSS (loadModule Examples.shadyWindow))
                     "x-list" r).1) new.
Proof.
  assert (depthResult Examples.listOfParagraphs ≤ 2) as H1
    by (vm_compute; lia).
  assert (∀ r, r ∈ reachableResults Examples.listOfParagraphs →
     styleFree (content (templateFor Examples.exampleGetTemplateElement
                           Examples.examplePrepareTemplateDom
                           Examples.exampleNewTemplate "x-list"
                           (loadModule Examples.shadyWindow) r))) as H2.
  { intros r Hr. unfold reachableResults in Hr. simpl in Hr.
    repeat (apply elem_of_cons in Hr as [->|Hr]);
      [vm_compute; repeat constructor..|by apply elem_of_nil in Hr]. }
  split; [exact H1|]. split; [exact H2|].
  exact (extraction_without_styles_changes_nothing
           Examples.exampleGetTemplateElement Examples.examplePrepareTemplateDom
           Examples.exampleNewTemplate "x-list" 2 [] Examples.listOfParagraphs
           (loadModule Examples.shadyWindow) H1 H2).
Defined.

(** C7.  [insertStyleInTemplate] puts the style element first in the
    template's content and adds one plus the number of its children to
    every part index that is not negative; a part at -1, like every
    negative index, is left as it is; no other template changes. *)
Theorem insertStyleInTemplate_shifts_parts template style st t :
  templates st !! template = Some t →
  ∃ st',
    insertStyleInTemplate template style st = Return tt st' ∧
    content (getTemplate st' template) = style :: content t ∧
    length (parts (getTemplate st' template)) = length (parts t) ∧
    (∀ i p, parts t !! i = Some p →
       ((0 ≤ p)%Z →
        parts (getTemplate st' template) !! i
          = Some (p + (1 + Z.of_nat (length (childNodesOf style))))%Z) ∧
       ((p < 0)%Z → parts (getTemplate st' template) !! i = Some p)) ∧
    (∀ other, other ≠ template → templates st' !! other = templates st !! other).
Proof.
  intros Ht. eexists. split; [reflexivity|].
  unfold getTemplate. simpl. rewrite Ht. simpl.
  rewrite list_lookup_insert_eq by by eapply lookup_lt_Some.
  simpl. split; [done|]. split; [by rewrite length_map|]. split.
  - intros i p Hp. rewrite list_lookup_fmap, Hp. simpl.
    split; intros Hsign; [by rewrite decide_True|by rewrite decide_False by lia].
  - intros other Hne. by rewrite list_lookup_insert_ne.
Qed.

(** Parts at 2, 5 and 9 and a disabled part; a style element of three
    children. *)
Lemma insertStyleInTemplate_witness :
  templates Examples.fourPartsState !! 0 = Some Examples.fourParts ∧
  ∃ st',
    insertStyleInTemplate 0 Examples.threeRules Examples.fourPartsState
      = Return tt st' ∧
    content (getTemplate st' 0) = [Examples.threeRules; Element "p" []] ∧
    parts (getTemplate st' 0) = [6; 9; 13; -1]%Z.
Proof.
  split; [reflexivity|].
  destruct (insertStyleInTemplate_shifts_parts 0 Examples.threeRules
              Examples.fourPartsState Examples.fourParts eq_refl)
    as (st' & Hr & Hc & Hl & Hp & _).
  exists st'. split; [exact Hr|]. split; [exact Hc|].
  injection Hr as <-. reflexivity.
Defined.

(** * The entry point and the factory on the example templates *)

(** C1, as stated, fails.  ShadyCSS is present and reports native
    shadow DOM and no ApplyShim, the container is a shadow root:
    [render] calls the base render alone, with the default factory,
    and never [styleElement].  And the flags at the time of the call do
    not count: had they changed since the module was loaded to say that
    scoping is needed, the call would do just the same. *)
Lemma render_with_native_shadow_skips_styleElement :
  window_ShadyCSS (loadModule Examples.nativeWindow)
    = Some (mkShadyCSS true false) ∧
  hostForNode Examples.shadowRoot = Some "x-foo#1" ∧
  (∃ st',
     Examples.exampleRender 1 Examples.styledParagraph Examples.shadowRoot
       "x-foo" (loadModule Examples.nativeWindow) = Return tt st' ∧
     events st' = [BaseRender Examples.styledParagraph Examples.shadowRoot None] ∧
     StyleElement "x-foo#1" ∉ events st') ∧
  (∃ st',
     Examples.exampleRender 1 Examples.styledParagraph Examples.shadowRoot
       "x-foo"
       (set_window_ShadyCSS Examples.shadyWindow
          (loadModule Examples.nativeWindow)) = Return tt st' ∧
     window_ShadyCSS st' = Some (mkShadyCSS false false) ∧
     events st' = [BaseRender Examples.styledParagraph Examples.shadowRoot None]).
Proof.
  split; [reflexivity|]. split; [reflexivity|]. split.
  - eexists. split; [vm_compute; reflexivity|]. split; [reflexivity|].
    simpl. intros [H|H%elem_of_nil]%elem_of_cons; [discriminate H|done].
  - eexists. split; [vm_compute; reflexivity|]. split; reflexivity.
Qed.


(** The module is loaded with ShadyCSS in use; by the time of the
    first render the polyfill reports native shadow DOM.  The constant
    is still true and the host is styled. *)
Lemma render_styles_host_witness :
  runs Examples.exampleGetTemplateElement Examples.examplePrepareTemplateDom
       Examples.exampleNewTemplate Examples.examplePrepareTemplateStyles
       (loadModule Examples.shadyWindow) Examples.flagsChanged ∧
  Examples.exampleRender 1 Examples.styledParagraph Examples.shadowRoot "x-foo"
    Examples.flagsChanged = Return tt Examples.renderedAfterChange ∧
  needsStyleFixup Examples.flagsChanged = true ∧
  ∃ evs,
    events Examples.renderedAfterChange
      = events Examples.flagsChanged ++ evs ++
          [StyleElement "x-foo#1";
           BaseRender Examples.styledParagraph Examples.shadowRoot (Some "x-foo")] ∧
    Forall isPreparation evs.
Proof.
  assert (runs Examples.exampleGetTemplateElement Examples.examplePrepareTemplateDom
            Examples.exampleNewTemplate Examples.examplePrepareTemplateStyles
            (loadModule Examples.shadyWindow) Examples.flagsChanged) as Hruns.
  { apply rtc_once. apply step_window. }
  assert (Examples.exampleRender 1 Examples.styledParagraph Examples.shadowRoot
            "x-foo" Examples.flagsChanged = Return tt Examples.renderedAfterChange)
    as Hr by (vm_compute; reflexivity).
  split; [exact Hruns|]. split; [exact Hr|].
  exact (render_styles_host_when_fixup_needed
           Examples.exampleGetTemplateElement Examples.examplePrepareTemplateDom
           Examples.exampleNewTemplate Examples.examplePrepareTemplateStyles
           Examples.shadyWindow Examples.flagsChanged 1 Examples.styledParagraph
           Examples.shadowRoot "x-foo" Examples.renderedAfterChange Hruns Hr).
Defined.


(** The factory is called for a template, a style element is put back
    into that template, and the factory is called again with another
    result of the same literal: same reference, and the template has
    the style element in it. *)
Lemma factory_returns_same_template_witness :
  cacheAllocated (loadModule Examples.nativeWindow) ∧
  type Examples.styledParagraph
    = type (mkTemplateResult "html" 2 [VString "bye"]) ∧
  strings Examples.styledParagraph
    = strings (mkTemplateResult "html" 2 [VString "bye"]) ∧
  Examples.exampleFactory "x-foo" Examples.styledParagraph
    (loadModule Examples.nativeWindow) = Return 0 Examples.compiledOnce ∧
  Examples.exampleFactory "x-foo" (mkTemplateResult "html" 2 [VString "bye"])
    Examples.styleReinjected = Return 0 Examples.styleReinjected ∧
  content (getTemplate Examples.styleReinjected 0)
    = [Examples.threeRules; Element "style" [Text "p{color:red}"];
       Element "p" [Comment ""; Comment ""]].
Proof.
  assert (cacheAllocated (loadModule Examples.nativeWindow)) as Ha.
  { intros key s loc H. unfold cached in H. simpl in H.
    rewrite lookup_empty in H. discriminate H. }
  assert (Examples.exampleFactory "x-foo" Examples.styledParagraph
            (loadModule Examples.nativeWindow) = Return 0 Examples.compiledOnce)
    as Hf by (vm_compute; reflexivity).
  split; [exact Ha|]. split; [reflexivity|]. split; [reflexivity|].
  split; [exact Hf|]. split; [|vm_compute; reflexivity].
  refine (proj2 (factory_returns_same_template
           Examples.exampleGetTemplateElement Examples.examplePrepareTemplateDom
           Examples.exampleNewTemplate Examples.examplePrepareTemplateStyles
           "x-foo" Examples.styledParagraph (mkTemplateResult "html" 2 [VString "bye"])
           (loadModule Examples.nativeWindow) 0 Examples.compiledOnce
           Examples.styleReinjected Ha eq_refl eq_refl Hf _)).
  apply rtc_once. apply call_insertStyle with (template := 0) (style := Examples.threeRules).
  vm_compute. reflexivity.
Defined.

(** The style-processing hook raises during the first render; the
    second render for the scope does not call it again. *)
Lemma render_gate_marked_witness :
  needsStyleFixup (loadModule Examples.shadyWindow) = true ∧
  hostForNode Examples.shadowRoot = Some "x-foo#1" ∧
  ("x-foo" ∉ shadyRenderSet (loadModule Examples.shadyWindow)) ∧
  Examples.failingRender 1 Examples.styledParagraph Examples.shadowRoot "x-foo"
    (loadModule Examples.shadyWindow) = Throw HookError Examples.failedOnce ∧
  "x-foo" ∈ shadyRenderSet Examples.failedOnce ∧
  Examples.failingRender 1 Examples.styledParagraph Examples.shadowRoot "x-foo"
    Examples.failedOnce
    = Return tt
        (emit (BaseRender Examples.styledParagraph Examples.shadowRoot (Some "x-foo"))
           (emit (StyleElement "x-foo#1") Examples.failedOnce)).
Proof.
  assert ("x-foo" ∉ shadyRenderSet (loadModule Examples.shadyWindow)) as Hnot
    by (apply not_elem_of_empty).
  assert (Examples.failingRender 1 Examples.styledParagraph Examples.shadowRoot
            "x-foo" (loadModule Examples.shadyWindow)
          = Throw HookError Examples.failedOnce) as Hr by (vm_compute; reflexivity).
  destruct (render_gate_marked_before_extraction
              Examples.exampleGetTemplateElement Examples.examplePrepareTemplateDom
              Examples.exampleNewTemplate Examples.failingPrepareTemplateStyles
              1 Examples.styledParagraph Examples.shadowRoot "x-foo" "x-foo#1"
              HookError (loadModule Examples.shadyWindow) Examples.failedOnce
              eq_refl eq_refl Hnot Hr)
    as (_ & Hin & Hlater).
  destruct (Hlater Examples.failedOnce (rtc_refl _ _)) as (_ & Hcall).
  split; [reflexivity|]. split; [reflexivity|]. split; [exact Hnot|].
  split; [exact Hr|]. split; [exact Hin|].
  exact (Hcall 1 Examples.styledParagraph Examples.shadowRoot "x-foo#1" eq_refl).
Defined.

(** * What extraction does to any template *)

(** ** The content of the template being traversed *)

Lemma content_setPartIndex loc i v st loc' :
  content (getTemplate (setPartIndex loc i v st) loc') = content (getTemplate st loc').
Proof.
  unfold setPartIndex, getTemplate. simpl.
  destruct (decide (loc' = loc)) as [->|Hne].
  - destruct (templates st !! loc) as [t|] eqn:E; simpl.
    + by rewrite list_lookup_insert_eq by by eapply lookup_lt_Some.
    + rewrite list_insert_ge by by apply lookup_ge_None. by rewrite E.
  - by rewrite list_lookup_insert_ne.
Qed.

Lemma content_setContent loc c st :
  content (getTemplate (setContent loc c st) loc) =
    if decide (loc < length (templates st)) then c else [].
Proof.
  unfold setContent, getTemplate. simpl. case_decide.
  - by rewrite list_lookup_insert_eq.
  - rewrite list_insert_ge by lia. by rewrite (proj2 (lookup_ge_None _ _)) by lia.
Qed.

Lemma getTemplate_emit e st loc : getTemplate (emit e st) loc = getTemplate st loc.
Proof. done. Qed.

Lemma loadModule_cacheAllocated w : cacheAllocated (loadModule w).
Proof.
  intros key s loc H. unfold cached in H. simpl in H. by rewrite lookup_empty in H.
Qed.

(** The loop over a template whose values are inert, whatever the
    indices of its parts: no search in a value touches the tree, every
    style element is cloned into the style template and queued, and
    parts only get other indices. *)
Lemma walk_inert extractValue result template c n :
  (∀ i sink st0, i < n →
     extractValue (default VUndefined (values result !! i)) sink st0
       = Return sink st0) →
  ∀ rest l sink st ps,
    templates st !! template = Some (mkTemplate c ps) →
    length ps = n →
    ∃ l' ps',
      walk (visitNode extractValue result template) rest (l, sink) st
        = Return (l', sink ++ List.filter isStyle rest)
            (set_templates (<[template := mkTemplate c ps']> (templates st)) st) ∧
      length ps' = n ∧
      nodesToRemove l' = nodesToRemove l ++ stylePositions (index l) rest.
Proof.
  intros Hx. induction rest as [|node rest IH]; intros l sink st ps Ht Hlen.
  { exists l, ps. simpl. rewrite !app_nil_r.
    rewrite list_insert_id by done. by rewrite set_templates_same. }
  rewrite walk_cons, visitNode_pair.
  pose proof (visitStyle_index node l sink) as [Hi1 Hk1].
  pose proof (visitStyle_sink node l sink) as Hs1.
  pose proof (visitStyle_nodesToRemove node l sink) as Hr1.
  set (l1 := (visitStyle node l sink).1) in *.
  set (sink1 := (visitStyle node l sink).2) in *.
  assert (sink1 ++ List.filter isStyle rest
          = sink ++ List.filter isStyle (node :: rest)) as Hsink.
  { rewrite Hs1. simpl. destruct (isStyle node); simpl;
      by rewrite <- ?app_assoc, ?app_nil_r. }
  assert (nodesToRemove l1 ++ stylePositions (index l1) rest
          = nodesToRemove l ++ stylePositions (index l) (node :: rest)) as Hrm.
  { rewrite Hr1, Hi1. simpl. by rewrite <- app_assoc. }
  unfold visitPart. rewrite (getTemplate_Some _ _ _ Ht). cbn [parts].
  destruct (ps !! partIndex l1) as [q|] eqn:Eq;
    [destruct (decide (q = index l1)) as [->|Hne]|].
  - set (new := if decide (index l1 < disableUntil l1)%Z then (-1)%Z
                else (index l1 + partDelta l1)%Z).
    set (st1 := set_templates
                  (<[template := mkTemplate c (<[partIndex l1 := new]> ps)]>
                     (templates st)) st).
    assert ((if decide (index l1 < disableUntil l1)%Z
             then setPartIndex template (partIndex l1) (-1) st
             else setPartIndex template (partIndex l1)
                    (index l1 + partDelta l1) st) = st1) as Hst1.
    { unfold st1, new, setPartIndex, getTemplate. rewrite Ht. simpl.
      by destruct (decide _). }
    rewrite Hst1, Hx, content_eqb_refl
      by (apply lookup_lt_Some in Eq; lia).
    set (l2 := mkLocals _ _ _ _ _).
    destruct (IH l2 sink1 st1 (<[partIndex l1 := new]> ps)) as (l' & ps' & Hw & Hl & Hn).
    { unfold st1. simpl. by rewrite list_lookup_insert_eq by by eapply lookup_lt_Some. }
    { by rewrite length_insert. }
    exists l', ps'. rewrite Hw, Hsink, Hn. split; [|split; [done|exact Hrm]].
    f_equal. unfold st1. rewrite set_templates_twice, templates_set_templates.
    by rewrite list_insert_insert_eq.
  - destruct (IH l1 sink1 st ps Ht Hlen) as (l' & ps' & Hw & Hl & Hn).
    exists l', ps'. by rewrite Hw, Hsink, Hn, Hrm.
  - destruct (IH l1 sink1 st ps Ht Hlen) as (l' & ps' & Hw & Hl & Hn).
    exists l', ps'. by rewrite Hw, Hsink, Hn, Hrm.
Qed.

Lemma traverseTemplate_inert fuel templateFactory sink result template st c ps :
  templates st !! template = Some (mkTemplate c ps) →
  (∀ i, i < length ps → inert (default VUndefined (values result !! i))) →
  ∃ ps',
    traverseTemplate
      (fun v s => extractStylesFromValue fuel s templateFactory v)
      sink result template st
    = Return (sink ++ List.filter isStyle (walkerNodes c))
        (set_templates
           (<[template := mkTemplate (contentWithoutStyles c) ps']> (templates st))
           st) ∧
    length ps' = length ps.
Proof.
  intros Ht Hinert.
  unfold traverseTemplate, mbind, M_bind, bind, get, modify, mret, M_ret, ret.
  rewrite (getTemplate_Some _ _ _ Ht). cbn [content].
  destruct (walk_inert
              (fun v s => extractStylesFromValue fuel s templateFactory v)
              result template c (length ps)
              (fun i s st0 Hi => extractStylesFromValue_inert fuel s templateFactory
                                   _ st0 (Hinert i Hi))
              (walkerNodes c) initialLocals sink st ps Ht eq_refl)
    as (l' & ps' & Hw & Hl & Hn).
  exists ps'. split; [|done].
  rewrite Hw, Hn. cbn [app nodesToRemove initialLocals index].
  f_equal. unfold setContent, getTemplate.
  rewrite templates_set_templates, set_templates_twice.
  rewrite list_lookup_insert_eq by by eapply lookup_lt_Some.
  cbn [default from_option id content parts].
  by rewrite list_insert_insert_eq, removeNodes_stylePositions.
Qed.

Section ExtractedContent.

Variable getTemplateElement : TemplateResult → list Node.

Variable prepareTemplateDom : list Node → string → list Node.

Variable newTemplate : TemplateResult → list Node → Template.

Variable scopeName : string.

Local Abbreviation factory :=
  (shadyTemplateFactory getTemplateElement prepareTemplateDom newTemplate scopeName).
Local Abbreviation templateFor :=
  (templateFor getTemplateElement prepareTemplateDom newTemplate scopeName).

(** Extraction from a template whose values are inert. *)
Lemma extractStylesFromTemplate_inert fuel sink result st c ps :
  cacheAllocated st →
  templateFor st result = mkTemplate c ps →
  (∀ i, i < length ps → inert (default VUndefined (values result !! i))) →
  ∃ template st' ps',
    extractStylesFromTemplate fuel sink factory result st
      = Return (sink ++ List.filter isStyle (walkerNodes c)) st' ∧
    cached st' (cacheKey result scopeName) (strings result) = Some template ∧
    template < length (templates st') ∧
    getTemplate st' template = mkTemplate (contentWithoutStyles c) ps' ∧
    length ps' = length ps.
Proof.
  intros Ha Hfor Hinert.
  destruct (factory_templateFor getTemplateElement prepareTemplateDom newTemplate
              scopeName result st Ha) as (loc & st1 & Hf & Ht & Hc).
  rewrite Hfor in Ht.
  unfold extractStylesFromTemplate, extractStylesFromTemplateWith.
  unfold mbind at 1, M_bind at 1, bind at 1. rewrite Hf.
  destruct (traverseTemplate_inert fuel factory sink result loc st1 c ps Ht Hinert)
    as (ps' & Hx & Hl).
  rewrite Hx. eexists loc, _, ps'. split; [reflexivity|]. split; [exact Hc|].
  apply lookup_lt_Some in Ht.
  split; [by rewrite templates_set_templates, length_insert|].
  split; [|done]. unfold getTemplate. rewrite templates_set_templates.
  by rewrite list_lookup_insert_eq.
Qed.

(** X3.  Extraction from a template whose values are inert (strings,
    numbers, booleans, plain objects), whatever the indices of its
    parts are, increasing or not, shared, or beyond the last node: the
    call returns; the style template has gained the style elements of
    the template, all of them, in document order; the template holds
    what it held when the factory handed it out without the style
    elements and what was below them, nothing else is missing, and no
    style element is left in it; it has as many parts as before.  The
    style elements are queued on the way (lines 69-75) and removed
    after the loop (line 88), independently of the cursor. *)
Theorem extraction_removes_exactly_the_styles fuel sink result st c ps :
  cacheAllocated st →
  templateFor st result = mkTemplate c ps →
  (∀ i, i < length ps → inert (default VUndefined (values result !! i))) →
  ∃ template st',
    extractStylesFromTemplate fuel sink factory result st
      = Return (sink ++ List.filter isStyle (walkerNodes c)) st' ∧
    cached st' (cacheKey result scopeName) (strings result) = Some template ∧
    content (getTemplate st' template) = contentWithoutStyles c ∧
    styleFree (content (getTemplate st' template)) ∧
    length (parts (getTemplate st' template)) = length ps.
Proof.
  intros Ha Hfor Hinert.
  destruct (extractStylesFromTemplate_inert fuel sink result st c ps Ha Hfor Hinert)
    as (loc & st' & ps' & Hx & Hc & _ & Hget & Hl).
  exists loc, st'. rewrite Hget. cbn [content parts].
  repeat split; try done. apply styleFree_contentWithoutStyles.
Qed.

End ExtractedContent.

(** [<style>p{}</style><div a=${x} b=${y}></div>], whose two parts sit
    on one node: the style element is gone from the template all the
    same. *)
Lemma extraction_removes_styles_witness :
  cacheAllocated (loadModule Examples.shadyWindow) ∧
  templateFor Examples.exampleGetTemplateElement Examples.examplePrepareTemplateDom
    Examples.exampleNewTemplate "x-foo" (loadModule Examples.shadyWindow)
    Examples.twoAttributes
    = mkTemplate [Element "style" [Text "p{}"]; Element "div" []] [2%Z; 2%Z] ∧
  ∃ template st',
    extractStylesFromTemplate 0 [] (Examples.exampleFactory "x-foo")
      Examples.twoAttributes (loadModule Examples.shadyWindow)
      = Return [Element "style" [Text "p{}"]] st' ∧
    cached st' (cacheKey Examples.twoAttributes "x-foo")
           (strings Examples.twoAttributes) = Some template ∧
    content (getTemplate st' template) = [Element "div" []] ∧
    styleFree (content (getTemplate st' template)) ∧
    length (parts (getTemplate st' template)) = 2.
Proof.
  split; [apply loadModule_cacheAllocated|]. split; [reflexivity|].
  refine (extraction_removes_exactly_the_styles
            Examples.exampleGetTemplateElement Examples.examplePrepareTemplateDom
            Examples.exampleNewTemplate "x-foo" 0 [] Examples.twoAttributes
            (loadModule Examples.shadyWindow)
            [Element "style" [Text "p{}"]; Element "div" []] [2%Z; 2%Z]
            (loadModule_cacheAllocated Examples.shadyWindow) eq_refl _).
  intros [|[|i]] Hi; simpl in *; try exact I. lia.
Defined.

(** ** The style template *)

Lemma onlyStylesAdded_refl {A} (proj : A → list Node) a st :
  onlyStylesAdded proj (proj a) (Return a st).
Proof. exists []. by rewrite app_nil_r. Qed.

Lemma onlyStylesAdded_bind {A B} (pa : A → list Node) (pb : B → list Node)
    sink (m : M A) (k : A → M B) st :
  onlyStylesAdded pa sink (m st) →
  (∀ a st', onlyStylesAdded pb (pa a) (k a st')) →
  onlyStylesAdded pb sink ((m ≫= k) st).
Proof.
  unfold mbind, M_bind, bind. intros Hm Hk.
  destruct (m st) as [a st1|e st1| |]; try done.
  specialize (Hk a st1). destruct (k a st1) as [b st2|e st2| |]; try done.
  destruct Hm as (add1 & H1 & F1), Hk as (add2 & H2 & F2).
  exists (add1 ++ add2). rewrite H2, H1, app_assoc. split; [done|]. by apply Forall_app.
Qed.

Section StyleTemplate.

Variable templateFactory : TemplateResult → M nat.

Lemma visitNode_onlyStylesAdded extractValue result template node l sink st :
  (∀ v s st0, onlyStylesAdded id s (extractValue v s st0)) →
  onlyStylesAdded snd sink
    (visitNode extractValue result template node (l, sink) st).
Proof.
  intros Hx. rewrite visitNode_pair.
  assert (∃ added, (visitStyle node l sink).2 = sink ++ added ∧
                   Forall (fun n => isStyle n = true) added) as (add1 & Hs & F1).
  { rewrite visitStyle_sink. destruct (isStyle node) eqn:E; eexists; split; try done.
    by repeat constructor. }
  unfold visitPart.
  destruct (parts (getTemplate st template) !! _) as [p|];
    [|by exists add1].
  destruct (decide _); [|by exists add1].
  match goal with |- context [extractValue ?v ?s ?st1] =>
    pose proof (Hx v s st1) as Hv; destruct (extractValue v s st1) as [a s2|err s2| |]
  end; try done.
  destruct (content_eqb _ _); [|done].
  destruct Hv as (add2 & Ha & F2). simpl in *. subst a. rewrite Hs.
  exists (add1 ++ add2). rewrite app_assoc. split; [done|]. by apply Forall_app.
Qed.

Lemma walk_onlyStylesAdded extractValue result template nodes :
  (∀ v s st0, onlyStylesAdded id s (extractValue v s st0)) →
  ∀ l sink st,
    onlyStylesAdded snd sink
      (walk (visitNode extractValue result template) nodes (l, sink) st).
Proof.
  intros Hx. induction nodes as [|node nodes IH]; intros l sink st.
  { apply (onlyStylesAdded_refl snd (l, sink)). }
  simpl. apply (onlyStylesAdded_bind snd snd).
  - by apply visitNode_onlyStylesAdded.
  - intros [l1 sink1] st1. apply IH.
Qed.

Lemma traverseTemplate_onlyStylesAdded extractValue sink result template st :
  (∀ v s st0, onlyStylesAdded id s (extractValue v s st0)) →
  onlyStylesAdded id sink (traverseTemplate extractValue sink result template st).
Proof.
  intros Hx. unfold traverseTemplate.
  apply (onlyStylesAdded_bind (fun _ => sink) id);
    [apply (onlyStylesAdded_refl (fun _ => sink) st)|].
  intros st0 st1.
  apply (onlyStylesAdded_bind snd id); [by apply walk_onlyStylesAdded|].
  intros [l1 sink1] st2. exists []. split; [|done]. simpl. by rewrite app_nil_r.
Qed.

Lemma forOf_onlyStylesAdded extractValue items :
  (∀ v s st0, onlyStylesAdded id s (extractValue v s st0)) →
  ∀ sink st, onlyStylesAdded id sink (forOf extractValue items sink st).
Proof.
  intros Hx. induction items as [|v items IH]; intros sink st.
  { apply (onlyStylesAdded_refl id sink). }
  simpl. apply (onlyStylesAdded_bind id id); [apply Hx|]. intros. apply IH.
Qed.

Lemma extractStylesFromTemplateWith_onlyStylesAdded extractValue sink result st :
  (∀ v s st0, onlyStylesAdded id s (extractValue v s st0)) →
  onlyStylesAdded id sink
    (extractStylesFromTemplateWith extractValue sink templateFactory result st).
Proof.
  intros Hx. unfold extractStylesFromTemplateWith.
  apply (onlyStylesAdded_bind (fun _ => sink) id).
  - destruct (templateFactory result st); try done. exists []. by rewrite app_nil_r.
  - intros. by apply traverseTemplate_onlyStylesAdded.
Qed.

Lemma extractStylesFromValue_onlyStylesAdded fuel : ∀ value sink st,
  onlyStylesAdded id sink (extractStylesFromValue fuel sink templateFactory value st).
Proof.
  induction fuel as [|fuel IH]; intros value sink st; destruct value; simpl;
    try done; try (exists []; by rewrite app_nil_r).
  - by apply extractStylesFromTemplateWith_onlyStylesAdded.
  - by apply forOf_onlyStylesAdded.
  - by apply forOf_onlyStylesAdded.
Qed.

Lemma extractStylesFromTemplate_onlyStylesAdded fuel sink result st :
  onlyStylesAdded id sink (extractStylesFromTemplate fuel sink templateFactory result st).
Proof.
  apply extractStylesFromTemplateWith_onlyStylesAdded.
  intros. apply extractStylesFromValue_onlyStylesAdded.
Qed.

(** X4.  [extractStylesFromTemplate] only appends to the style template
    it is given, and what it appends are style elements: whatever the
    template, its values and the templates nested in them, and
    whatever the factory, nothing already in the style template is
    dropped or reordered and no other node is cloned into it. *)
Theorem extraction_appends_only_styles fuel styleTemplate result st styleTemplate' st' :
  extractStylesFromTemplate fuel styleTemplate templateFactory result st
    = Return styleTemplate' st' →
  ∃ added, styleTemplate' = styleTemplate ++ added ∧
           Forall (fun node => isStyle node = true) added.
Proof.
  intros H.
  pose proof (extractStylesFromTemplate_onlyStylesAdded fuel styleTemplate result st) as Hx.
  by rewrite H in Hx.
Qed.

End StyleTemplate.

(** A style template that already holds a style element, and the
    template [<style>p{color:red}</style><p>${x}</p>]. *)
Lemma extraction_appends_only_styles_witness :
  extractStylesFromTemplate 0 [Examples.threeRules]
    (Examples.exampleFactory "x-foo") Examples.styledParagraph
    (loadModule Examples.shadyWindow)
    = Return [Examples.threeRules; Element "style" [Text "p{color:red}"]]
        Examples.compiledAndExtracted ∧
  ∃ added,
    [Examples.threeRules; Element "style" [Text "p{color:red}"]]
      = [Examples.threeRules] ++ added ∧
    Forall (fun node => isStyle node = true) added.
Proof.
  assert (extractStylesFromTemplate 0 [Examples.threeRules]
            (Examples.exampleFactory "x-foo") Examples.styledParagraph
            (loadModule Examples.shadyWindow)
          = Return [Examples.threeRules; Element "style" [Text "p{color:red}"]]
              Examples.compiledAndExtracted) as Hx by (vm_compute; reflexivity).
  split; [exact Hx|].
  exact (extraction_appends_only_styles (Examples.exampleFactory "x-foo") 0
           [Examples.threeRules] Examples.styledParagraph
           (loadModule Examples.shadyWindow) _ _ Hx).
Defined.

(** * What the entry point and the factory keep *)

(** ** Relations every call respects *)

Global Instance logs_reflexive P : Reflexive (logs P).
Proof. intros st. exists []. by rewrite app_nil_r. Qed.

Global Instance logs_transitive P : Transitive (logs P).
Proof.
  intros st1 st2 st3 (e1 & H1 & F1) (e2 & H2 & F2).
  exists (e1 ++ e2). rewrite H2, H1, app_assoc. split; [done|]. by apply Forall_app.
Qed.

Lemma logs_same P st st' : events st' = events st → logs P st st'.
Proof. intros H. exists []. by rewrite app_nil_r. Qed.

Lemma logs_emit (P : Event → Prop) e st : P e → logs P st (emit e st).
Proof. intros H. exists [e]. split; [done|]. by repeat constructor. Qed.

Lemma logs_impl (P Q : Event → Prop) st st' :
  (∀ e, P e → Q e) → logs P st st' → logs Q st st'.
Proof.
  intros H (evs & He & F). exists evs. split; [done|]. by eapply Forall_impl.
Qed.

Global Instance keeps_reflexive I : Reflexive (keeps I).
Proof. intros st H. exact H. Qed.

Global Instance keeps_transitive I : Transitive (keeps I).
Proof. intros st1 st2 st3 H1 H2 H. apply H2, H1, H. Qed.

Lemma keeps_cacheWellFormed_same st st' :
  templateCaches st' = templateCaches st →
  length (templates st') = length (templates st) →
  keeps cacheWellFormed st st'.
Proof.
  intros Hc Hl. unfold keeps, cacheWellFormed, cacheAllocated, cacheInjective, cached.
  rewrite Hc, Hl. auto.
Qed.

Lemma countPrepareTemplateDom_app evs1 evs2 :
  countPrepareTemplateDom (evs1 ++ evs2)
    = countPrepareTemplateDom evs1 + countPrepareTemplateDom evs2.
Proof. unfold countPrepareTemplateDom. by rewrite List.filter_app, length_app. Qed.

Lemma keeps_domOncePerTemplate_same st st' :
  countPrepareTemplateDom (events st') = countPrepareTemplateDom (events st) →
  length (templates st') = length (templates st) →
  keeps domOncePerTemplate st st'.
Proof. unfold keeps, domOncePerTemplate. intros -> ->. done. Qed.

Global Instance touchesOnlyScope_reflexive scopeName :
  Reflexive (touchesOnlyScope scopeName).
Proof. intros st. split; [done|]. split; [done|]. intros. by left. Qed.

Global Instance touchesOnlyScope_transitive scopeName :
  Transitive (touchesOnlyScope scopeName).
Proof.
  intros st1 st2 st3 (C1 & L1 & H1) (C2 & L2 & H2).
  split; [auto|]. split; [lia|].
  intros loc Hloc.
  destruct (H1 loc Hloc) as [E1|[r R1]].
  - destruct (H2 loc ltac:(lia)) as [E2|[r R2]]; [left; congruence|right].
    by exists r.
  - right. exists r. by apply C2.
Qed.

Lemma touchesOnlyScope_same_templates scopeName st st' :
  templateCaches st' = templateCaches st → templates st' = templates st →
  touchesOnlyScope scopeName st st'.
Proof.
  intros Hc Ht. unfold touchesOnlyScope, cachedInScope, cached. rewrite Hc, Ht.
  split; [done|]. split; [done|]. intros. by left.
Qed.

Lemma touchesOnlyScope_write scopeName st st' template r t :
  templateCaches st' = templateCaches st →
  cached st (cacheKey r scopeName) (strings r) = Some template →
  templates st' = <[template := t]> (templates st) →
  touchesOnlyScope scopeName st st'.
Proof.
  intros Hcache Hc Ht. unfold touchesOnlyScope, cachedInScope, cached in *.
  rewrite Hcache, Ht.
  split; [done|]. split; [by rewrite length_insert|]. intros loc _.
  destruct (decide (loc = template)) as [->|Hne].
  - right. by exists r.
  - left. by apply list_lookup_insert_ne.
Qed.

Lemma cacheKey_inj r1 scope1 r2 scope2 :
  type r1 = type r2 → cacheKey r1 scope1 = cacheKey r2 scope2 → scope1 = scope2.
Proof.
  unfold cacheKey. intros ->. intros H.
  apply (inj (String.app (type r2))) in H. by apply (inj (String.app "--")) in H.
Qed.

Lemma length_append s1 s2 :
  String.length (s1 +:+ s2) = String.length s1 + String.length s2.
Proof. induction s1 as [|a s1 IH]; [done|]. simpl. by rewrite IH. Qed.

(** ** The footprint of [render] *)

Section RenderFootprint.

Variable getTemplateElement : TemplateResult → list Node.

Variable prepareTemplateDom : list Node → string → list Node.

Variable newTemplate : TemplateResult → list Node → Template.

Variable prepareTemplateStyles : list Node → string → option (list Node).

Local Abbreviation factory :=
  (shadyTemplateFactory getTemplateElement prepareTemplateDom newTemplate).
Local Abbreviation shadyRender :=
  (render getTemplateElement prepareTemplateDom newTemplate prepareTemplateStyles).
Local Abbreviation afterExtraction :=
  (afterExtraction getTemplateElement prepareTemplateDom newTemplate
     prepareTemplateStyles).
Local Abbreviation runs :=
  (runs getTemplateElement prepareTemplateDom newTemplate prepareTemplateStyles).
Local Abbreviation anyCall :=
  (anyCall getTemplateElement prepareTemplateDom newTemplate prepareTemplateStyles).
Local Abbreviation templateFor :=
  (templateFor getTemplateElement prepareTemplateDom newTemplate).

(** [render] respects a relation that its steps respect: marking the
    scope, extraction, the style-processing hook (on style elements
    only), putting a style element back into the template that the
    factory returns, styling the host and the base render. *)
Section Steps.

Context (R : State → State → Prop) `{!Reflexive R} `{!Transitive R}.

Variable result : TemplateResult.

Variable container : Container.

Variable scopeName : string.

Hypothesis R_markScope : ∀ st, R st (markScope scopeName st).

Hypothesis R_extract : ∀ fuel,
  respects R (extractStylesFromTemplate fuel [] (factory scopeName) result).

Hypothesis R_prepareTemplateStyles : ∀ sink st,
  Forall (fun node => isStyle node = true) sink →
  R st (emit (PrepareTemplateStyles sink scopeName) st).

Hypothesis R_reinject : ∀ style,
  respects R (factory scopeName result ≫=
              fun template => insertStyleInTemplate template style).

Hypothesis R_styleElement : ∀ host st,
  hostForNode container = Some host → R st (emit (StyleElement host) st).

Hypothesis R_baseRender : ∀ f st,
  f = None ∨ f = Some scopeName → R st (emit (BaseRender result container f) st).

Lemma respects_afterExtraction host sink :
  hostForNode container = Some host →
  Forall (fun node => isStyle node = true) sink →
  respects R (afterExtraction result container scopeName host sink).
Proof.
  intros Hh Hs. unfold afterExtraction.
  apply (respects_bind R).
  { apply respects_withShadyCSS; [apply _|]. intros _ s s'.
    destruct (prepareTemplateStyles sink scopeName);
      intros [= <-]; by apply R_prepareTemplateStyles. }
  intros sink'. apply (respects_bind R).
  { apply respects_withShadyCSS; [apply _|]. intros shady.
    destruct (nativeShadow shady); [|apply respects_ret; apply _].
    destruct (querySelectorStyle sink'); [|apply respects_ret; apply _].
    apply R_reinject. }
  intros _. apply (respects_bind R).
  { apply respects_withShadyCSS; [apply _|]. intros _.
    apply respects_modify. intros. by apply R_styleElement. }
  intros _. apply respects_modify. intros. apply R_baseRender. by right.
Qed.

Lemma respects_render_steps fuel :
  respects R (shadyRender fuel result container scopeName).
Proof.
  intros st st'.
  assert (hostForNode container = None ∨ ∃ host, hostForNode container = Some host)
    as [Hh|[host Hh]] by (destruct (hostForNode container); eauto).
  { rewrite render_delegates by auto. intros [= <-]. apply R_baseRender. by left. }
  destruct (needsStyleFixup st) eqn:Hn.
  - destruct (decide (scopeName ∈ shadyRenderSet st)) as [Hs|Hs].
    + rewrite (render_gated _ _ _ _ _ _ _ _ host) by done.
      destruct (window_ShadyCSS st); intros [= <-]; [|reflexivity].
      etransitivity; [by apply R_styleElement|]. apply R_baseRender. by right.
    + rewrite (render_first _ _ _ _ _ _ _ _ host) by done.
      fold (markScope scopeName st).
      pose proof (R_extract fuel (markScope scopeName st)) as Hx.
      pose proof (extractStylesFromTemplate_onlyStylesAdded (factory scopeName)
                    fuel [] result (markScope scopeName st)) as Hsink.
      destruct (extractStylesFromTemplate _ _ _ _ _) as [sink st2|e st2| |];
        try done.
      * intros Ha. transitivity st2.
        { etransitivity; [apply R_markScope|by apply Hx]. }
        destruct Hsink as (added & Hadd & Fadd). simpl in Hadd. subst sink.
        by eapply (respects_afterExtraction host).
      * intros [= <-]. etransitivity; [apply R_markScope|by apply Hx].
  - rewrite render_delegates by auto. intros [= <-]. apply R_baseRender. by left.
Qed.

End Steps.

(** The same for a relation that every write to a template and every
    call of the factory respects. *)
Section Writes.

Context (R : State → State → Prop) `{!Reflexive R} `{!Transitive R}.

Variable result : TemplateResult.

Variable container : Container.

Variable scopeName : string.

Hypothesis R_setPartIndex : ∀ loc i v st, R st (setPartIndex loc i v st).

Hypothesis R_setContent : ∀ loc c st, R st (setContent loc c st).

Hypothesis R_factory : ∀ r, respects R (factory scopeName r).

Hypothesis R_markScope : ∀ st, R st (markScope scopeName st).

Hypothesis R_prepareTemplateStyles : ∀ sink st,
  Forall (fun node => isStyle node = true) sink →
  R st (emit (PrepareTemplateStyles sink scopeName) st).

Hypothesis R_insertStyleInTemplate : ∀ template style,
  respects R (insertStyleInTemplate template style).

Hypothesis R_styleElement : ∀ host st,
  hostForNode container = Some host → R st (emit (StyleElement host) st).

Hypothesis R_baseRender : ∀ f st,
  f = None ∨ f = Some scopeName → R st (emit (BaseRender result container f) st).

Lemma respects_render fuel :
  respects R (shadyRender fuel result container scopeName).
Proof.
  apply (respects_render_steps R); try done.
  - intros fuel'. by apply respects_extractStylesFromTemplate.
  - intros style. apply (respects_bind R); [apply R_factory|].
    intros. apply R_insertStyleInTemplate.
Qed.

End Writes.

Lemma factory_logs scopeName r :
  respects (logs (fun e => ∃ element, e = PrepareTemplateDom element scopeName))
    (factory scopeName r).
Proof.
  intros st st'.
  destruct (cached st (cacheKey r scopeName) (strings r)) as [loc|] eqn:E.
  - rewrite (shadyTemplateFactory_hit _ _ _ _ _ _ _ E). intros [= <-]. reflexivity.
  - destruct (shadyTemplateFactory_miss getTemplateElement prepareTemplateDom
                newTemplate scopeName r st E)
      as (s1 & Hf & _ & _ & _ & _ & He & _).
    rewrite Hf. intros [= <-]. eexists. split; [exact He|].
    unfold compile. destruct (window_ShadyCSS st); simpl; repeat constructor. eauto.
Qed.

(** X12.  Whatever way a call of [render(result, container, scopeName)]
    ends, all it has done to the log is to add calls of its own: the
    polyfill's preparation hooks for [scopeName] (never for another
    scope, also for the templates nested in the values), [styleElement]
    for the host of [container], the base render for [result] and
    [container] with the scoped factory or with none.  Nothing logged
    before is lost. *)
Theorem render_logs_only_its_own_calls fuel result container scopeName st st' :
  finalState (shadyRender fuel result container scopeName st) = Some st' →
  ∃ evs, events st' = events st ++ evs ∧
         Forall (ownEvent result container scopeName) evs.
Proof.
  apply (respects_render (logs (ownEvent result container scopeName))).
  - intros. by apply logs_same.
  - intros. by apply logs_same.
  - intros r s s' H. eapply logs_impl; [|by eapply factory_logs].
    by intros e [element ->].
  - intros. by apply logs_same.
  - intros. by apply logs_emit.
  - intros template style s s' [= <-]. by apply logs_same.
  - intros. by apply logs_emit.
  - intros. by apply logs_emit.
Qed.

Lemma render_logs_stylesOnly fuel result container scopeName :
  respects (logs stylesOnly) (shadyRender fuel result container scopeName).
Proof.
  apply (respects_render (logs stylesOnly)).
  - intros. by apply logs_same.
  - intros. by apply logs_same.
  - intros r s s' H. eapply logs_impl; [|by eapply factory_logs].
    by intros e [element ->].
  - intros. by apply logs_same.
  - intros. by apply logs_emit.
  - intros template style s s' [= <-]. by apply logs_same.
  - intros. by apply logs_emit.
  - intros. by apply logs_emit.
Qed.

(** X13.  In any state reached from the loaded module by calls of
    [render] (and changes of [window.ShadyCSS]), every call of
    [prepareTemplateStyles] there has been was given a style template
    that holds style elements and nothing else. *)
Theorem prepareTemplateStyles_receives_only_styles w st styleTemplate scopeName :
  runs (loadModule w) st →
  PrepareTemplateStyles styleTemplate scopeName ∈ events st →
  Forall (fun node => isStyle node = true) styleTemplate.
Proof.
  intros Hruns.
  assert (Forall stylesOnly (events st)) as Hall.
  { eapply (rtc_ind_r (fun s => Forall stylesOnly (events s)) (loadModule w));
      [constructor| |exact Hruns].
    intros st1 st2 _ Hstep IH.
    destruct Hstep as [fuel result container scope s s' H|w' s]; [|done].
    apply render_logs_stylesOnly in H as (evs & -> & F).
    apply Forall_app. by split. }
  intros Hin. rewrite Forall_forall in Hall. exact (Hall _ Hin).
Qed.

(** X11.  When the module was loaded in an environment that needs no
    fixup (no ShadyCSS, or ShadyCSS reporting native shadow DOM and no
    ApplyShim), [render] is the base render with the default factory,
    in every state reached from there and whatever [window.ShadyCSS]
    has become since: it returns, for every container and scope name,
    and changes nothing but the log. *)
Theorem render_is_base_render_without_fixup
    w st fuel result container scopeName :
  runs (loadModule w) st →
  computeNeedsStyleFixup w = false →
  shadyRender fuel result container scopeName st
    = Return tt (emit (BaseRender result container None) st).
Proof.
  intros Hruns Hw. apply render_delegates. left.
  apply runs_invariant in Hruns as (Hn & _ & _). by rewrite Hn.
Qed.

(** ** The cache and the heap *)

Lemma factory_cacheWellFormed scopeName result :
  respects (keeps cacheWellFormed) (factory scopeName result).
Proof.
  intros st st'.
  destruct (cached st (cacheKey result scopeName) (strings result)) as [loc|] eqn:E.
  - rewrite (shadyTemplateFactory_hit _ _ _ _ _ _ _ E). intros [= <-]. reflexivity.
  - destruct (shadyTemplateFactory_miss getTemplateElement prepareTemplateDom
                newTemplate scopeName result st E)
      as (s1 & Hf & _ & _ & _ & Ht & _ & Hc & Ho).
    rewrite Hf. intros [= <-] [Ha Hi].
    assert (∀ key s loc, cached s1 key s = Some loc →
              (key = cacheKey result scopeName ∧ s = strings result
               ∧ loc = length (templates st))
              ∨ ((key, s) ≠ (cacheKey result scopeName, strings result)
                 ∧ cached st key s = Some loc)) as Hcases.
    { intros key s loc Hl.
      destruct (decide ((key, s) = (cacheKey result scopeName, strings result)))
        as [[= -> ->]|Hne].
      - left. rewrite Hc in Hl. by injection Hl as <-.
      - right. split; [done|]. by rewrite Ho in Hl. }
    split.
    + intros key s loc Hl. rewrite Ht, length_app. simpl.
      destruct (Hcases _ _ _ Hl) as [(-> & -> & ->)|[_ Hl']]; [lia|].
      apply Ha in Hl'. lia.
    + intros key1 s1' key2 s2' loc H1 H2.
      destruct (Hcases _ _ _ H1) as [(-> & -> & ->)|[Hne1 H1']];
        destruct (Hcases _ _ _ H2) as [(-> & -> & E2)|[Hne2 H2']]; try done.
      * apply Ha in H2'. lia.
      * apply Ha in H1'. lia.
      * by eapply Hi.
Qed.

Lemma extract_cacheWellFormed fuel sink scopeName result :
  respects (keeps cacheWellFormed)
    (extractStylesFromTemplate fuel sink (factory scopeName) result).
Proof.
  apply respects_extractStylesFromTemplate; try apply _.
  - intros. apply keeps_cacheWellFormed_same; [done|]. simpl. by rewrite length_insert.
  - intros. apply keeps_cacheWellFormed_same; [done|]. simpl. by rewrite length_insert.
  - intros. apply factory_cacheWellFormed.
Qed.

Lemma insertStyleInTemplate_cacheWellFormed template style :
  respects (keeps cacheWellFormed) (insertStyleInTemplate template style).
Proof.
  intros st st' [= <-]. apply keeps_cacheWellFormed_same; [done|]. simpl.
  by rewrite length_insert.
Qed.

Lemma render_cacheWellFormed fuel result container scopeName :
  respects (keeps cacheWellFormed) (shadyRender fuel result container scopeName).
Proof.
  apply (respects_render (keeps cacheWellFormed)).
  - intros. apply keeps_cacheWellFormed_same; [done|]. simpl. by rewrite length_insert.
  - intros. apply keeps_cacheWellFormed_same; [done|]. simpl. by rewrite length_insert.
  - intros. apply factory_cacheWellFormed.
  - intros. by apply keeps_cacheWellFormed_same.
  - intros. by apply keeps_cacheWellFormed_same.
  - apply insertStyleInTemplate_cacheWellFormed.
  - intros. by apply keeps_cacheWellFormed_same.
  - intros. by apply keeps_cacheWellFormed_same.
Qed.

Lemma anyCall_cacheWellFormed st st' : anyCall st st' → keeps cacheWellFormed st st'.
Proof.
  intros [scope r s loc s' H|fuel sink scope r s s' H|loc style s s' H
         |fuel r c scope s s' H|w s].
  - eapply factory_cacheWellFormed. by rewrite H.
  - by eapply extract_cacheWellFormed.
  - eapply insertStyleInTemplate_cacheWellFormed. by rewrite H.
  - by eapply render_cacheWellFormed.
  - by apply keeps_cacheWellFormed_same.
Qed.

Lemma loadModule_cacheWellFormed w : cacheWellFormed (loadModule w).
Proof.
  split; [apply loadModule_cacheAllocated|].
  intros key1 s1 key2 s2 loc H. unfold cached in H. simpl in H.
  by rewrite lookup_empty in H.
Qed.

Lemma rtc_anyCall_cacheWellFormed w st :
  rtc anyCall (loadModule w) st → cacheWellFormed st.
Proof.
  intros Hcalls.
  eapply (rtc_ind_r cacheWellFormed (loadModule w));
    [apply loadModule_cacheWellFormed| |exact Hcalls].
  intros st1 st2 _ Hstep IH. by apply (anyCall_cacheWellFormed _ _ Hstep).
Qed.

(** X1.  Templates are per scope and per template literal: in any state
    reached by calls of the module's functions from the loaded module,
    the factories of two scopes, called for results of the same type,
    return different [Template] objects, and so does one factory for
    results with different strings arrays.  Both templates are
    allocated. *)
Theorem factory_keeps_scopes_apart
    w st scope1 scope2 result1 result2 template1 template2 st1 st2 :
  rtc anyCall (loadModule w) st →
  type result1 = type result2 →
  scope1 ≠ scope2 ∨ strings result1 ≠ strings result2 →
  factory scope1 result1 st = Return template1 st1 →
  factory scope2 result2 st1 = Return template2 st2 →
  template1 ≠ template2 ∧
  is_Some (templates st2 !! template1) ∧ is_Some (templates st2 !! template2).
Proof.
  intros Hcalls Ht Hne H1 H2.
  apply rtc_anyCall_cacheWellFormed in Hcalls as Hwf.
  assert (cacheWellFormed st1) as Hwf1.
  { eapply factory_cacheWellFormed; [|exact Hwf]. by rewrite H1. }
  assert (cacheWellFormed st2) as [Ha2 Hi2].
  { eapply factory_cacheWellFormed; [|exact Hwf1]. by rewrite H2. }
  assert (cached st2 (cacheKey result1 scope1) (strings result1) = Some template1) as C1.
  { eapply (shadyTemplateFactory_grows _ _ _ _ _ _ _ _ H2).
    by eapply shadyTemplateFactory_cached. }
  assert (cached st2 (cacheKey result2 scope2) (strings result2) = Some template2) as C2
    by by eapply shadyTemplateFactory_cached.
  split; [|split].
  - intros <-. destruct (Hi2 _ _ _ _ _ C1 C2) as [Hk Hs].
    destruct Hne as [Hne|Hne]; [|done]. apply Hne. by eapply cacheKey_inj.
  - apply lookup_lt_is_Some. by eapply Ha2.
  - apply lookup_lt_is_Some. by eapply Ha2.
Qed.

Lemma factory_domOncePerTemplate scopeName result :
  respects (keeps domOncePerTemplate) (factory scopeName result).
Proof.
  intros st st'.
  destruct (cached st (cacheKey result scopeName) (strings result)) as [loc|] eqn:E.
  - rewrite (shadyTemplateFactory_hit _ _ _ _ _ _ _ E). intros [= <-]. reflexivity.
  - destruct (shadyTemplateFactory_miss getTemplateElement prepareTemplateDom
                newTemplate scopeName result st E)
      as (s1 & Hf & _ & _ & _ & Ht & He & _).
    rewrite Hf. intros [= <-]. unfold keeps, domOncePerTemplate.
    rewrite Ht, He, length_app, countPrepareTemplateDom_app. simpl.
    unfold compile. destruct (window_ShadyCSS st); unfold countPrepareTemplateDom;
      simpl; lia.
Qed.

Lemma anyCall_domOncePerTemplate st st' :
  anyCall st st' → keeps domOncePerTemplate st st'.
Proof.
  intros [scope r s loc s' H|fuel sink scope r s s' H|loc style s s' H
         |fuel r c scope s s' H|w s].
  - eapply factory_domOncePerTemplate. by rewrite H.
  - revert H. apply respects_extractStylesFromTemplate; try apply _.
    + intros. apply keeps_domOncePerTemplate_same; [done|]. simpl.
      by rewrite length_insert.
    + intros. apply keeps_domOncePerTemplate_same; [done|]. simpl.
      by rewrite length_insert.
    + intros. apply factory_domOncePerTemplate.
  - injection H as <-. apply keeps_domOncePerTemplate_same; [done|]. simpl.
    by rewrite length_insert.
  - revert H. apply (respects_render (keeps domOncePerTemplate)).
    + intros. apply keeps_domOncePerTemplate_same; [done|]. simpl.
      by rewrite length_insert.
    + intros. apply keeps_domOncePerTemplate_same; [done|]. simpl.
      by rewrite length_insert.
    + intros. apply factory_domOncePerTemplate.
    + intros. by apply keeps_domOncePerTemplate_same.
    + intros. apply keeps_domOncePerTemplate_same; [|done]. simpl.
      rewrite countPrepareTemplateDom_app. unfold countPrepareTemplateDom. simpl. lia.
    + intros template style s0 s0' [= <-].
      apply keeps_domOncePerTemplate_same; [done|]. simpl. by rewrite length_insert.
    + intros. apply keeps_domOncePerTemplate_same; [|done]. simpl.
      rewrite countPrepareTemplateDom_app. unfold countPrepareTemplateDom. simpl. lia.
    + intros. apply keeps_domOncePerTemplate_same; [|done]. simpl.
      rewrite countPrepareTemplateDom_app. unfold countPrepareTemplateDom. simpl. lia.
  - by apply keeps_domOncePerTemplate_same.
Qed.

(** X2.  The DOM-preparation hook runs when a template is compiled and
    at no other time: in any state reached by calls of the module's
    functions from the loaded module, [prepareTemplateDom] has been
    called at most as many times as there are templates. *)
Theorem prepareTemplateDom_once_per_template w st :
  rtc anyCall (loadModule w) st →
  countPrepareTemplateDom (events st) ≤ length (templates st).
Proof.
  intros Hcalls.
  eapply (rtc_ind_r domOncePerTemplate (loadModule w)); [| |exact Hcalls].
  - unfold domOncePerTemplate, countPrepareTemplateDom. simpl. lia.
  - intros st1 st2 _ Hstep IH. by apply (anyCall_domOncePerTemplate _ _ Hstep).
Qed.

(** ** The template after the first render for a scope *)

(** X14.  The first call of [render] for a scope, on the fixup path,
    for a result whose values are inert, when the style-processing
    hook does not raise: the call returns.  The hook
    [prepareTemplateStyles] has been given the style template that
    extraction produced, which holds the style elements of the
    template of [result], all of them, in document order; before it
    only templates were compiled, after it the host was styled and the
    base render called.  The template of [result] for that scope is
    left with the content it had when the factory handed it out,
    without its style elements; and, when ShadyCSS reports native
    shadow DOM (the module then being in use for ApplyShim), with the
    first style element of the style template, as
    [prepareTemplateStyles] left it, put in front. *)
Theorem render_first_template_content
    fuel result container scopeName host shady st c ps styleTemplate' :
  cacheAllocated st →
  needsStyleFixup st = true →
  hostForNode container = Some host →
  scopeName ∉ shadyRenderSet st →
  window_ShadyCSS st = Some shady →
  templateFor scopeName st result = mkTemplate c ps →
  (∀ i, i < length ps → inert (default VUndefined (values result !! i))) →
  prepareTemplateStyles (List.filter isStyle (walkerNodes c)) scopeName
    = Some styleTemplate' →
  ∃ template styleTemplate st2 st' evs,
    extractStylesFromTemplate fuel [] (factory scopeName) result
      (markScope scopeName st) = Return styleTemplate st2 ∧
    styleTemplate = List.filter isStyle (walkerNodes c) ∧
    events st2 = events st ++ evs ∧
    Forall isPrepareTemplateDom evs ∧
    shadyRender fuel result container scopeName st = Return tt st' ∧
    events st' = events st2 ++
      [PrepareTemplateStyles styleTemplate scopeName;
       StyleElement host; BaseRender result container (Some scopeName)] ∧
    cached st' (cacheKey result scopeName) (strings result) = Some template ∧
    content (getTemplate st' template) =
      (if nativeShadow shady
       then match querySelectorStyle styleTemplate' with
            | Some style => [style]
            | None => []
            end
       else [])
      ++ contentWithoutStyles c.
Proof.
  intros Ha Hn Hh Hs Hw Hfor Hinert Hp.
  rewrite (render_first _ _ _ _ _ _ _ _ host) by done.
  fold (markScope scopeName st).
  assert (cacheAllocated (markScope scopeName st)) as Ha0 by exact Ha.
  assert (templateFor scopeName (markScope scopeName st) result = mkTemplate c ps)
    as Hfor0 by exact Hfor.
  destruct (extractStylesFromTemplate_inert getTemplateElement prepareTemplateDom
              newTemplate scopeName fuel [] result _ c ps Ha0 Hfor0 Hinert)
    as (loc & st2 & ps' & Ex & Hc & Hlt & Hget & _).
  assert (grows (markScope scopeName st) st2) as G.
  { eapply (respects_extractStylesFromTemplate grows grows_setPartIndex
              grows_setContent (factory scopeName)
              (factory_respects_grows _ _ _ scopeName)); by rewrite Ex. }
  rewrite Ex. cbn [app].
  set (sink := List.filter isStyle (walkerNodes c)) in *.
  destruct (grows_events _ _ G) as (evs & He & Fe). simpl in He.
  assert (window_ShadyCSS st2 = Some shady) as Hw2.
  { rewrite (grows_window _ _ G). exact Hw. }
  unfold afterExtraction, mbind, M_bind, bind, withShadyCSS, modify, mret, M_ret, ret.
  rewrite Hw2, Hp.
  unfold emit at 1. cbn [window_ShadyCSS]. rewrite Hw2.
  set (st3 := emit (PrepareTemplateStyles sink scopeName) st2).
  destruct (nativeShadow shady);
    [destruct (querySelectorStyle styleTemplate') as [style|] eqn:Eq|].
  - rewrite (shadyTemplateFactory_hit _ _ _ _ _ st3 loc) by exact Hc.
    unfold insertStyleInTemplate.
    change (window_ShadyCSS (set_templates ?ts st3)) with (window_ShadyCSS st2).
    rewrite Hw2.
    eexists loc, sink, st2, _, evs. split; [done|]. split; [done|].
    split; [done|]. split; [done|]. split; [reflexivity|].
    split; [|split; [exact Hc|]].
    + simpl. by rewrite <- !app_assoc.
    + rewrite !getTemplate_emit. unfold getTemplate at 1. cbn [templates set_templates].
      rewrite list_lookup_insert_eq by exact Hlt.
      simpl. f_equal. change (getTemplate st3 loc) with (getTemplate st2 loc).
      by rewrite Hget.
  - change (window_ShadyCSS st3) with (window_ShadyCSS st2). rewrite Hw2.
    eexists loc, sink, st2, _, evs. split; [done|]. split; [done|].
    split; [done|]. split; [done|]. split; [reflexivity|].
    split; [|split; [exact Hc|]].
    + simpl. by rewrite <- !app_assoc.
    + rewrite !getTemplate_emit. change (getTemplate st3 loc) with (getTemplate st2 loc).
      by rewrite Hget.
  - change (window_ShadyCSS st3) with (window_ShadyCSS st2). rewrite Hw2.
    eexists loc, sink, st2, _, evs. split; [done|]. split; [done|].
    split; [done|]. split; [done|]. split; [reflexivity|].
    split; [|split; [exact Hc|]].
    + simpl. by rewrite <- !app_assoc.
    + rewrite !getTemplate_emit. change (getTemplate st3 loc) with (getTemplate st2 loc).
      by rewrite Hget.
Qed.

End RenderFootprint.

(** ** Templates of other scopes *)

Section OtherScopes.

Variable getTemplateElement : TemplateResult → list Node.

Variable prepareTemplateDom : list Node → string → list Node.

Variable newTemplate : TemplateResult → list Node → Template.

Variable prepareTemplateStyles : list Node → string → option (list Node).

Variable scopeName : string.

Local Abbreviation factory :=
  (shadyTemplateFactory getTemplateElement prepareTemplateDom newTemplate).
Local Abbreviation shadyRender :=
  (render getTemplateElement prepareTemplateDom newTemplate prepareTemplateStyles).
Local Abbreviation anyCall :=
  (anyCall getTemplateElement prepareTemplateDom newTemplate prepareTemplateStyles).
Local Abbreviation touches := (touchesOnlyScope scopeName).

Lemma cachedInScope_touches template st st' :
  touches st st' → cachedInScope scopeName template st →
  cachedInScope scopeName template st'.
Proof. intros [C _] [r Hc]. exists r. by apply C. Qed.

(** The factory of any scope writes to no template there was. *)
Lemma factory_touches other result :
  respects touches (factory other result).
Proof.
  intros st st' H.
  assert (grows st st') as G by by eapply factory_respects_grows.
  split; [apply (grows_cached _ _ G)|]. split; [apply (grows_templates _ _ G)|].
  intros loc Hloc. left.
  destruct (cached st (cacheKey result other) (strings result)) as [l|] eqn:E.
  - rewrite (shadyTemplateFactory_hit _ _ _ _ _ _ _ E) in H. by injection H as <-.
  - destruct (shadyTemplateFactory_miss getTemplateElement prepareTemplateDom
                newTemplate other result st E)
      as (s1 & Hf & _ & _ & _ & Ht & _).
    rewrite Hf in H. injection H as <-. rewrite Ht. by apply lookup_app_l.
Qed.

Section Traversal.

Variable extractValue : Value → list Node → M (list Node).

Variable result : TemplateResult.

Variable template : nat.

Hypothesis extractValue_touches : ∀ v s, respects touches (extractValue v s).

Lemma visitPart_touches l sink st st' :
  cachedInScope scopeName template st →
  finalState (visitPart extractValue result template l sink st) = Some st' →
  touches st st'.
Proof.
  intros [r Hc]. unfold visitPart.
  destruct (parts (getTemplate st template) !! partIndex l) as [p|];
    [|intros [= <-]; reflexivity].
  destruct (decide (p = index l)); [|intros [= <-]; reflexivity].
  match goal with |- context [extractValue ?v ?s ?st1] =>
    assert (touches st st1) as H1;
    [|pose proof (extractValue_touches v s st1) as Hv;
      destruct (extractValue v s st1) as [a s2|err s2| |]]
  end; simpl; try done.
  - destruct (decide _);
      (eapply touchesOnlyScope_write; [done|exact Hc|done]).
  - destruct (content_eqb _ _); [|done]. intros [= <-].
    etransitivity; [exact H1|by apply Hv].
  - intros [= <-]. etransitivity; [exact H1|by apply Hv].
Qed.

Lemma walk_touches nodes : ∀ acc st st',
  cachedInScope scopeName template st →
  finalState (walk (visitNode extractValue result template) nodes acc st) = Some st' →
  touches st st'.
Proof.
  induction nodes as [|node nodes IH]; intros [l sink] st st' Hc.
  { intros [= <-]. reflexivity. }
  rewrite walk_cons, visitNode_pair.
  pose proof (visitPart_touches (visitStyle node l sink).1 (visitStyle node l sink).2
                st) as Hv.
  destruct (visitPart _ _ _ _ _ st) as [acc1 st1|e st1| |]; try done.
  - specialize (Hv st1 Hc eq_refl). intros H.
    etransitivity; [exact Hv|]. eapply IH; [|exact H].
    by eapply cachedInScope_touches.
  - intros [= <-]. by apply Hv.
Qed.

Lemma traverseTemplate_touches sink st st' :
  cachedInScope scopeName template st →
  finalState (traverseTemplate extractValue sink result template st) = Some st' →
  touches st st'.
Proof.
  intros Hc. unfold traverseTemplate, mbind, M_bind, bind, get, modify, mret, M_ret, ret.
  pose proof (walk_touches (walkerNodes (content (getTemplate st template)))
                (initialLocals, sink) st) as Hw.
  destruct (walk _ _ _ st) as [[l1 sink1] st1|e st1| |]; try done.
  - specialize (Hw st1 Hc eq_refl). intros [= <-].
    etransitivity; [exact Hw|].
    destruct (cachedInScope_touches _ _ _ Hw Hc) as [r Hc1].
    eapply touchesOnlyScope_write; [done|exact Hc1|done].
  - intros [= <-]. by apply Hw.
Qed.

End Traversal.

Lemma extractStylesFromTemplateWith_touches extractValue sink result :
  (∀ v s, respects touches (extractValue v s)) →
  respects touches
    (extractStylesFromTemplateWith extractValue sink (factory scopeName) result).
Proof.
  intros Hx st st'. unfold extractStylesFromTemplateWith.
  unfold mbind at 1, M_bind at 1, bind at 1.
  destruct (shadyTemplateFactory_returns getTemplateElement prepareTemplateDom
              newTemplate scopeName result st) as (loc & st1 & Hf & Hc & _).
  rewrite Hf. intros H. transitivity st1.
  - eapply factory_touches. by rewrite Hf.
  - eapply traverseTemplate_touches; [exact Hx| |exact H]. by exists result.
Qed.

Lemma extractStylesFromValue_touches fuel : ∀ sink value,
  respects touches (extractStylesFromValue fuel sink (factory scopeName) value).
Proof.
  induction fuel as [|fuel IH]; intros sink value; destruct value; simpl;
    try apply respects_ret; try apply respects_throw; try apply _; try done.
  - by apply extractStylesFromTemplateWith_touches.
  - apply respects_forOf; try apply _. done.
  - apply respects_forOf; try apply _. done.
Qed.

Lemma extractStylesFromTemplate_touches fuel sink result :
  respects touches (extractStylesFromTemplate fuel sink (factory scopeName) result).
Proof.
  apply extractStylesFromTemplateWith_touches.
  intros. apply extractStylesFromValue_touches.
Qed.

Lemma render_touches fuel result container :
  respects touches (shadyRender fuel result container scopeName).
Proof.
  apply (respects_render_steps getTemplateElement prepareTemplateDom newTemplate
           prepareTemplateStyles touches).
  - intros. by apply touchesOnlyScope_same_templates.
  - intros. apply extractStylesFromTemplate_touches.
  - intros. by apply touchesOnlyScope_same_templates.
  - intros style st st'. unfold mbind, M_bind, bind.
    destruct (shadyTemplateFactory_returns getTemplateElement prepareTemplateDom
                newTemplate scopeName result st) as (loc & st1 & Hf & Hc & _).
    rewrite Hf. intros [= <-]. transitivity st1.
    + eapply factory_touches. by rewrite Hf.
    + eapply touchesOnlyScope_write; [done|exact Hc|done].
  - intros. by apply touchesOnlyScope_same_templates.
  - intros. by apply touchesOnlyScope_same_templates.
Qed.

(** X15.  A call of [render] for a scope, however it ends, leaves every
    template alone that the cache holds under a key that is not a key
    of that scope ([`${type}--${scopeName}`] for some type): the
    template is still cached under its key and is exactly as it was,
    content and part indices; style extraction and reinjection for one
    scope never reach the templates of another.  This holds in any
    state reached by calls of the module's functions from the loaded
    module. *)
Theorem render_leaves_other_scopes_alone
    w st fuel result container key s template st' :
  rtc anyCall (loadModule w) st →
  cached st key s = Some template →
  (∀ r, key ≠ cacheKey r scopeName) →
  finalState (shadyRender fuel result container scopeName st) = Some st' →
  cached st' key s = Some template ∧
  templates st' !! template = templates st !! template.
Proof.
  intros Hcalls Hc Hkey Hr.
  apply (rtc_anyCall_cacheWellFormed getTemplateElement prepareTemplateDom
           newTemplate prepareTemplateStyles) in Hcalls as Hwf.
  assert (cacheWellFormed st') as [_ Hinj].
  { eapply (render_cacheWellFormed getTemplateElement prepareTemplateDom newTemplate
              prepareTemplateStyles); [exact Hr|exact Hwf]. }
  destruct Hwf as [Ha _].
  apply render_touches in Hr as (C & _ & H).
  split; [by apply C|].
  destruct (H template (Ha _ _ _ Hc)) as [E|[r Hr]]; [done|].
  exfalso. destruct (Hinj _ _ _ _ _ (C _ _ _ Hc) Hr) as [Hk _]. by eapply Hkey.
Qed.

End OtherScopes.

(** ** On the example templates *)

(** The same literal compiled for scope x-foo and then for scope
    x-bar: two templates. *)
Lemma factory_keeps_scopes_apart_witness :
  Examples.exampleFactory "x-foo" Examples.styledParagraph
    (loadModule Examples.nativeWindow) = Return 0 Examples.compiledOnce ∧
  Examples.exampleFactory "x-bar" Examples.styledParagraph
    Examples.compiledOnce = Return 1 Examples.compiledTwice ∧
  0 ≠ 1 ∧
  is_Some (templates Examples.compiledTwice !! 0) ∧
  is_Some (templates Examples.compiledTwice !! 1).
Proof.
  assert (Examples.exampleFactory "x-foo" Examples.styledParagraph
            (loadModule Examples.nativeWindow) = Return 0 Examples.compiledOnce)
    as H1 by (vm_compute; reflexivity).
  assert (Examples.exampleFactory "x-bar" Examples.styledParagraph
            Examples.compiledOnce = Return 1 Examples.compiledTwice)
    as H2 by (vm_compute; reflexivity).
  split; [exact H1|]. split; [exact H2|].
  refine (factory_keeps_scopes_apart
            Examples.exampleGetTemplateElement Examples.examplePrepareTemplateDom
            Examples.exampleNewTemplate Examples.examplePrepareTemplateStyles
            Examples.nativeWindow (loadModule Examples.nativeWindow)
            "x-foo" "x-bar" Examples.styledParagraph Examples.styledParagraph
            0 1 Examples.compiledOnce Examples.compiledTwice
            (rtc_refl _ _) eq_refl _ H1 H2).
  left. discriminate.
Defined.

(** One template compiled, with ShadyCSS present: one call of the
    hook. *)
Lemma prepareTemplateDom_once_witness :
  rtc (anyCall Examples.exampleGetTemplateElement Examples.examplePrepareTemplateDom
         Examples.exampleNewTemplate Examples.examplePrepareTemplateStyles)
      (loadModule Examples.nativeWindow) Examples.compiledOnce ∧
  length (templates Examples.compiledOnce) = 1 ∧
  countPrepareTemplateDom (events Examples.compiledOnce) ≤ 1.
Proof.
  assert (rtc (anyCall Examples.exampleGetTemplateElement
                 Examples.examplePrepareTemplateDom
                 Examples.exampleNewTemplate Examples.examplePrepareTemplateStyles)
              (loadModule Examples.nativeWindow) Examples.compiledOnce) as Hcalls.
  { apply rtc_once.
    apply call_factory with (scopeName := "x-foo")
      (result := Examples.styledParagraph) (template := 0).
    vm_compute. reflexivity. }
  split; [exact Hcalls|]. split; [reflexivity|].
  exact (prepareTemplateDom_once_per_template
           Examples.exampleGetTemplateElement Examples.examplePrepareTemplateDom
           Examples.exampleNewTemplate Examples.examplePrepareTemplateStyles
           Examples.nativeWindow Examples.compiledOnce Hcalls).
Defined.

(** The module is loaded on a native platform; ShadyCSS says later
    that scoping is needed.  [render] into a shadow root is still the
    base render alone. *)
Lemma render_is_base_render_witness :
  runs Examples.exampleGetTemplateElement Examples.examplePrepareTemplateDom
       Examples.exampleNewTemplate Examples.examplePrepareTemplateStyles
       (loadModule Examples.nativeWindow)
       (set_window_ShadyCSS Examples.shadyWindow (loadModule Examples.nativeWindow)) ∧
  computeNeedsStyleFixup Examples.nativeWindow = false ∧
  Examples.exampleRender 1 Examples.styledParagraph Examples.shadowRoot "x-foo"
    (set_window_ShadyCSS Examples.shadyWindow (loadModule Examples.nativeWindow))
    = Return tt
        (emit (BaseRender Examples.styledParagraph Examples.shadowRoot None)
           (set_window_ShadyCSS Examples.shadyWindow
              (loadModule Examples.nativeWindow))).
Proof.
  assert (runs Examples.exampleGetTemplateElement Examples.examplePrepareTemplateDom
            Examples.exampleNewTemplate Examples.examplePrepareTemplateStyles
            (loadModule Examples.nativeWindow)
            (set_window_ShadyCSS Examples.shadyWindow
               (loadModule Examples.nativeWindow))) as Hruns.
  { apply rtc_once. apply step_window. }
  split; [exact Hruns|]. split; [reflexivity|].
  exact (render_is_base_render_without_fixup
           Examples.exampleGetTemplateElement Examples.examplePrepareTemplateDom
           Examples.exampleNewTemplate Examples.examplePrepareTemplateStyles
           Examples.nativeWindow _ 1 Examples.styledParagraph Examples.shadowRoot
           "x-foo" Hruns eq_refl).
Defined.

(** The first render of [<style>p{color:red}</style><p>${x}</p>] for
    scope x-foo. *)
Lemma render_logs_own_calls_witness :
  finalState (Examples.exampleRender 1 Examples.styledParagraph Examples.shadowRoot
                "x-foo" (loadModule Examples.shadyWindow))
    = Some Examples.renderedOnce ∧
  ∃ evs,
    events Examples.renderedOnce = events (loadModule Examples.shadyWindow) ++ evs ∧
    Forall (ownEvent Examples.styledParagraph Examples.shadowRoot "x-foo") evs.
Proof.
  assert (finalState (Examples.exampleRender 1 Examples.styledParagraph
                        Examples.shadowRoot "x-foo"
                        (loadModule Examples.shadyWindow))
          = Some Examples.renderedOnce) as Hr by (vm_compute; reflexivity).
  split; [exact Hr|].
  exact (render_logs_only_its_own_calls
           Examples.exampleGetTemplateElement Examples.examplePrepareTemplateDom
           Examples.exampleNewTemplate Examples.examplePrepareTemplateStyles
           1 Examples.styledParagraph Examples.shadowRoot "x-foo"
           (loadModule Examples.shadyWindow) Examples.renderedOnce Hr).
Defined.

(** The call of [prepareTemplateStyles] made by that first render. *)
Lemma prepareTemplateStyles_receives_witness :
  runs Examples.exampleGetTemplateElement Examples.examplePrepareTemplateDom
       Examples.exampleNewTemplate Examples.examplePrepareTemplateStyles
       (loadModule Examples.shadyWindow) Examples.renderedOnce ∧
  PrepareTemplateStyles [Element "style" [Text "p{color:red}"]] "x-foo"
    ∈ events Examples.renderedOnce ∧
  Forall (fun node => isStyle node = true) [Element "style" [Text "p{color:red}"]].
Proof.
  assert (runs Examples.exampleGetTemplateElement Examples.examplePrepareTemplateDom
            Examples.exampleNewTemplate Examples.examplePrepareTemplateStyles
            (loadModule Examples.shadyWindow) Examples.renderedOnce) as Hruns.
  { apply rtc_once.
    apply step_render with (fuel := 1) (result := Examples.styledParagraph)
      (container := Examples.shadowRoot) (scopeName := "x-foo").
    vm_compute. reflexivity. }
  assert (PrepareTemplateStyles [Element "style" [Text "p{color:red}"]] "x-foo"
            ∈ events Examples.renderedOnce) as Hin.
  { apply (list_elem_of_lookup_2 _ 1). vm_compute. reflexivity. }
  split; [exact Hruns|]. split; [exact Hin|].
  exact (prepareTemplateStyles_receives_only_styles
           Examples.exampleGetTemplateElement Examples.examplePrepareTemplateDom
           Examples.exampleNewTemplate Examples.examplePrepareTemplateStyles
           Examples.shadyWindow Examples.renderedOnce _ "x-foo" Hruns Hin).
Defined.

(** The first render with ApplyShim on a native platform: the style
    element is back in front of the paragraph. *)
Lemma render_first_template_content_witness :
  cacheAllocated (loadModule Examples.applyShimWindow) ∧
  needsStyleFixup (loadModule Examples.applyShimWindow) = true ∧
  hostForNode Examples.shadowRoot = Some "x-foo#1" ∧
  ("x-foo" ∉ shadyRenderSet (loadModule Examples.applyShimWindow)) ∧
  window_ShadyCSS (loadModule Examples.applyShimWindow)
    = Some (mkShadyCSS true true) ∧
  templateFor Examples.exampleGetTemplateElement Examples.examplePrepareTemplateDom
    Examples.exampleNewTemplate "x-foo" (loadModule Examples.applyShimWindow)
    Examples.styledParagraph
    = mkTemplate [Element "style" [Text "p{color:red}"];
                  Element "p" [Comment ""; Comment ""]] [3%Z] ∧
  ∃ template styleTemplate st2 st' evs,
    extractStylesFromTemplate 1 [] (Examples.exampleFactory "x-foo")
      Examples.styledParagraph
      (markScope "x-foo" (loadModule Examples.applyShimWindow))
      = Return styleTemplate st2 ∧
    styleTemplate = [Element "style" [Text "p{color:red}"]] ∧
    events st2 = evs ∧
    Forall isPrepareTemplateDom evs ∧
    Examples.exampleRender 1 Examples.styledParagraph Examples.shadowRoot "x-foo"
      (loadModule Examples.applyShimWindow) = Return tt st' ∧
    events st' = events st2 ++
      [PrepareTemplateStyles styleTemplate "x-foo";
       StyleElement "x-foo#1";
       BaseRender Examples.styledParagraph Examples.shadowRoot (Some "x-foo")] ∧
    cached st' (cacheKey Examples.styledParagraph "x-foo")
      (strings Examples.styledParagraph) = Some template ∧
    content (getTemplate st' template) =
      [Element "style" [Text "p{color:red}"];
       Element "p" [Comment ""; Comment ""]].
Proof.
  assert ("x-foo" ∉ shadyRenderSet (loadModule Examples.applyShimWindow)) as Hnot
    by (apply not_elem_of_empty).
  split; [apply loadModule_cacheAllocated|]. split; [reflexivity|].
  split; [reflexivity|]. split; [exact Hnot|]. split; [reflexivity|].
  split; [reflexivity|].
  refine (render_first_template_content
            Examples.exampleGetTemplateElement Examples.examplePrepareTemplateDom
            Examples.exampleNewTemplate Examples.examplePrepareTemplateStyles
            1 Examples.styledParagraph Examples.shadowRoot "x-foo" "x-foo#1"
            (mkShadyCSS true true) (loadModule Examples.applyShimWindow)
            [Element "style" [Text "p{color:red}"];
             Element "p" [Comment ""; Comment ""]] [3%Z]
            [Element "style" [Text "p{color:red}"]]
            (loadModule_cacheAllocated Examples.applyShimWindow)
            eq_refl eq_refl Hnot eq_refl eq_refl _ eq_refl).
  intros [|i] Hi; [exact I|simpl in Hi; lia].
Defined.

(** The template rendered for scope x-foo, and then for scope x-bar:
    the template of x-foo is as the first render left it. *)
Lemma render_leaves_other_scopes_witness :
  rtc (anyCall Examples.exampleGetTemplateElement Examples.examplePrepareTemplateDom
         Examples.exampleNewTemplate Examples.examplePrepareTemplateStyles)
      (loadModule Examples.shadyWindow) Examples.renderedOnce ∧
  cached Examples.renderedOnce "html--x-foo" 2 = Some 0 ∧
  (∀ r, "html--x-foo" ≠ cacheKey r "x-bar") ∧
  finalState (Examples.exampleRender 1 Examples.styledParagraph Examples.shadowRoot
                "x-bar" Examples.renderedOnce) = Some Examples.renderedForBoth ∧
  cached Examples.renderedForBoth "html--x-foo" 2 = Some 0 ∧
  templates Examples.renderedForBoth !! 0 = templates Examples.renderedOnce !! 0.
Proof.
  assert (rtc (anyCall Examples.exampleGetTemplateElement
                 Examples.examplePrepareTemplateDom
                 Examples.exampleNewTemplate Examples.examplePrepareTemplateStyles)
              (loadModule Examples.shadyWindow) Examples.renderedOnce) as Hcalls.
  { apply rtc_once.
    apply call_render with (fuel := 1) (result := Examples.styledParagraph)
      (container := Examples.shadowRoot) (scopeName := "x-foo").
    vm_compute. reflexivity. }
  assert (cached Examples.renderedOnce "html--x-foo" 2 = Some 0) as Hc
    by (vm_compute; reflexivity).
  assert (∀ r, "html--x-foo" ≠ cacheKey r "x-bar") as Hkey.
  { intros r H. unfold cacheKey in H.
    pose proof (f_equal String.length H) as Hlen.
    rewrite !length_append in Hlen. simpl in Hlen.
    destruct (type r) as [|a [|b [|c [|d [|e t]]]]]; simpl in Hlen; try lia.
    simpl in H. discriminate H. }
  assert (finalState (Examples.exampleRender 1 Examples.styledParagraph
                        Examples.shadowRoot "x-bar" Examples.renderedOnce)
          = Some Examples.renderedForBoth) as Hr by (vm_compute; reflexivity).
  split; [exact Hcalls|]. split; [exact Hc|]. split; [exact Hkey|].
  split; [exact Hr|].
  exact (render_leaves_other_scopes_alone
           Examples.exampleGetTemplateElement Examples.examplePrepareTemplateDom
           Examples.exampleNewTemplate Examples.examplePrepareTemplateStyles
           "x-bar" Examples.shadyWindow Examples.renderedOnce 1
           Examples.styledParagraph Examples.shadowRoot "html--x-foo" 2 0
           Examples.renderedForBoth Hcalls Hc Hkey Hr).
Defined.

(** * Extraction from templates with parts of increasing indices *)

Lemma visitStyle_sink_irrelevant node l sink :
  (visitStyle node l sink).1 = (visitStyle node l []).1.
Proof. unfold visitStyle. by destruct (isStyle node). Qed.

Lemma scanStyles_cons l node nodes :
  scanStyles l (node :: nodes) = scanStyles (visitStyle node l []).1 nodes.
Proof. done. Qed.

Lemma scanStyles_index nodes : ∀ l,
  index (scanStyles l nodes) = (index l + Z.of_nat (length nodes))%Z ∧
  partIndex (scanStyles l nodes) = partIndex l ∧
  nodesToRemove (scanStyles l nodes) = nodesToRemove l ++ stylePositions (index l) nodes.
Proof.
  induction nodes as [|node nodes IH]; intros l.
  { simpl. rewrite app_nil_r. split; [lia|done]. }
  rewrite scanStyles_cons. destruct (IH (visitStyle node l []).1) as (Hi & Hk & Hr).
  destruct (visitStyle_index node l []) as [Hi1 Hk1].
  rewrite Hi, Hk, Hr, Hi1, Hk1, visitStyle_nodesToRemove. simpl length.
  split; [lia|]. split; [done|]. simpl. by rewrite <- app_assoc.
Qed.

Lemma scanStyles_ext nodes : ∀ l l',
  partDelta l = partDelta l' → disableUntil l = disableUntil l' → index l = index l' →
  partDelta (scanStyles l nodes) = partDelta (scanStyles l' nodes) ∧
  disableUntil (scanStyles l nodes) = disableUntil (scanStyles l' nodes).
Proof.
  induction nodes as [|node nodes IH]; intros l l' Hd Hu Hi; [done|].
  rewrite !scanStyles_cons. apply IH; unfold visitStyle; rewrite ?Hd, ?Hu, ?Hi;
    by destruct (isStyle node).
Qed.

Lemma walk_app {A} (body : Node → A → M A) a b acc st :
  walk body (a ++ b) acc st =
    match walk body a acc st with
    | Return acc' st' => walk body b acc' st'
    | Throw e st' => Throw e st'
    | OutOfFuel => OutOfFuel
    | StaleWalker => StaleWalker
    end.
Proof.
  revert acc st. induction a as [|n a IH]; intros acc st; [done|].
  simpl. unfold mbind, M_bind, bind.
  destruct (body n acc st) as [acc1 st1|e st1| |]; try done.
Qed.

Lemma increasingFrom_lookup ps : ∀ lo i j a b,
  increasingFrom lo ps → ps !! i = Some a → ps !! j = Some b → i < j → (a < b)%Z.
Proof.
  induction ps as [|p ps IH]; intros lo i j a b Hinc Hi Hj Hlt; [done|].
  destruct Hinc as [Hp Hps]. destruct j as [|j]; [lia|]. simpl in Hj.
  destruct i as [|i].
  - injection Hi as <-. apply increasingFrom_above in Hps.
    rewrite Forall_forall in Hps. apply Hps. by eapply list_elem_of_lookup_2.
  - simpl in Hi. eapply (IH p i j); try done. lia.
Qed.

Lemma increasingFrom_app lo a b :
  increasingFrom lo (a ++ b) → increasingFrom lo a.
Proof.
  revert lo. induction a as [|p a IH]; intros lo; [done|].
  simpl. intros [Hp H]. split; [done|]. by apply IH.
Qed.

(** Positions within [pre] are decided within [pre]. *)
Lemma reindexFrom_app pre : ∀ l rest p,
  (p ≤ index l + Z.of_nat (length pre))%Z →
  (index l < p)%Z →
  reindexFrom l (pre ++ rest) p = reindexFrom l pre p.
Proof.
  induction pre as [|node pre IH]; intros l rest p Hle Hlt; [simpl in Hle; lia|].
  simpl. destruct (visitStyle_index node l []) as [Hi _].
  case_decide; [done|]. apply IH; rewrite Hi; simpl length in Hle; lia.
Qed.

(** The position right after [pre]. *)
Lemma reindexFrom_at pre : ∀ l node post,
  reindexFrom l (pre ++ node :: post) (index l + Z.of_nat (length pre) + 1) =
    let l1 := (visitStyle node (scanStyles l pre) []).1 in
    if decide (index l1 < disableUntil l1)%Z then (-1)%Z
    else (index l1 + partDelta l1)%Z.
Proof.
  induction pre as [|n pre IH]; intros l node post.
  - simpl. destruct (visitStyle_index node l []) as [Hi _].
    rewrite decide_True by (rewrite Hi; simpl; lia).
    case_decide; [done|]. rewrite Hi. simpl. lia.
  - rewrite scanStyles_cons. cbn [app reindexFrom].
    destruct (visitStyle_index n l []) as [Hi _].
    rewrite decide_False by (rewrite Hi; simpl length; lia).
    etransitivity; [|apply (IH (visitStyle n l []).1 node post)].
    f_equal. rewrite Hi. simpl length. lia.
Qed.

(** The traversal of the nodes [rest], when the parts in [todo] sit on
    them at increasing positions and the cursor cannot go beyond them:
    the part that follows, if there is one, sits further on than
    [rest], or sits where the cursor has been already. *)
Section PartsWithin.

Variable extractValue : Value → list Node → M (list Node).

Variable result : TemplateResult.

Variable template : nat.

Variable c : list Node.

Lemma walk_increasing_upto rest : ∀ l sink st done todo later,
  templates st !! template = Some (mkTemplate c (done ++ todo ++ later)) →
  partIndex l = length done →
  increasingFrom (index l) todo →
  Forall (fun q => (q ≤ index l + Z.of_nat (length rest))%Z) todo →
  (∀ q, head later = Some q →
     (q ≤ default (index l) (last todo))%Z
     ∨ (index l + Z.of_nat (length rest) < q)%Z) →
  (∀ i s st0, length done ≤ i < length done + length todo →
     extractValue (default VUndefined (values result !! i)) s st0 = Return s st0) →
  ∃ l',
    walk (visitNode extractValue result template) rest (l, sink) st
      = Return (l', sink ++ List.filter isStyle rest)
          (set_templates
             (<[template :=
                  mkTemplate c (done ++ map (reindexFrom l rest) todo ++ later)]>
                (templates st)) st) ∧
    partIndex l' = length done + length todo ∧
    index l' = index (scanStyles l rest) ∧
    partDelta l' = partDelta (scanStyles l rest) ∧
    disableUntil l' = disableUntil (scanStyles l rest) ∧
    nodesToRemove l' = nodesToRemove (scanStyles l rest).
Proof.
  induction rest as [|node rest IH];
    intros l sink st done todo later Ht Hk Hinc Hin Hout Hx.
  { destruct todo as [|p more].
    - exists l. simpl. rewrite !app_nil_r.
      rewrite list_insert_id by done. rewrite set_templates_same.
      repeat split; try done. lia.
    - exfalso. destruct Hinc as [Hp _]. apply Forall_cons in Hin as [Hq _].
      simpl in Hq. lia. }
  rewrite walk_cons, visitNode_pair, scanStyles_cons.
  pose proof (visitStyle_index node l sink) as [Hi1 Hk1].
  pose proof (visitStyle_sink node l sink) as Hs1.
  pose proof (visitStyle_sink_irrelevant node l sink) as Hirr.
  set (l1 := (visitStyle node l sink).1) in *.
  set (sink1 := (visitStyle node l sink).2) in *.
  rewrite <- Hirr.
  assert (sink1 ++ List.filter isStyle rest
          = sink ++ List.filter isStyle (node :: rest)) as Hsink.
  { rewrite Hs1. simpl. destruct (isStyle node); simpl;
      by rewrite <- ?app_assoc, ?app_nil_r. }
  unfold visitPart. rewrite (getTemplate_Some _ _ _ Ht).
  cbn [parts]. rewrite Hk1, Hk. rewrite lookup_app_r by lia.
  rewrite Nat.sub_diag.
  destruct todo as [|p more].
  - (* no part before [later] is left *)
    assert ((([] ++ later) !! 0 = None) ∨
            ∃ q, ([] ++ later) !! 0 = Some q ∧ q ≠ index l1) as Hhead.
    { destruct later as [|q later']; [by left|]. right. exists q. split; [done|].
      destruct (Hout q eq_refl) as [Hq|Hq]; simpl in Hq; simpl length in *; lia. }
    destruct (IH l1 sink1 st done [] later Ht (eq_trans Hk1 Hk) I
                (Forall_nil_2 _)) as (l' & Hw & Hl').
    { intros q Hq. destruct (Hout q Hq) as [Hle|Hgt]; simpl in *; [left|right]; lia. }
    { intros i s st0 Hi. simpl in Hi. lia. }
    exists l'. rewrite <- Hsink. simpl map in *.
    destruct Hhead as [-> | (q & -> & Hne)]; [|rewrite decide_False by done];
      by rewrite Hw.
  - destruct Hinc as [Hp Hmore]. apply Forall_cons in Hin as [Hp' Hin].
    cbn [app lookup list_lookup].
    assert (∀ d, default d (last (p :: more)) = default p (last more)) as Hlast.
    { intros d. destruct more as [|p2 more']; [done|]. rewrite last_cons_cons.
      destruct (last (p2 :: more')) eqn:E; [done|]. by apply last_None in E. }
    rewrite (Hlast (index l)) in Hout.
    assert (map (reindexFrom l (node :: rest)) more
            = map (reindexFrom l1 rest) more) as Hlater.
    { rewrite reindexFrom_later.
      - apply Forall_fmap_ext, Forall_forall. intros q _.
        apply reindexFrom_ext; unfold l1, visitStyle; by destruct (isStyle node).
      - apply increasingFrom_above in Hmore.
        eapply Forall_impl; [exact Hmore|]. intros q Hq. cbv beta in Hq. lia. }
    assert (reindexFrom l (node :: rest) p
            = if decide (p = index l1)
              then if decide (index l1 < disableUntil l1)%Z then (-1)%Z
                   else (p + partDelta l1)%Z
              else reindexFrom l1 rest p) as Hhere.
    { simpl. rewrite <- Hirr. fold l1. done. }
    cbn [map]. rewrite Hhere, Hlater.
    destruct (decide (p = index l1)) as [->|Hne].
    + set (new := if decide (index l1 < disableUntil l1)%Z then (-1)%Z
                  else (index l1 + partDelta l1)%Z).
      set (st1 := set_templates
                    (<[template := mkTemplate c (done ++ new :: more ++ later)]>
                       (templates st)) st).
      assert ((if decide (index l1 < disableUntil l1)%Z
               then setPartIndex template (length done) (-1) st
               else setPartIndex template (length done)
                      (index l1 + partDelta l1) st) = st1) as Hst1.
      { unfold st1, new, setPartIndex, getTemplate. rewrite Ht. simpl.
        rewrite !insert_app_r_alt by lia. rewrite Nat.sub_diag. simpl.
        by destruct (decide _). }
      rewrite Hst1, Hx, content_eqb_refl by (simpl; lia).
      set (l2 := mkLocals _ _ _ _ _).
      destruct (IH l2 sink1 st1 (done ++ [new]) more later) as (l' & Hw & Hl').
      { unfold st1. simpl.
        rewrite list_lookup_insert_eq by by eapply lookup_lt_Some.
        by rewrite <- app_assoc. }
      { unfold l2. simpl. rewrite length_app. simpl. lia. }
      { done. }
      { eapply Forall_impl; [exact Hin|]. intros q Hq. cbv beta in Hq.
        unfold l2. simpl in *. lia. }
      { intros q Hq. destruct (Hout q Hq) as [Hle|Hgt]; [by left|right].
        unfold l2. simpl in *. lia. }
      { intros i s st0 Hi. apply Hx. rewrite length_app in Hi. simpl in *. lia. }
      exists l'. rewrite Hw, Hsink.
      assert (map (reindexFrom l2 rest) more = map (reindexFrom l1 rest) more)
        as -> by (apply Forall_fmap_ext, Forall_forall; intros q _;
                  by apply reindexFrom_ext).
      destruct Hl' as (E1 & E2 & E3 & E4 & E5).
      destruct (scanStyles_ext rest l2 l1 eq_refl eq_refl eq_refl) as [D1 D2].
      destruct (scanStyles_index rest l2) as (I1 & _ & I3).
      destruct (scanStyles_index rest l1) as (J1 & _ & J3).
      split; [|repeat split].
      * f_equal. unfold st1. rewrite set_templates_twice, templates_set_templates.
        by rewrite list_insert_insert_eq, <- app_assoc.
      * rewrite E1, length_app. simpl. lia.
      * by rewrite E2, I1, J1.
      * by rewrite E3.
      * by rewrite E4.
      * by rewrite E5, I3, J3.
    + destruct (IH l1 sink1 st done (p :: more) later Ht (eq_trans Hk1 Hk))
        as (l' & Hw & Hl').
      { split; [lia|done]. }
      { constructor; [simpl length in Hp'; lia|].
        eapply Forall_impl; [exact Hin|]. intros q Hq. cbv beta in Hq.
        simpl length in Hq. lia. }
      { intros q Hq. rewrite (Hlast (index l1)). destruct (Hout q Hq) as [Hle|Hgt]; [by left|right].
        simpl length in Hgt. lia. }
      { exact Hx. }
      exists l'. rewrite Hw, Hsink. done.
Qed.

End PartsWithin.

Lemma visitStyle_ext node l l' sink sink' :
  partDelta l = partDelta l' → disableUntil l = disableUntil l' → index l = index l' →
  partDelta (visitStyle node l sink).1 = partDelta (visitStyle node l' sink').1 ∧
  disableUntil (visitStyle node l sink).1 = disableUntil (visitStyle node l' sink').1 ∧
  index (visitStyle node l sink).1 = index (visitStyle node l' sink').1.
Proof.
  intros Hd Hu Hi. unfold visitStyle. rewrite Hd, Hu, Hi. by destruct (isStyle node).
Qed.

Lemma extractStylesFromValue_nullish fuel sink templateFactory value st :
  value = VNull ∨ value = VUndefined →
  ∃ message,
    extractStylesFromValue fuel sink templateFactory value st
      = Throw (TypeError message) st.
Proof. intros [-> | ->]; destruct fuel; by eexists. Qed.

Lemma traverseTemplate_throws fuel templateFactory sink result template st c ps k p :
  templates st !! template = Some (mkTemplate c ps) →
  increasingFrom (-1) (take (S k) ps) →
  ps !! k = Some p →
  (p < Z.of_nat (length (walkerNodes c)))%Z →
  (∀ i, i < k → inert (default VUndefined (values result !! i))) →
  default VUndefined (values result !! k) = VNull
    ∨ default VUndefined (values result !! k) = VUndefined →
  ∃ message,
    traverseTemplate
      (fun v s => extractStylesFromValue fuel s templateFactory v)
      sink result template st
    = Throw (TypeError message)
        (set_templates
           (<[template :=
                mkTemplate c
                  (map (reindexFrom initialLocals (walkerNodes c)) (take (S k) ps)
                   ++ drop (S k) ps)]>
              (templates st)) st).
Proof.
  intros Ht Hinc Hk Hp Hinert Hnull.
  assert (∀ i q, i ≤ k → ps !! i = Some q → (-1 < q)%Z) as Hpos.
  { intros i q Hi Hq. pose proof (increasingFrom_above _ _ Hinc) as Habove.
    rewrite Forall_forall in Habove. apply Habove.
    apply (list_elem_of_lookup_2 _ i). by rewrite lookup_take_lt by lia. }
  assert (∀ i q, i < k → ps !! i = Some q → (q < p)%Z) as Hbefore.
  { intros i q Hi Hq.
    apply (increasingFrom_lookup _ _ i k q p Hinc); [| |done].
    - by rewrite lookup_take_lt by lia.
    - by rewrite lookup_take_lt by lia. }
  assert (-1 < p)%Z as Hp0 by by apply (Hpos k).
  destruct (lookup_lt_is_Some_2 (walkerNodes c) (Z.to_nat p)) as [node Hnode]; [lia|].
  pose proof (take_drop_middle _ _ _ Hnode) as Hnodes.
  pose proof (take_drop_middle _ _ _ Hk) as Hps.
  set (pre := take (Z.to_nat p) (walkerNodes c)) in *.
  set (post := drop (S (Z.to_nat p)) (walkerNodes c)) in *.
  assert (length pre = Z.to_nat p) as Hpre.
  { unfold pre. rewrite length_take. apply lookup_lt_Some in Hnode. lia. }
  assert (length (take k ps) = k) as Hlen.
  { rewrite length_take. apply lookup_lt_Some in Hk. lia. }
  unfold traverseTemplate, mbind, M_bind, bind, get, modify, mret, M_ret, ret.
  rewrite (getTemplate_Some _ _ _ Ht). cbn [content].
  rewrite <- Hnodes, walk_app.
  destruct (walk_increasing_upto
              (fun v s => extractStylesFromValue fuel s templateFactory v)
              result template c pre initialLocals sink st [] (take k ps)
              (p :: drop (S k) ps)) as (l' & Hw & Hk' & Hi' & Hd' & Hu' & _).
  { simpl. by rewrite Hps. }
  { done. }
  { eapply increasingFrom_app. by rewrite <- (take_S_r _ _ _ Hk). }
  { apply Forall_forall. intros q Hq. apply list_elem_of_lookup in Hq as [i Hq].
    apply lookup_take_Some in Hq as [Hq Hi].
    pose proof (Hbefore _ _ Hi Hq). simpl. lia. }
  { intros q [= <-]. right. simpl. lia. }
  { intros i s st0 Hi. apply extractStylesFromValue_inert. apply Hinert.
    simpl in Hi. lia. }
  rewrite Hw. clear Hw.
  rewrite walk_cons, visitNode_pair.
  set (sinkA := sink ++ List.filter isStyle pre).
  set (stA := set_templates _ st).
  destruct (scanStyles_index pre initialLocals) as (Hsi & _ & _).
  destruct (visitStyle_ext node l' (scanStyles initialLocals pre) sinkA []
              Hd' Hu' Hi') as (E1 & E2 & E3).
  destruct (visitStyle_index node l' sinkA) as [Hi1 Hk1].
  set (l1 := (visitStyle node l' sinkA).1) in *.
  assert (index l1 = p) as Hl1.
  { rewrite Hi1, Hi', Hsi. simpl. lia. }
  unfold visitPart.
  assert (templates stA !! template
          = Some (mkTemplate c (map (reindexFrom initialLocals pre) (take k ps)
                                ++ p :: drop (S k) ps))) as HtA.
  { unfold stA. simpl. by rewrite list_lookup_insert_eq by by eapply lookup_lt_Some. }
  rewrite (getTemplate_Some _ _ _ HtA). cbn [parts].
  rewrite Hk1, Hk'. simpl length. rewrite Hlen.
  rewrite lookup_app_r by (rewrite length_map; lia).
  rewrite length_map, Hlen, Nat.sub_diag. cbn [lookup list_lookup].
  rewrite decide_True by done.
  match goal with |- context [extractStylesFromValue fuel ?s templateFactory ?v ?st1] =>
    destruct (extractStylesFromValue_nullish fuel s templateFactory v st1 Hnull)
      as [message Hthrow]
  end.
  exists message. rewrite Hthrow. f_equal.
  assert (map (reindexFrom initialLocals (pre ++ node :: post)) (take (S k) ps)
          = map (reindexFrom initialLocals pre) (take k ps)
            ++ [if decide (index l1 < disableUntil l1)%Z then (-1)%Z
                else (p + partDelta l1)%Z]) as ->.
  { rewrite (take_S_r _ _ _ Hk), map_app. f_equal.
    - apply Forall_fmap_ext, Forall_forall. intros q Hq.
      apply list_elem_of_lookup in Hq as [i Hq].
      apply lookup_take_Some in Hq as [Hq Hi].
      pose proof (Hbefore _ _ Hi Hq).
      assert (-1 < q)%Z by (apply (Hpos i); [lia|done]).
      apply reindexFrom_app; simpl; lia.
    - simpl. f_equal.
      replace p with (index initialLocals + Z.of_nat (length pre) + 1)%Z at 1
        by (simpl; lia).
      rewrite reindexFrom_at. cbv zeta. rewrite <- E1, <- E2, <- E3, Hl1. done. }
  unfold setPartIndex. rewrite (getTemplate_Some _ _ _ HtA). cbn [content parts].
  destruct (decide _);
    rewrite insert_app_r_alt by (rewrite length_map; lia);
    rewrite length_map, Hlen, Nat.sub_diag; cbn [insert list_insert];
    unfold stA; rewrite !set_templates_twice, !templates_set_templates;
    by rewrite !list_insert_insert_eq, <- !app_assoc.
Qed.

Section NullValue.

Variable getTemplateElement : TemplateResult → list Node.

Variable prepareTemplateDom : list Node → string → list Node.

Variable newTemplate : TemplateResult → list Node → Template.

Variable scopeName : string.

Local Abbreviation factory :=
  (shadyTemplateFactory getTemplateElement prepareTemplateDom newTemplate scopeName).
Local Abbreviation templateFor :=
  (templateFor getTemplateElement prepareTemplateDom newTemplate scopeName).

(** X8.  Extraction from a template whose part [k] has the value [null]
    or [undefined] (or no value at all), the parts up to it having
    increasing indices and those before it inert values, whatever the
    later parts are: the call throws a TypeError
    when the cursor reaches that part.  By then the parts up to and
    including [k] have been disabled or shifted as if extraction would
    complete, the later parts have not, and, removal coming after the
    loop, every style element is still in the template. *)
Theorem extraction_throws_on_null_value fuel sink result st c ps k p :
  cacheAllocated st →
  templateFor st result = mkTemplate c ps →
  increasingFrom (-1) (take (S k) ps) →
  ps !! k = Some p →
  (p < Z.of_nat (length (walkerNodes c)))%Z →
  (∀ i, i < k → inert (default VUndefined (values result !! i))) →
  default VUndefined (values result !! k) = VNull
    ∨ default VUndefined (values result !! k) = VUndefined →
  ∃ message template st',
    extractStylesFromTemplate fuel sink factory result st
      = Throw (TypeError message) st' ∧
    cached st' (cacheKey result scopeName) (strings result) = Some template ∧
    content (getTemplate st' template) = c ∧
    parts (getTemplate st' template)
      = map (reindexFrom initialLocals (walkerNodes c)) (take (S k) ps)
        ++ drop (S k) ps.
Proof.
  intros Ha Hfor Hinc Hk Hp Hinert Hnull.
  destruct (factory_templateFor getTemplateElement prepareTemplateDom newTemplate
              scopeName result st Ha) as (loc & st1 & Hf & Ht & Hc).
  rewrite Hfor in Ht.
  unfold extractStylesFromTemplate, extractStylesFromTemplateWith.
  unfold mbind at 1, M_bind at 1, bind at 1. rewrite Hf.
  destruct (traverseTemplate_throws fuel factory sink result loc st1 c ps k p
              Ht Hinc Hk Hp Hinert Hnull) as [message Hthrow].
  rewrite Hthrow. eexists message, loc, _. split; [reflexivity|].
  split; [exact Hc|]. unfold getTemplate. rewrite templates_set_templates.
  by rewrite list_lookup_insert_eq by by eapply lookup_lt_Some.
Qed.

End NullValue.

(** ** Parts and the nodes they sit on *)

Lemma walkerNodes_leaves cs : Forall isLeaf cs → walkerNodes cs = cs.
Proof.
  induction 1 as [|c cs [Hc _] _ IH]; [done|].
  rewrite walkerNodes_cons, IH. destruct c; simpl in *; by subst.
Qed.

Lemma keptNodes_skip cs : ∀ rest,
  Forall isLeaf cs → keptNodes (length cs) (cs ++ rest) = keptNodes 0 rest.
Proof.
  induction cs as [|c cs IH]; intros rest H; [done|].
  apply Forall_cons in H as [[_ Hc] H]. simpl. rewrite Hc. by apply IH.
Qed.

Lemma flatFrom_skip cs : ∀ rest,
  Forall isLeaf cs → flatFrom 0 rest → flatFrom (length cs) (cs ++ rest).
Proof.
  induction cs as [|c cs IH]; intros rest H Hrest; [done|].
  apply Forall_cons in H as [[_ Hc] H]. simpl. rewrite Hc. by apply IH.
Qed.

Lemma flatStyles_cons node cs :
  flatStyles (node :: cs) ↔ flatStyles [node] ∧ flatStyles cs.
Proof.
  unfold flatStyles. rewrite walkerNodes_cons, Forall_app.
  change (walkerNodes [node]) with (subtree node ++ []). by rewrite app_nil_r.
Qed.

(** The traversal of the content without its style elements, read off
    the traversal of the content. *)
Lemma walkerNodes_contentWithoutStyles top :
  flatStyles top →
  (∀ rest, keptNodes 0 (walkerNodes top ++ rest)
           = keptNodes 0 (walkerNodes top) ++ keptNodes 0 rest) ∧
  (∀ rest, flatFrom 0 rest → flatFrom 0 (walkerNodes top ++ rest)) ∧
  walkerNodes (contentWithoutStyles top)
    = map withoutStyles (keptNodes 0 (walkerNodes top)).
Proof.
  assert (∀ node, flatStyles [node] →
    (∀ rest, keptNodes 0 (subtree node ++ rest)
             = keptNodes 0 (subtree node) ++ keptNodes 0 rest) ∧
    (∀ rest, flatFrom 0 rest → flatFrom 0 (subtree node ++ rest)) ∧
    walkerNodes (contentWithoutStyles [node])
      = map withoutStyles (keptNodes 0 (subtree node))) as Hnode.
  { induction node as [name cs IH|d|d] using Node_induction; intros Hflat;
      [|done..].
    unfold flatStyles in Hflat.
    change (walkerNodes [Element name cs]) with (subtree (Element name cs) ++ [])
      in Hflat.
    rewrite app_nil_r, subtree_Element in Hflat.
    apply Forall_cons in Hflat as [Hstyle Hflat].
    destruct (isStyle (Element name cs)) eqn:E.
    - specialize (Hstyle eq_refl). simpl in Hstyle.
      rewrite subtree_Element, (walkerNodes_leaves _ Hstyle).
      split; [|split].
      + intros rest. cbn [app keptNodes]. rewrite E. simpl childNodesOf.
        rewrite keptNodes_skip by done.
        rewrite <- (app_nil_r cs) at 2. by rewrite keptNodes_skip.
      + intros rest Hrest. cbn [app flatFrom]. rewrite E. simpl childNodesOf.
        split; [done|]. by apply flatFrom_skip.
      + cbn [contentWithoutStyles keptNodes]. rewrite E. simpl childNodesOf.
        rewrite <- (app_nil_r cs) at 2. by rewrite keptNodes_skip.
    - assert ((∀ rest, keptNodes 0 (walkerNodes cs ++ rest)
                       = keptNodes 0 (walkerNodes cs) ++ keptNodes 0 rest) ∧
              (∀ rest, flatFrom 0 rest → flatFrom 0 (walkerNodes cs ++ rest)) ∧
              walkerNodes (contentWithoutStyles cs)
                = map withoutStyles (keptNodes 0 (walkerNodes cs))) as (K & F & W).
      { clear Hstyle E. induction IH as [|c cs Hc _ IHcs]; [done|].
        rewrite walkerNodes_cons in Hflat. apply Forall_app in Hflat as [H1 H2].
        destruct Hc as (Kc & Fc & Wc).
        { unfold flatStyles. change (walkerNodes [c]) with (subtree c ++ []).
          by rewrite app_nil_r. }
        destruct (IHcs H2) as (K & F & W).
        split; [|split].
        - intros rest. rewrite walkerNodes_cons, <- app_assoc, !Kc, K.
          by rewrite app_assoc.
        - intros rest Hrest. rewrite walkerNodes_cons, <- app_assoc. by apply Fc, F.
        - rewrite walkerNodes_cons, Kc, map_app, <- W, <- Wc.
          simpl. destruct (isStyle c); [done|].
          change (walkerNodes [withoutStyles c]) with (subtree (withoutStyles c) ++ []).
          by rewrite app_nil_r, walkerNodes_cons. }
      rewrite subtree_Element. split; [|split].
      + intros rest. cbn [app keptNodes]. rewrite E. by rewrite K.
      + intros rest Hrest. cbn [app flatFrom]. rewrite E. by apply F.
      + cbn [contentWithoutStyles keptNodes]. rewrite E.
        change (walkerNodes [withoutStyles (Element name cs)])
          with (Element name (contentWithoutStyles cs)
                :: walkerNodes (contentWithoutStyles cs) ++ []).
        rewrite app_nil_r, W. done. }
  induction top as [|c cs IH]; intros Hflat; [done|].
  apply flatStyles_cons in Hflat as [H1 H2].
  destruct (Hnode c H1) as (Kc & Fc & Wc). destruct (IH H2) as (K & F & W).
  split; [|split].
  - intros rest. rewrite walkerNodes_cons, <- app_assoc, !Kc, K. by rewrite app_assoc.
  - intros rest Hrest. rewrite walkerNodes_cons, <- app_assoc. by apply Fc, F.
  - rewrite walkerNodes_cons, Kc, map_app, <- W, <- Wc.
    simpl. destruct (isStyle c); [done|].
    change (walkerNodes [withoutStyles c]) with (subtree (withoutStyles c) ++ []).
    by rewrite app_nil_r, walkerNodes_cons.
Qed.

Lemma inStyle_cons node rest j : inStyle rest j → inStyle (node :: rest) (S j).
Proof.
  intros (s & style & Hs & Hst & Hj). exists (S s), style. repeat split; try done; lia.
Qed.

Lemma inStyle_uncons node rest j :
  inStyle (node :: rest) (S j) →
  (isStyle node = true ∧ j < length (childNodesOf node)) ∨ inStyle rest j.
Proof.
  intros ([|s] & style & Hs & Hst & Hj).
  - injection Hs as ->. left. split; [done|]. simpl in Hj. lia.
  - right. exists s, style. repeat split; try done; lia.
Qed.

(** What the loop does to a part at the position of the node [j]
    places on: it is disabled when the node is in a style element, and
    otherwise gets the number of the nodes kept before it, which is
    the position of the node among those kept. *)
Lemma reindexFrom_position rest : ∀ l skip j node,
  flatFrom skip rest →
  (disableUntil l ≤ index l + 1 + Z.of_nat skip)%Z →
  (0 < skip → disableUntil l = (index l + 1 + Z.of_nat skip)%Z) →
  rest !! j = Some node →
  (reindexFrom l rest (index l + 1 + Z.of_nat j) = (-1)%Z ∧
   (j < skip ∨ inStyle rest j))
  ∨ (skip ≤ j ∧ ¬ inStyle rest j ∧
     reindexFrom l rest (index l + 1 + Z.of_nat j)
       = (index l + 1 + partDelta l + Z.of_nat skip
          + Z.of_nat (length (keptNodes skip (take j rest))))%Z ∧
     keptNodes skip rest
       = keptNodes skip (take j rest) ++ node :: keptNodes 0 (drop (S j) rest)).
Proof.
  induction rest as [|n0 rest IH]; intros l skip j node Hflat Hle Heq Hj; [done|].
  destruct (visitStyle_index n0 l []) as [Hi1 _].
  cbn [reindexFrom flatFrom keptNodes] in *.
  destruct j as [|j].
  - injection Hj as ->. rewrite decide_True by (rewrite Hi1; lia).
    unfold visitStyle in *. destruct (isStyle node) eqn:E; cbn [fst index disableUntil partDelta] in *.
    + left. rewrite decide_True by lia. split; [done|]. right.
      exists 0, node. repeat split; try done; lia.
    + destruct skip as [|skip].
      * right. rewrite decide_False by lia. split; [lia|]. split; [|split].
        -- intros ([|s] & style & Hs & Hst & Hj); [|lia].
           injection Hs as ->. congruence.
        -- simpl. lia.
        -- simpl. by rewrite drop_0.
      * left. rewrite decide_True by lia. split; [done|]. left. lia.
  - rewrite decide_False by (rewrite Hi1; lia). simpl in Hj.
    replace (index l + 1 + Z.of_nat (S j))%Z
      with (index (visitStyle n0 l []).1 + 1 + Z.of_nat j)%Z by lia.
    cbn [take drop keptNodes].
    unfold visitStyle in *. destruct (isStyle n0) eqn:E;
      cbn [fst index disableUntil partDelta] in *.
    + destruct Hflat as [-> Hflat].
      destruct (IH (mkLocals (partIndex l)
                      (partDelta l - (Z.of_nat (length (childNodesOf n0)) + 1))
                      (index l + 1 + (Z.of_nat (length (childNodesOf n0)) + 1))
                      (index l + 1) (nodesToRemove l ++ [(index l + 1)%Z]))
                   (length (childNodesOf n0)) j node Hflat)
        as [[Hr Hin]|(Hsk & Hnot & Hr & Hk)]; cbn [index disableUntil partDelta];
        try lia; try done.
      * left. split; [exact Hr|]. right. destruct Hin as [Hin|Hin].
        -- exists 0, n0. repeat split; try done; lia.
        -- by apply inStyle_cons.
      * right. split; [lia|]. split; [|split].
        -- intros [[_ Hlt]|Hin]%inStyle_uncons; [lia|done].
        -- cbn [index partDelta] in Hr. rewrite Hr. lia.
        -- exact Hk.
    + destruct skip as [|skip].
      * destruct (IH (mkLocals (partIndex l) (partDelta l) (disableUntil l)
                        (index l + 1) (nodesToRemove l)) 0 j node Hflat)
          as [[Hr Hin]|(Hsk & Hnot & Hr & Hk)]; cbn [index disableUntil partDelta];
          try lia; try done.
        -- left. split; [exact Hr|]. right. destruct Hin as [Hin|Hin]; [lia|].
           by apply inStyle_cons.
        -- right. split; [lia|]. split; [|split].
           ++ intros [[Hst _]|Hin]%inStyle_uncons; [congruence|done].
           ++ cbn [index partDelta] in Hr. rewrite Hr. simpl length. lia.
           ++ by rewrite Hk.
      * destruct (IH (mkLocals (partIndex l) (partDelta l) (disableUntil l)
                        (index l + 1) (nodesToRemove l)) skip j node Hflat)
          as [[Hr Hin]|(Hsk & Hnot & Hr & Hk)]; cbn [index disableUntil partDelta];
          try lia; try done.
        -- left. split; [exact Hr|]. destruct Hin as [Hin|Hin]; [left; lia|].
           right. by apply inStyle_cons.
        -- right. split; [lia|]. split; [|split].
           ++ intros [[Hst _]|Hin]%inStyle_uncons; [congruence|done].
           ++ cbn [index partDelta] in Hr. rewrite Hr. lia.
           ++ exact Hk.
Qed.

Section InSync.

Variable getTemplateElement : TemplateResult → list Node.

Variable prepareTemplateDom : list Node → string → list Node.

Variable newTemplate : TemplateResult → list Node → Template.

Variable scopeName : string.

Local Abbreviation factory :=
  (shadyTemplateFactory getTemplateElement prepareTemplateDom newTemplate scopeName).
Local Abbreviation templateFor :=
  (templateFor getTemplateElement prepareTemplateDom newTemplate scopeName).

(** X6.  Extraction keeps the parts in sync with the nodes.  For a
    template whose style elements hold leaves only, whose parts have
    increasing indices and whose values are inert: every style element
    is moved to the style template, in document order; the traversal of
    the template afterwards is the traversal before without the style
    elements and their children (the other nodes having lost the style
    elements below them); and a part that sat on the node at position
    [p] is disabled with index -1 when that node was a style element
    or a child of one, and otherwise has as index the number of nodes
    kept among those before position [p]: this is the position of its
    node in the traversal afterwards, the nodes before it there being
    the kept ones among those that were before it, the nodes after it
    the kept ones among those that were after it. *)
Theorem extraction_keeps_parts_on_their_nodes fuel sink result st c ps :
  cacheAllocated st →
  templateFor st result = mkTemplate c ps →
  flatStyles c →
  increasingFrom (-1) ps →
  (∀ i, i < length ps → inert (default VUndefined (values result !! i))) →
  ∃ template st',
    extractStylesFromTemplate fuel sink factory result st
      = Return (sink ++ List.filter isStyle (walkerNodes c)) st' ∧
    cached st' (cacheKey result scopeName) (strings result) = Some template ∧
    content (getTemplate st' template) = contentWithoutStyles c ∧
    walkerNodes (content (getTemplate st' template))
      = map withoutStyles (keptNodes 0 (walkerNodes c)) ∧
    length (parts (getTemplate st' template)) = length ps ∧
    ∀ i p node,
      ps !! i = Some p → walkerNodes c !! Z.to_nat p = Some node →
      (inStyle (walkerNodes c) (Z.to_nat p) ∧
       parts (getTemplate st' template) !! i = Some (-1)%Z)
      ∨ (¬ inStyle (walkerNodes c) (Z.to_nat p) ∧
         parts (getTemplate st' template) !! i
           = Some (Z.of_nat (length (keptNodes 0 (take (Z.to_nat p)
                                                    (walkerNodes c))))) ∧
         keptNodes 0 (walkerNodes c)
           = keptNodes 0 (take (Z.to_nat p) (walkerNodes c))
             ++ node :: keptNodes 0 (drop (S (Z.to_nat p)) (walkerNodes c)) ∧
         walkerNodes (content (getTemplate st' template))
           !! length (keptNodes 0 (take (Z.to_nat p) (walkerNodes c)))
           = Some (withoutStyles node)).
Proof.
  intros Ha Hfor Hflat Hinc Hinert.
  destruct (extractStylesFromTemplate_increasing getTemplateElement prepareTemplateDom
              newTemplate scopeName fuel sink result st c ps Ha Hfor Hinc Hinert)
    as (loc & st' & Hx & Hc & Hget).
  destruct (walkerNodes_contentWithoutStyles c Hflat) as (_ & F & W).
  specialize (F [] I). rewrite app_nil_r in F.
  exists loc, st'. rewrite Hx, Hget, removeNodes_stylePositions. cbn [content parts].
  split; [done|]. split; [done|]. split; [done|]. split; [exact W|].
  split; [by rewrite length_map|].
  intros i p node Hp Hnode.
  assert (-1 < p)%Z as Hp0.
  { apply increasingFrom_above in Hinc. rewrite Forall_forall in Hinc.
    apply Hinc. by eapply list_elem_of_lookup_2. }
  rewrite list_lookup_fmap, Hp. cbn [fmap option_fmap option_map].
  destruct (reindexFrom_position (walkerNodes c) initialLocals 0 (Z.to_nat p) node F)
    as [[Hr Hin]|(_ & Hnot & Hr & Hk)]; simpl; try lia; try done.
  - left. change (index initialLocals) with (-1)%Z in Hr.
    replace (-1 + 1 + Z.of_nat (Z.to_nat p))%Z with p in Hr by lia.
    rewrite Hr. split; [|done]. destruct Hin as [Hin|Hin]; [lia|done].
  - right. change (index initialLocals) with (-1)%Z in Hr.
    change (partDelta initialLocals) with 0%Z in Hr.
    replace (-1 + 1 + Z.of_nat (Z.to_nat p))%Z with p in Hr by lia.
    rewrite Hr. split; [done|]. split; [f_equal; lia|]. split; [exact Hk|].
    rewrite W, Hk, list_lookup_fmap.
    by rewrite list_lookup_middle.
Qed.

(** X10.  Extraction followed by [insertStyleInTemplate] of the
    extracted style element, for a template that starts with its only
    style element (parts of increasing indices within the template,
    inert values): extraction leaves the rest of the content, the parts
    on the style element or on a position counted for its children
    disabled and the others shifted down by one plus the number of
    children; putting the style element back gives the content the
    template had and shifts these parts back to where they were, the
    disabled ones staying disabled. *)
Theorem extract_then_insert_restores_template fuel sink result st style rest ps :
  cacheAllocated st →
  templateFor st result = mkTemplate (style :: rest) ps →
  isStyle style = true →
  styleFree (childNodesOf style) →
  styleFree rest →
  increasingFrom (-1) ps →
  Forall (fun p => (p < Z.of_nat (length (walkerNodes (style :: rest))))%Z) ps →
  (∀ i, i < length ps → inert (default VUndefined (values result !! i))) →
  ∃ template st1 st2,
    extractStylesFromTemplate fuel sink factory result st
      = Return (sink ++ [style]) st1 ∧
    cached st1 (cacheKey result scopeName) (strings result) = Some template ∧
    getTemplate st1 template
      = mkTemplate rest
          (map (fun p => if decide (p ≤ Z.of_nat (length (childNodesOf style)))%Z
                         then (-1)%Z
                         else (p - (1 + Z.of_nat (length (childNodesOf style))))%Z)
               ps) ∧
    insertStyleInTemplate template style st1 = Return tt st2 ∧
    getTemplate st2 template
      = mkTemplate (style :: rest)
          (map (fun p => if decide (p ≤ Z.of_nat (length (childNodesOf style)))%Z
                         then (-1)%Z else p) ps).
Proof.
  intros Ha Hfor Hstyle Hkids Hrest Hinc Hrange Hinert.
  destruct (extractStylesFromTemplate_increasing getTemplateElement prepareTemplateDom
              newTemplate scopeName fuel sink result st (style :: rest) ps
              Ha Hfor Hinc Hinert)
    as (loc & st1 & Hx & Hc & Hget).
  assert (walkerNodes (style :: rest)
          = [] ++ style :: (walkerNodes (childNodesOf style) ++ walkerNodes rest))
    as Hnodes.
  { rewrite walkerNodes_cons. destruct style; try done. }
  assert (Forall (fun node => isStyle node = false)
            (walkerNodes (childNodesOf style) ++ walkerNodes rest)) as Hpost
    by by apply Forall_app.
  assert (List.filter isStyle (walkerNodes (style :: rest)) = [style]) as Hfilter.
  { rewrite Hnodes. simpl. rewrite Hstyle. by rewrite filter_isStyle_plain. }
  assert (contentWithoutStyles (style :: rest) = rest) as Hcontent.
  { simpl. rewrite Hstyle. by apply contentWithoutStyles_styleFree. }
  assert (map (reindexFrom initialLocals (walkerNodes (style :: rest))) ps
          = map (fun p => if decide (p ≤ Z.of_nat (length (childNodesOf style)))%Z
                          then (-1)%Z
                          else (p - (1 + Z.of_nat (length (childNodesOf style))))%Z)
                ps) as Hparts.
  { apply Forall_fmap_ext, Forall_forall. intros p Hp.
    assert (-1 < p)%Z as Hp0.
    { apply increasingFrom_above in Hinc. rewrite Forall_forall in Hinc. by apply Hinc. }
    rewrite Forall_forall in Hrange. specialize (Hrange p Hp).
    rewrite Hnodes. rewrite reindexFrom_one_style; try done.
    - simpl. repeat case_decide; lia.
    - rewrite <- Hnodes. lia. }
  rewrite Hfilter, removeNodes_stylePositions, Hcontent, Hparts in *.
  exists loc, st1. eexists. split; [exact Hx|]. split; [exact Hc|].
  split; [exact Hget|]. split; [reflexivity|].
  assert (loc < length (templates st1)) as Hloc.
  { assert (stable st st1) as [_ A].
    { eapply (extract_stable getTemplateElement prepareTemplateDom newTemplate).
      by rewrite Hx. }
    by apply (A Ha _ _ _ Hc). }
  unfold getTemplate. cbn [templates set_templates].
  rewrite list_lookup_insert_eq by done. cbn [default from_option id].
  fold (getTemplate st1 loc). rewrite Hget. cbn [content parts]. f_equal.
  rewrite map_map. apply Forall_fmap_ext, Forall_forall. intros p Hp.
  assert (-1 < p)%Z as Hp0.
  { apply increasingFrom_above in Hinc. rewrite Forall_forall in Hinc. by apply Hinc. }
  cbv beta. repeat case_decide; lia.
Qed.

End InSync.

(** The traversal of a template without style elements whose values
    are inert changes nothing. *)
Lemma walk_styleFree_inert extractValue result template nodes :
  Forall (fun node => isStyle node = false) nodes →
  ∀ l sink st,
    (∀ i s st0, i < length (parts (getTemplate st template)) →
       extractValue (default VUndefined (values result !! i)) s st0 = Return s st0) →
    noStyleSeen l →
    ∃ l', walk (visitNode extractValue result template) nodes (l, sink) st
            = Return (l', sink) st ∧ noStyleSeen l'.
Proof.
  induction 1 as [|node nodes Hnode _ IH]; intros l sink st Hx Hl.
  { by exists l. }
  rewrite walk_cons. destruct Hl as (Hd & Hu & Hi & Hrm).
  unfold visitNode, visitStyle. simpl. rewrite Hnode.
  set (l1 := mkLocals _ _ _ _ _).
  assert (noStyleSeen l1) as Hl1 by (repeat split; simpl; try done; lia).
  unfold visitPart.
  destruct (parts (getTemplate st template) !! partIndex l1) as [p|] eqn:Ep;
    [|by apply IH].
  destruct (decide (p = index l1)) as [->|Hne]; [|by apply IH].
  rewrite decide_False by (simpl; lia).
  replace (index l1 + partDelta l1)%Z with (index l1) by (simpl; lia).
  rewrite setPartIndex_same by done.
  rewrite Hx by by eapply lookup_lt_Some.
  rewrite content_eqb_refl. apply IH; [done|].
  repeat split; simpl; try done; lia.
Qed.

Lemma traverseTemplate_styleFree_inert extractValue sink result template st :
  styleFree (content (getTemplate st template)) →
  (∀ i s st0, i < length (parts (getTemplate st template)) →
     extractValue (default VUndefined (values result !! i)) s st0 = Return s st0) →
  traverseTemplate extractValue sink result template st = Return sink st.
Proof.
  intros Hfree Hx.
  unfold traverseTemplate, mbind, M_bind, bind, get, modify, mret, M_ret, ret.
  destruct (walk_styleFree_inert extractValue result template _ Hfree
              initialLocals sink st Hx) as (l' & -> & (_ & _ & _ & Hrm)).
  { by repeat split. }
  by rewrite Hrm, removeNodes_nil, setContent_same.
Qed.

Section Twice.

Variable getTemplateElement : TemplateResult → list Node.

Variable prepareTemplateDom : list Node → string → list Node.

Variable newTemplate : TemplateResult → list Node → Template.

Local Abbreviation factory :=
  (shadyTemplateFactory getTemplateElement prepareTemplateDom newTemplate).
Local Abbreviation templateFor :=
  (templateFor getTemplateElement prepareTemplateDom newTemplate).

(** X9.  Extraction twice is extraction once.  For a template whose
    parts have increasing indices and whose values are inert, the first
    extraction returns, and from the state it leaves every further
    extraction for the same result returns the style template it is
    given and changes nothing: no part index moves again. *)
Theorem extraction_twice_is_extraction_once
    scopeName fuel sink result st c ps :
  cacheAllocated st →
  templateFor scopeName st result = mkTemplate c ps →
  increasingFrom (-1) ps →
  (∀ i, i < length ps → inert (default VUndefined (values result !! i))) →
  ∃ st1,
    extractStylesFromTemplate fuel sink (factory scopeName) result st
      = Return (sink ++ List.filter isStyle (walkerNodes c)) st1 ∧
    ∀ fuel' sink',
      extractStylesFromTemplate fuel' sink' (factory scopeName) result st1
        = Return sink' st1.
Proof.
  intros Ha Hfor Hinc Hinert.
  destruct (extractStylesFromTemplate_increasing getTemplateElement prepareTemplateDom
              newTemplate scopeName fuel sink result st c ps Ha Hfor Hinc Hinert)
    as (loc & st1 & Hx & Hc & Hget).
  exists st1. split; [exact Hx|]. intros fuel' sink'.
  unfold extractStylesFromTemplate, extractStylesFromTemplateWith.
  unfold mbind at 1, M_bind at 1, bind at 1.
  rewrite (shadyTemplateFactory_hit _ _ _ _ _ _ _ Hc).
  apply traverseTemplate_styleFree_inert.
  - rewrite Hget, removeNodes_stylePositions. apply styleFree_contentWithoutStyles.
  - rewrite Hget. cbn [parts]. rewrite length_map. intros i s st0 Hi.
    apply extractStylesFromValue_inert. by apply Hinert.
Qed.

End Twice.

(** ** Parts that share a node *)

(** The traversal when two successive parts have the same index: the
    cursor stays on the second. *)
Lemma traverseTemplate_shared_index
    fuel templateFactory sink result template st c before p after :
  templates st !! template = Some (mkTemplate c (before ++ p :: p :: after)) →
  increasingFrom (-1) (before ++ [p]) →
  (p < Z.of_nat (length (walkerNodes c)))%Z →
  (∀ i, i ≤ length before → inert (default VUndefined (values result !! i))) →
  traverseTemplate
    (fun v s => extractStylesFromValue fuel s templateFactory v)
    sink result template st
  = Return (sink ++ List.filter isStyle (walkerNodes c))
      (set_templates
         (<[template :=
              mkTemplate (contentWithoutStyles c)
                (map (reindexFrom initialLocals (walkerNodes c)) (before ++ [p])
                 ++ p :: after)]>
            (templates st)) st).
Proof.
  intros Ht Hinc Hp Hinert.
  unfold traverseTemplate, mbind, M_bind, bind, get, modify, mret, M_ret, ret.
  rewrite (getTemplate_Some _ _ _ Ht). cbn [content].
  destruct (walk_increasing_upto
              (fun v s => extractStylesFromValue fuel s templateFactory v)
              result template c (walkerNodes c) initialLocals sink st []
              (before ++ [p]) (p :: after))
    as (l' & Hw & _ & _ & _ & _ & Hrm).
  { simpl. by rewrite <- app_assoc. }
  { done. }
  { done. }
  { apply Forall_forall. intros q Hq. apply list_elem_of_lookup in Hq as [i Hq].
    assert (q ≤ p)%Z; [|simpl; lia].
    destruct (decide (i = length before)) as [->|Hne].
    - rewrite lookup_app_r, Nat.sub_diag in Hq by lia. injection Hq as <-. lia.
    - assert (i < length before) as Hi.
      { apply lookup_lt_Some in Hq. rewrite length_app in Hq. simpl in Hq. lia. }
      assert ((before ++ [p]) !! length before = Some p) as Hlast
        by by rewrite lookup_app_r, Nat.sub_diag by lia.
      pose proof (increasingFrom_lookup _ _ _ _ _ _ Hinc Hq Hlast Hi). lia. }
  { intros q [= <-]. left. by rewrite last_snoc. }
  { intros i s st0 Hi. apply extractStylesFromValue_inert. apply Hinert.
    rewrite length_app in Hi. simpl in Hi. lia. }
  rewrite Hw. destruct (scanStyles_index (walkerNodes c) initialLocals) as (_ & _ & Hs).
  rewrite Hrm, Hs. cbn [app nodesToRemove initialLocals index].
  f_equal. unfold setContent, getTemplate.
  rewrite templates_set_templates, set_templates_twice.
  rewrite list_lookup_insert_eq by by eapply lookup_lt_Some.
  cbn [default from_option id content parts].
  by rewrite list_insert_insert_eq, removeNodes_stylePositions.
Qed.

Section SharedIndex.

Variable getTemplateElement : TemplateResult → list Node.

Variable prepareTemplateDom : list Node → string → list Node.

Variable newTemplate : TemplateResult → list Node → Template.

Variable prepareTemplateStyles : list Node → string → option (list Node).

Variable scopeName : string.

Local Abbreviation factory :=
  (shadyTemplateFactory getTemplateElement prepareTemplateDom newTemplate scopeName).
Local Abbreviation templateFor :=
  (templateFor getTemplateElement prepareTemplateDom newTemplate scopeName).
Local Abbreviation shadyRender :=
  (render getTemplateElement prepareTemplateDom newTemplate prepareTemplateStyles).
Local Abbreviation runs :=
  (runs getTemplateElement prepareTemplateDom newTemplate prepareTemplateStyles).

(** X18.  What extraction does when two successive parts have the same
    index (two bound attributes of one element, say), the parts up to
    the first of them having increasing indices and inert values: the
    style elements are all moved to the style template and the parts up
    to the first of the two are disabled or shifted as they should be;
    the second of the two and every part after it keep the index they
    had, whatever it is, and their values are not looked at.  The body
    of the loop handles one part per node, and the cursor never leaves
    the second. *)
Theorem extraction_stops_at_a_shared_index fuel sink result st c before p after :
  cacheAllocated st →
  templateFor st result = mkTemplate c (before ++ p :: p :: after) →
  increasingFrom (-1) (before ++ [p]) →
  (p < Z.of_nat (length (walkerNodes c)))%Z →
  (∀ i, i ≤ length before → inert (default VUndefined (values result !! i))) →
  ∃ template st',
    extractStylesFromTemplate fuel sink factory result st
      = Return (sink ++ List.filter isStyle (walkerNodes c)) st' ∧
    cached st' (cacheKey result scopeName) (strings result) = Some template ∧
    content (getTemplate st' template) = contentWithoutStyles c ∧
    parts (getTemplate st' template)
      = map (reindexFrom initialLocals (walkerNodes c)) (before ++ [p])
        ++ p :: after.
Proof.
  intros Ha Hfor Hinc Hp Hinert.
  destruct (factory_templateFor getTemplateElement prepareTemplateDom newTemplate
              scopeName result st Ha) as (loc & st1 & Hf & Ht & Hc).
  rewrite Hfor in Ht.
  unfold extractStylesFromTemplate, extractStylesFromTemplateWith.
  unfold mbind at 1, M_bind at 1, bind at 1. rewrite Hf.
  rewrite (traverseTemplate_shared_index fuel factory sink result loc st1 c
             before p after Ht Hinc Hp Hinert).
  eexists loc, _. split; [reflexivity|]. split; [exact Hc|].
  unfold getTemplate. rewrite templates_set_templates.
  by rewrite list_lookup_insert_eq by by eapply lookup_lt_Some.
Qed.

(** ** Items of one template literal *)

Lemma forOf_unchanged (f : Value → list Node → M (list Node)) items st :
  (∀ v sink, v ∈ items → f v sink st = Return sink st) →
  ∀ sink, forOf f items sink st = Return sink st.
Proof.
  induction items as [|v items IH]; intros Hf sink; [done|].
  simpl. unfold mbind, M_bind, bind. rewrite Hf by by left.
  apply IH. intros. apply Hf. by right.
Qed.

(** Extraction from a template that is cached, has no style element
    and whose values are inert changes nothing. *)
Lemma extractStylesFromTemplate_again fuel sink result st template :
  cached st (cacheKey result scopeName) (strings result) = Some template →
  styleFree (content (getTemplate st template)) →
  (∀ i, i < length (parts (getTemplate st template)) →
     inert (default VUndefined (values result !! i))) →
  extractStylesFromTemplate fuel sink factory result st = Return sink st.
Proof.
  intros Hc Hfree Hinert.
  unfold extractStylesFromTemplate, extractStylesFromTemplateWith.
  unfold mbind at 1, M_bind at 1, bind at 1.
  rewrite (shadyTemplateFactory_hit _ _ _ _ _ _ _ Hc).
  apply traverseTemplate_styleFree_inert; [done|].
  intros i s st0 Hi. apply extractStylesFromValue_inert. by apply Hinert.
Qed.

(** X16.  A value that is an array, or another iterable, of template
    results of one template literal (the items of a list, say), the
    parts of the literal having increasing indices and the values of
    the items being inert: [extractStylesFromValue] on it does what
    [extractStylesFromTemplate] does on the first item.  The style
    elements of the literal go to the style template once; the other
    items find the template without them and change nothing. *)
Theorem extraction_from_items_of_one_literal
    fuel sink type strings values0 more st c ps :
  cacheAllocated st →
  templateFor st (mkTemplateResult type strings values0) = mkTemplate c ps →
  increasingFrom (-1) ps →
  Forall (fun values => ∀ i, i < length ps → inert (default VUndefined (values !! i)))
         (values0 :: more) →
  ∃ st1,
    extractStylesFromTemplate fuel sink factory
      (mkTemplateResult type strings values0) st
      = Return (sink ++ List.filter isStyle (walkerNodes c)) st1 ∧
    extractStylesFromValue (S (S fuel)) sink factory
      (VArray (map (VTemplateResult type strings) (values0 :: more))) st
      = Return (sink ++ List.filter isStyle (walkerNodes c)) st1 ∧
    extractStylesFromValue (S (S fuel)) sink factory
      (VIterable (map (VTemplateResult type strings) (values0 :: more))) st
      = Return (sink ++ List.filter isStyle (walkerNodes c)) st1.
Proof.
  intros Ha Hfor Hinc Hall. apply Forall_cons in Hall as [H0 Hmore].
  destruct (extractStylesFromTemplate_increasing getTemplateElement prepareTemplateDom
              newTemplate scopeName fuel sink _ st c ps Ha Hfor Hinc H0)
    as (loc & st1 & Hx & Hc & Hget).
  exists st1. split; [exact Hx|].
  assert (forOf (fun v s => extractStylesFromValue (S fuel) s factory v)
            (map (VTemplateResult type strings) (values0 :: more)) sink st
          = Return (sink ++ List.filter isStyle (walkerNodes c)) st1) as Hfor'.
  { cbn [map forOf]. unfold mbind, M_bind, bind.
    change (extractStylesFromValue (S fuel) sink factory
              (VTemplateResult type strings values0) st)
      with (extractStylesFromTemplate fuel sink factory
              (mkTemplateResult type strings values0) st).
    rewrite Hx. apply forOf_unchanged.
    intros v s Hv. apply list_elem_of_fmap in Hv as (vs & -> & Hvs).
    change (extractStylesFromValue (S fuel) s factory (VTemplateResult type strings vs) st1)
      with (extractStylesFromTemplate fuel s factory
              (mkTemplateResult type strings vs) st1).
    apply (extractStylesFromTemplate_again _ _ _ _ loc); [exact Hc| |].
    - rewrite Hget, removeNodes_stylePositions. apply styleFree_contentWithoutStyles.
    - rewrite Hget. cbn [parts]. rewrite length_map.
      rewrite Forall_forall in Hmore. by apply Hmore. }
  split; exact Hfor'.
Qed.

(** ** The first render with a value that is [null] or [undefined] *)

(** X17.  The first call of [render] for a scope, on the fixup path,
    with a result whose part [k] has the value [null] or [undefined]
    (the parts up to it having increasing indices, those before it
    inert values): the call throws a TypeError, having put the scope in
    the render set and not having called [prepareTemplateStyles].  It
    leaves the template with every style element still in it and with
    the parts up to [k] disabled or shifted already.  In every state
    reached from there by calls of [render], the scope is still in the
    render set and [prepareTemplateStyles] has still not been called
    for it; and a call of [render] for the scope made in such a state
    does not call it either and leaves that template as it finds
    it: the styles of the scope are never processed. *)
Theorem first_render_throws_on_null_value
    fuel result container host st c ps k p :
  cacheAllocated st →
  needsStyleFixup st = true →
  hostForNode container = Some host →
  scopeName ∉ shadyRenderSet st →
  templateFor st result = mkTemplate c ps →
  increasingFrom (-1) (take (S k) ps) →
  ps !! k = Some p →
  (p < Z.of_nat (length (walkerNodes c)))%Z →
  (∀ i, i < k → inert (default VUndefined (values result !! i))) →
  default VUndefined (values result !! k) = VNull
    ∨ default VUndefined (values result !! k) = VUndefined →
  ∃ message template st1,
    shadyRender fuel result container scopeName st = Throw (TypeError message) st1 ∧
    scopeName ∈ shadyRenderSet st1 ∧
    countPrepareTemplateStyles scopeName (events st1)
      = countPrepareTemplateStyles scopeName (events st) ∧
    cached st1 (cacheKey result scopeName) (strings result) = Some template ∧
    content (getTemplate st1 template) = c ∧
    parts (getTemplate st1 template)
      = map (reindexFrom initialLocals (walkerNodes c)) (take (S k) ps)
        ++ drop (S k) ps ∧
    ∀ st2, runs st1 st2 →
      scopeName ∈ shadyRenderSet st2 ∧
      countPrepareTemplateStyles scopeName (events st2)
        = countPrepareTemplateStyles scopeName (events st) ∧
      ∀ fuel' result' container' st3,
        finalState (shadyRender fuel' result' container' scopeName st2) = Some st3 →
        getTemplate st3 template = getTemplate st2 template ∧
        countPrepareTemplateStyles scopeName (events st3)
          = countPrepareTemplateStyles scopeName (events st).
Proof.
  intros Ha Hn Hh Hs Hfor Hinc Hk Hp Hinert Hnull.
  rewrite (render_first _ _ _ _ _ _ _ _ host) by done.
  fold (markScope scopeName st).
  assert (cacheAllocated (markScope scopeName st)) as Ha0 by exact Ha.
  destruct (factory_templateFor getTemplateElement prepareTemplateDom newTemplate
              scopeName result (markScope scopeName st) Ha0)
    as (loc & st0 & Hf & Ht & Hc).
  change (templateFor (markScope scopeName st) result)
    with (templateFor st result) in Ht.
  rewrite Hfor in Ht.
  assert (grows (markScope scopeName st) st0) as G.
  { eapply factory_respects_grows. by rewrite Hf. }
  unfold extractStylesFromTemplate, extractStylesFromTemplateWith.
  unfold mbind at 1, M_bind at 1, bind at 1. rewrite Hf.
  destruct (traverseTemplate_throws fuel factory [] result loc st0 c ps k p
              Ht Hinc Hk Hp Hinert Hnull) as [message Hthrow].
  rewrite Hthrow. eexists message, loc, _. split; [reflexivity|].
  set (st1 := set_templates _ st0).
  assert (scopeName ∈ shadyRenderSet st1) as Hin.
  { unfold st1. cbn [shadyRenderSet set_templates]. rewrite (grows_set _ _ G).
    simpl. by apply elem_of_union_l, elem_of_singleton. }
  assert (countPrepareTemplateStyles scopeName (events st1)
          = countPrepareTemplateStyles scopeName (events st)) as Hcount.
  { unfold st1. cbn [events set_templates].
    destruct (grows_events _ _ G) as (evs & -> & F). simpl.
    rewrite countPrepareTemplateStyles_app, (countPrepareTemplateStyles_dom _ evs)
      by done.
    lia. }
  split; [exact Hin|]. split; [exact Hcount|]. split; [exact Hc|].
  assert (getTemplate st1 loc
          = mkTemplate c (map (reindexFrom initialLocals (walkerNodes c)) (take (S k) ps)
                          ++ drop (S k) ps)) as Hget.
  { unfold getTemplate, st1. rewrite templates_set_templates.
    by rewrite list_lookup_insert_eq by by eapply lookup_lt_Some. }
  rewrite Hget. split; [done|]. split; [done|].
  assert (needsStyleFixup st1 = true) as Hn1.
  { unfold st1. cbn [needsStyleFixup set_templates]. rewrite (grows_needs _ _ G).
    exact Hn. }
  intros st2 Hruns.
  destruct (runs_gated getTemplateElement prepareTemplateDom newTemplate
              prepareTemplateStyles scopeName st1 st2 Hruns Hin) as [Hin2 Hcount2].
  apply runs_invariant in Hruns as (Hn2 & _ & _).
  rewrite Hcount in Hcount2.
  split; [exact Hin2|]. split; [exact Hcount2|].
  intros fuel' result' container' st3.
  destruct (hostForNode container') as [host'|] eqn:Hh'.
  - rewrite (render_gated _ _ _ _ _ _ _ _ host') by (done || congruence).
    destruct (window_ShadyCSS st2); intros [= <-]; [|split; [done|exact Hcount2]].
    split; [done|]. cbn [events emit].
    rewrite !countPrepareTemplateStyles_app, Hcount2.
    unfold countPrepareTemplateStyles at 2 3. simpl. lia.
  - rewrite render_delegates by auto. intros [= <-].
    split; [done|]. cbn [events emit].
    rewrite countPrepareTemplateStyles_app, Hcount2.
    unfold countPrepareTemplateStyles at 2. simpl. lia.
Qed.

End SharedIndex.

(** ** The range that is disabled *)

Lemma scanStyles_app l a b :
  scanStyles l (a ++ b) = scanStyles (scanStyles l a) b.
Proof. apply foldl_app. Qed.

(** Nodes that are not style elements leave [disableUntil] and
    [partDelta] as they are. *)
Lemma scanStyles_plain nodes : ∀ l,
  Forall (fun node => isStyle node = false) nodes →
  partDelta (scanStyles l nodes) = partDelta l ∧
  disableUntil (scanStyles l nodes) = disableUntil l.
Proof.
  induction nodes as [|node nodes IH]; intros l H; [done|].
  apply Forall_cons in H as [Hnode H]. rewrite scanStyles_cons.
  destruct (IH (visitStyle node l []).1 H) as [-> ->].
  unfold visitStyle. by rewrite Hnode.
Qed.

(** The loop variables on the node at position [j], once lines 67-75
    have run there, when the last style element up to that node is at
    position [s]. *)
Lemma scanStyles_since_style nodes s style j :
  nodes !! s = Some style →
  isStyle style = true →
  s ≤ j < length nodes →
  (∀ t node, s < t ≤ j → nodes !! t = Some node → isStyle node = false) →
  disableUntil (scanStyles initialLocals (take (S j) nodes))
    = (Z.of_nat s + 1 + Z.of_nat (length (childNodesOf style)))%Z ∧
  partDelta (scanStyles initialLocals (take (S j) nodes))
    = (partDelta (scanStyles initialLocals (take s nodes))
       - (Z.of_nat (length (childNodesOf style)) + 1))%Z.
Proof.
  intros Hs Hst Hj Hplain.
  assert (take (S j) nodes
          = take s nodes ++ style :: drop (S s) (take (S j) nodes)) as ->.
  { rewrite <- (take_drop_middle (take (S j) nodes) s style) at 1.
    - by rewrite take_take, Nat.min_l by lia.
    - rewrite lookup_take_lt by lia. exact Hs. }
  rewrite scanStyles_app, scanStyles_cons.
  destruct (scanStyles_plain (drop (S s) (take (S j) nodes))
              (visitStyle style (scanStyles initialLocals (take s nodes)) []).1)
    as [-> ->].
  { apply Forall_forall. intros node Hin.
    apply list_elem_of_lookup in Hin as [i Hi].
    rewrite lookup_drop in Hi.
    assert (S s + i < S j) as Hlt.
    { apply lookup_lt_Some in Hi. rewrite length_take in Hi. lia. }
    rewrite lookup_take_lt in Hi by lia.
    apply (Hplain (S s + i)); [lia|done]. }
  destruct (scanStyles_index (take s nodes) initialLocals) as (Hi & _ & _).
  rewrite length_take, Nat.min_l in Hi by lia.
  unfold visitStyle. rewrite Hst, Hi. simpl. split; lia.
Qed.

(** What becomes of a part on the node at position [j]: it is decided
    by the loop variables on that node. *)
Lemma reindexFrom_on_node nodes j node :
  nodes !! j = Some node →
  index (scanStyles initialLocals (take (S j) nodes)) = Z.of_nat j ∧
  reindexFrom initialLocals nodes (Z.of_nat j)
    = if decide (Z.of_nat j
                 < disableUntil (scanStyles initialLocals (take (S j) nodes)))%Z
      then (-1)%Z
      else (Z.of_nat j
            + partDelta (scanStyles initialLocals (take (S j) nodes)))%Z.
Proof.
  intros Hj.
  assert (length (take j nodes) = j) as Hlen.
  { rewrite length_take. apply lookup_lt_Some in Hj. lia. }
  assert (scanStyles initialLocals (take (S j) nodes)
          = (visitStyle node (scanStyles initialLocals (take j nodes)) []).1) as ->.
  { rewrite (take_S_r _ _ _ Hj), scanStyles_app. done. }
  destruct (visitStyle_index node (scanStyles initialLocals (take j nodes)) [])
    as [Hi _].
  destruct (scanStyles_index (take j nodes) initialLocals) as (Hi0 & _ & _).
  rewrite Hlen in Hi0. simpl in Hi0.
  assert (index (visitStyle node (scanStyles initialLocals (take j nodes)) []).1
          = Z.of_nat j) as Hidx by lia.
  split; [exact Hidx|].
  rewrite <- (take_drop_middle nodes j node Hj) at 1.
  replace (Z.of_nat j)
    with (index initialLocals + Z.of_nat (length (take j nodes)) + 1)%Z at 1
    by (rewrite Hlen; simpl; lia).
  rewrite reindexFrom_at. cbv zeta. by rewrite Hidx.
Qed.



Section DisabledRange.

Variable getTemplateElement : TemplateResult → list Node.

Variable prepareTemplateDom : list Node → string → list Node.

Variable newTemplate : TemplateResult → list Node → Template.

Variable scopeName : string.

Local Abbreviation factory :=
  (shadyTemplateFactory getTemplateElement prepareTemplateDom newTemplate scopeName).
Local Abbreviation templateFor :=
  (templateFor getTemplateElement prepareTemplateDom newTemplate scopeName).


(** X7.  A part on a style element or on one of the positions counted
    for its children is disabled, whatever the rest of the template
    is.  A template whose parts have increasing indices, with inert
    values; a style element at position [s]; a part whose index [p] is
    [s] or one of the next positions up to the number of the style
    element's children, no other style element standing between them.
    When the walker is on the node at position [p], [index] is [p] and
    [disableUntil] is beyond it, and after extraction the part has
    index -1. *)
Theorem part_below_disableUntil_is_disabled
    fuel sink result st c ps k p s style :
  cacheAllocated st →
  templateFor st result = mkTemplate c ps →
  increasingFrom (-1) ps →
  (∀ i, i < length ps → inert (default VUndefined (values result !! i))) →
  walkerNodes c !! s = Some style →
  isStyle style = true →
  (Z.of_nat s ≤ p ≤ Z.of_nat s + Z.of_nat (length (childNodesOf style)))%Z →
  (p < Z.of_nat (length (walkerNodes c)))%Z →
  (∀ t node, s < t ≤ Z.to_nat p → walkerNodes c !! t = Some node →
     isStyle node = false) →
  ps !! k = Some p →
  let l := scanStyles initialLocals (take (S (Z.to_nat p)) (walkerNodes c)) in
  index l = p ∧
  (p < disableUntil l)%Z ∧
  ∃ template st',
    extractStylesFromTemplate fuel sink factory result st
      = Return (sink ++ List.filter isStyle (walkerNodes c)) st' ∧
    cached st' (cacheKey result scopeName) (strings result) = Some template ∧
    parts (getTemplate st' template) !! k = Some (-1)%Z.
Proof.
  intros Ha Hfor Hinc Hinert Hs Hst Hp Hrange Hplain Hk l.
  set (j := Z.to_nat p) in *.
  assert (p = Z.of_nat j) as Hpj by lia.
  destruct (lookup_lt_is_Some_2 (walkerNodes c) j) as [node Hnode]; [lia|].
  destruct (reindexFrom_on_node (walkerNodes c) j node Hnode) as [Hidx Hre].
  destruct (scanStyles_since_style (walkerNodes c) s style j Hs Hst) as [Hdu _];
    [lia|exact Hplain|].
  fold l in Hidx, Hre, Hdu.
  rewrite decide_True in Hre by lia.
  split; [lia|]. split; [lia|].
  destruct (extractStylesFromTemplate_increasing getTemplateElement prepareTemplateDom
              newTemplate scopeName fuel sink result st c ps Ha Hfor Hinc Hinert)
    as (loc & st' & Hx & Hc & Hget).
  exists loc, st'. rewrite Hget. cbn [parts].
  split; [exact Hx|]. split; [exact Hc|].
  rewrite list_lookup_fmap, Hk. cbn [fmap option_fmap option_map].
  by rewrite Hpj, Hre.
Qed.

End DisabledRange.

(** ** On the example templates *)

(** [<style>p{color:red}</style><p>${null}</p>]: the part at position 3
    has been shifted to 1, and the style element is still there. *)
Lemma extraction_throws_witness :
  cacheAllocated (loadModule Examples.shadyWindow) ∧
  templateFor Examples.exampleGetTemplateElement Examples.examplePrepareTemplateDom
    Examples.exampleNewTemplate "x-foo" (loadModule Examples.shadyWindow)
    Examples.styledNullParagraph
    = mkTemplate [Element "style" [Text "p{color:red}"];
                  Element "p" [Comment ""; Comment ""]] [3%Z] ∧
  default VUndefined (values Examples.styledNullParagraph !! 0) = VNull ∧
  ∃ message template st',
    extractStylesFromTemplate 0 [] (Examples.exampleFactory "x-foo")
      Examples.styledNullParagraph (loadModule Examples.shadyWindow)
      = Throw (TypeError message) st' ∧
    cached st' (cacheKey Examples.styledNullParagraph "x-foo")
           (strings Examples.styledNullParagraph) = Some template ∧
    content (getTemplate st' template)
      = [Element "style" [Text "p{color:red}"];
         Element "p" [Comment ""; Comment ""]] ∧
    parts (getTemplate st' template) = [1%Z].
Proof.
  split; [apply loadModule_cacheAllocated|]. split; [reflexivity|].
  split; [reflexivity|].
  refine (extraction_throws_on_null_value
            Examples.exampleGetTemplateElement Examples.examplePrepareTemplateDom
            Examples.exampleNewTemplate "x-foo" 0 [] Examples.styledNullParagraph
            (loadModule Examples.shadyWindow)
            [Element "style" [Text "p{color:red}"];
             Element "p" [Comment ""; Comment ""]]
            [3%Z] 0 3%Z
            (loadModule_cacheAllocated Examples.shadyWindow)
            eq_refl _ eq_refl _ _ (or_introl eq_refl)).
  - simpl. split; [lia|done].
  - simpl. lia.
  - intros i Hi. lia.
Defined.

(** [<style>a{}</style><p>${x}</p><style>b{}</style><span>${y}</span>]:
    the second part sat on the first of the two comments in the
    [span], at position 8; four nodes are kept before it, and it ends
    at position 4, on the first of the two comments again. *)
Lemma extraction_keeps_parts_witness :
  cacheAllocated (loadModule Examples.shadyWindow) ∧
  flatStyles Examples.twoStylesContent ∧
  walkerNodes Examples.twoStylesContent !! Z.to_nat 8 = Some (Comment "") ∧
  ∃ template st',
    extractStylesFromTemplate 0 []
      (shadyTemplateFactory Examples.twoStylesGetTemplateElement
         Examples.examplePrepareTemplateDom Examples.twoStylesNewTemplate "x-foo")
      Examples.twoStyles (loadModule Examples.shadyWindow)
      = Return [Element "style" [Text "a{}"]; Element "style" [Text "b{}"]] st' ∧
    walkerNodes (content (getTemplate st' template))
      = [Element "p" [Comment ""; Comment ""]; Comment ""; Comment "";
         Element "span" [Comment ""; Comment ""]; Comment ""; Comment ""] ∧
    parts (getTemplate st' template) !! 1 = Some 4%Z.
Proof.
  assert (flatStyles Examples.twoStylesContent) as Hflat.
  { unfold flatStyles. simpl.
    repeat (constructor; [intros H; try discriminate H; repeat constructor|]).
    constructor. }
  split; [apply loadModule_cacheAllocated|]. split; [exact Hflat|].
  split; [reflexivity|].
  destruct (extraction_keeps_parts_on_their_nodes
              Examples.twoStylesGetTemplateElement Examples.examplePrepareTemplateDom
              Examples.twoStylesNewTemplate "x-foo" 0 [] Examples.twoStyles
              (loadModule Examples.shadyWindow) Examples.twoStylesContent
              [3%Z; 8%Z]
              (loadModule_cacheAllocated Examples.shadyWindow) eq_refl Hflat)
    as (template & st' & Hx & _ & _ & Hw & _ & Hp).
  - simpl. repeat split; lia.
  - intros [|[|i]] Hi; simpl in *; try exact I. lia.
  - exists template, st'. split; [exact Hx|]. split; [exact Hw|].
    destruct (Hp 1 8%Z (Comment "") eq_refl eq_refl) as [[Hin _]|(_ & H & _)];
      [|exact H].
    exfalso. destruct Hin as (s & style & Hs & Hst & Hj).
    do 10 (destruct s as [|s];
           [injection Hs as <-; first [discriminate Hst|simpl in Hj; lia]|]).
    discriminate Hs.
Defined.

(** [<style>${css}</style>]: the part sits on the first comment in the
    style element, at position 1, and is disabled. *)
Lemma visitNode_disables_part_example :
  templates Examples.partInStyleState !! 0
    = Some (mkTemplate [Element "style" [Comment ""; Comment ""]] [1%Z]) ∧
  index (visitStyle (Comment "") Examples.onTheStyle
           [Element "style" [Comment ""; Comment ""]]).1 = 1%Z ∧
  disableUntil (visitStyle (Comment "") Examples.onTheStyle
                  [Element "style" [Comment ""; Comment ""]]).1 = 3%Z ∧
  ∃ l' styleTemplate' st',
    visitNode
      (fun v sink => extractStylesFromValue 0 sink (Examples.exampleFactory "x-foo") v)
      Examples.partInStyle 0 (Comment "")
      (Examples.onTheStyle, [Element "style" [Comment ""; Comment ""]])
      Examples.partInStyleState
      = Return (l', styleTemplate') st' ∧
    parts (getTemplate st' 0) !! 0 = Some (-1)%Z.
Proof.
  split; [reflexivity|]. split; [reflexivity|]. split; [reflexivity|].
  refine (visitNode_disables_part_below_disableUntil
            (fun v sink => extractStylesFromValue 0 sink
                             (Examples.exampleFactory "x-foo") v)
            Examples.partInStyle 0 (Comment "") Examples.onTheStyle
            [Element "style" [Comment ""; Comment ""]] Examples.partInStyleState
            (mkTemplate [Element "style" [Comment ""; Comment ""]] [1%Z])
            eq_refl eq_refl _ _).
  - simpl. lia.
  - intros st0. eexists _, _. split; reflexivity.
Defined.

(** [<style>p{color:red}</style><p>${x}</p>]: the part goes from 3 to
    1 and back to 3. *)
Lemma extract_then_insert_witness :
  cacheAllocated (loadModule Examples.nativeWindow) ∧
  ∃ template st1 st2,
    extractStylesFromTemplate 0 [] (Examples.exampleFactory "x-foo")
      Examples.styledParagraph (loadModule Examples.nativeWindow)
      = Return [Element "style" [Text "p{color:red}"]] st1 ∧
    cached st1 (cacheKey Examples.styledParagraph "x-foo")
           (strings Examples.styledParagraph) = Some template ∧
    getTemplate st1 template
      = mkTemplate [Element "p" [Comment ""; Comment ""]] [1%Z] ∧
    insertStyleInTemplate template (Element "style" [Text "p{color:red}"]) st1
      = Return tt st2 ∧
    getTemplate st2 template
      = mkTemplate [Element "style" [Text "p{color:red}"];
                    Element "p" [Comment ""; Comment ""]] [3%Z].
Proof.
  split; [apply loadModule_cacheAllocated|].
  refine (extract_then_insert_restores_template
            Examples.exampleGetTemplateElement Examples.examplePrepareTemplateDom
            Examples.exampleNewTemplate "x-foo" 0 [] Examples.styledParagraph
            (loadModule Examples.nativeWindow)
            (Element "style" [Text "p{color:red}"])
            [Element "p" [Comment ""; Comment ""]] [3%Z]
            (loadModule_cacheAllocated Examples.nativeWindow)
            eq_refl eq_refl _ _ _ _ _).
  - repeat constructor.
  - repeat constructor.
  - simpl. split; [lia|done].
  - repeat constructor.
  - intros [|i] Hi; [exact I|simpl in Hi; lia].
Defined.

(** The template with two style elements: extracted once, and then
    again into any style template. *)
Lemma extraction_twice_witness :
  cacheAllocated (loadModule Examples.shadyWindow) ∧
  ∃ st1,
    extractStylesFromTemplate 0 []
      (shadyTemplateFactory Examples.twoStylesGetTemplateElement
         Examples.examplePrepareTemplateDom Examples.twoStylesNewTemplate "x-foo")
      Examples.twoStyles (loadModule Examples.shadyWindow)
      = Return [Element "style" [Text "a{}"]; Element "style" [Text "b{}"]] st1 ∧
    ∀ fuel' sink',
      extractStylesFromTemplate fuel' sink'
        (shadyTemplateFactory Examples.twoStylesGetTemplateElement
           Examples.examplePrepareTemplateDom Examples.twoStylesNewTemplate "x-foo")
        Examples.twoStyles st1
        = Return sink' st1.
Proof.
  split; [apply loadModule_cacheAllocated|].
  refine (extraction_twice_is_extraction_once
            Examples.twoStylesGetTemplateElement Examples.examplePrepareTemplateDom
            Examples.twoStylesNewTemplate "x-foo" 0 [] Examples.twoStyles
            (loadModule Examples.shadyWindow) Examples.twoStylesContent
            [3%Z; 8%Z]
            (loadModule_cacheAllocated Examples.shadyWindow) eq_refl _ _).
  - simpl. repeat split; lia.
  - intros [|[|i]] Hi; simpl in *; try exact I. lia.
Defined.

(** [<style>p{}</style><div a=${x} b=${y}></div>]: the part of the
    first attribute goes from 2 to 0, that of the second stays at 2. *)
Lemma extraction_stops_at_a_shared_index_witness :
  cacheAllocated (loadModule Examples.shadyWindow) ∧
  templateFor Examples.exampleGetTemplateElement Examples.examplePrepareTemplateDom
    Examples.exampleNewTemplate "x-foo" (loadModule Examples.shadyWindow)
    Examples.twoAttributes
    = mkTemplate [Element "style" [Text "p{}"]; Element "div" []] [2%Z; 2%Z] ∧
  ∃ template st',
    extractStylesFromTemplate 0 [] (Examples.exampleFactory "x-foo")
      Examples.twoAttributes (loadModule Examples.shadyWindow)
      = Return [Element "style" [Text "p{}"]] st' ∧
    cached st' (cacheKey Examples.twoAttributes "x-foo")
           (strings Examples.twoAttributes) = Some template ∧
    content (getTemplate st' template) = [Element "div" []] ∧
    parts (getTemplate st' template) = [0%Z; 2%Z].
Proof.
  split; [apply loadModule_cacheAllocated|]. split; [reflexivity|].
  refine (extraction_stops_at_a_shared_index
            Examples.exampleGetTemplateElement Examples.examplePrepareTemplateDom
            Examples.exampleNewTemplate "x-foo" 0 [] Examples.twoAttributes
            (loadModule Examples.shadyWindow)
            [Element "style" [Text "p{}"]; Element "div" []] [] 2%Z []
            (loadModule_cacheAllocated Examples.shadyWindow) eq_refl _ _ _).
  - simpl. split; [lia|done].
  - simpl. lia.
  - intros [|i] Hi; [exact I|simpl in Hi; lia].
Defined.

(** A list of two items of [<style>p{color:red}</style><p>${x}</p>]. *)
Lemma extraction_from_items_witness :
  cacheAllocated (loadModule Examples.shadyWindow) ∧
  ∃ st1,
    extractStylesFromTemplate 0 [] (Examples.exampleFactory "x-foo")
      (mkTemplateResult "html" 2 [VString "one"]) (loadModule Examples.shadyWindow)
      = Return [Element "style" [Text "p{color:red}"]] st1 ∧
    extractStylesFromValue 2 [] (Examples.exampleFactory "x-foo")
      (VArray [VTemplateResult "html" 2 [VString "one"];
               VTemplateResult "html" 2 [VString "two"]])
      (loadModule Examples.shadyWindow)
      = Return [Element "style" [Text "p{color:red}"]] st1 ∧
    extractStylesFromValue 2 [] (Examples.exampleFactory "x-foo")
      (VIterable [VTemplateResult "html" 2 [VString "one"];
                  VTemplateResult "html" 2 [VString "two"]])
      (loadModule Examples.shadyWindow)
      = Return [Element "style" [Text "p{color:red}"]] st1.
Proof.
  split; [apply loadModule_cacheAllocated|].
  refine (extraction_from_items_of_one_literal
            Examples.exampleGetTemplateElement Examples.examplePrepareTemplateDom
            Examples.exampleNewTemplate "x-foo" 0 [] "html" 2
            [VString "one"] [[VString "two"]] (loadModule Examples.shadyWindow)
            [Element "style" [Text "p{color:red}"];
             Element "p" [Comment ""; Comment ""]] [3%Z]
            (loadModule_cacheAllocated Examples.shadyWindow) eq_refl _ _).
  - simpl. split; [lia|done].
  - repeat constructor; intros [|i] Hi; try exact I; simpl in Hi; lia.
Defined.

(** [<style>p{color:red}</style><p>${null}</p>] rendered into a shadow
    root of x-foo: the style element stays in the template, with the
    part shifted from 3 to 1 as if it had been removed. *)
Lemma first_render_throws_witness :
  cacheAllocated (loadModule Examples.shadyWindow) ∧
  needsStyleFixup (loadModule Examples.shadyWindow) = true ∧
  hostForNode Examples.shadowRoot = Some "x-foo#1" ∧
  ("x-foo" ∉ shadyRenderSet (loadModule Examples.shadyWindow)) ∧
  default VUndefined (values Examples.styledNullParagraph !! 0) = VNull ∧
  ∃ message template st1,
    Examples.exampleRender 1 Examples.styledNullParagraph Examples.shadowRoot
      "x-foo" (loadModule Examples.shadyWindow)
      = Throw (TypeError message) st1 ∧
    "x-foo" ∈ shadyRenderSet st1 ∧
    countPrepareTemplateStyles "x-foo" (events st1) = 0 ∧
    cached st1 (cacheKey Examples.styledNullParagraph "x-foo")
           (strings Examples.styledNullParagraph) = Some template ∧
    content (getTemplate st1 template)
      = [Element "style" [Text "p{color:red}"];
         Element "p" [Comment ""; Comment ""]] ∧
    parts (getTemplate st1 template) = [1%Z] ∧
    ∀ st2,
      runs Examples.exampleGetTemplateElement Examples.examplePrepareTemplateDom
           Examples.exampleNewTemplate Examples.examplePrepareTemplateStyles
           st1 st2 →
      "x-foo" ∈ shadyRenderSet st2 ∧
      countPrepareTemplateStyles "x-foo" (events st2) = 0 ∧
      ∀ fuel' result' container' st3,
        finalState (Examples.exampleRender fuel' result' container' "x-foo" st2)
          = Some st3 →
        getTemplate st3 template = getTemplate st2 template ∧
        countPrepareTemplateStyles "x-foo" (events st3) = 0.
Proof.
  split; [apply loadModule_cacheAllocated|]. split; [reflexivity|].
  split; [reflexivity|]. split; [set_solver|]. split; [reflexivity|].
  refine (first_render_throws_on_null_value
            Examples.exampleGetTemplateElement Examples.examplePrepareTemplateDom
            Examples.exampleNewTemplate Examples.examplePrepareTemplateStyles
            "x-foo" 1 Examples.styledNullParagraph Examples.shadowRoot "x-foo#1"
            (loadModule Examples.shadyWindow)
            [Element "style" [Text "p{color:red}"];
             Element "p" [Comment ""; Comment ""]] [3%Z] 0 3%Z
            (loadModule_cacheAllocated Examples.shadyWindow)
            eq_refl eq_refl _ eq_refl _ eq_refl _ _ (or_introl eq_refl)).
  - set_solver.
  - simpl. split; [lia|done].
  - simpl. lia.
  - intros i Hi. lia.
Defined.


(** [<style>${css}</style>]: the part sits on the first comment in the
    style element, at position 1, and is disabled. *)
Lemma part_below_disableUntil_witness :
  cacheAllocated (loadModule Examples.shadyWindow) ∧
  templateFor Examples.partInStyleGetTemplateElement
    Examples.examplePrepareTemplateDom Examples.partInStyleNewTemplate "x-foo"
    (loadModule Examples.shadyWindow) Examples.partInStyle
    = mkTemplate [Element "style" [Comment ""; Comment ""]] [1%Z] ∧
  disableUntil
    (scanStyles initialLocals
       (take 2 (walkerNodes [Element "style" [Comment ""; Comment ""]])))
    = 3%Z ∧
  ∃ template st',
    extractStylesFromTemplate 0 []
      (shadyTemplateFactory Examples.partInStyleGetTemplateElement
         Examples.examplePrepareTemplateDom Examples.partInStyleNewTemplate "x-foo")
      Examples.partInStyle (loadModule Examples.shadyWindow)
      = Return [Element "style" [Comment ""; Comment ""]] st' ∧
    cached st' (cacheKey Examples.partInStyle "x-foo")
      (strings Examples.partInStyle) = Some template ∧
    parts (getTemplate st' template) !! 0 = Some (-1)%Z.
Proof.
  split; [apply loadModule_cacheAllocated|]. split; [reflexivity|].
  split; [reflexivity|].
  destruct (part_below_disableUntil_is_disabled
              Examples.partInStyleGetTemplateElement Examples.examplePrepareTemplateDom
              Examples.partInStyleNewTemplate "x-foo" 0 [] Examples.partInStyle
              (loadModule Examples.shadyWindow)
              [Element "style" [Comment ""; Comment ""]] [1%Z]
              0 1%Z 0 (Element "style" [Comment ""; Comment ""])
              (loadModule_cacheAllocated Examples.shadyWindow) eq_refl)
    as (_ & _ & template & st' & Hx & Hc & Hp).
  - simpl. split; [lia|done].
  - intros [|i] Hi; [exact I|simpl in Hi; lia].
  - reflexivity.
  - reflexivity.
  - simpl. lia.
  - simpl. lia.
  - intros [|[|t]] node Ht Hnode; simpl in *; try lia. by injection Hnode as <-.
  - reflexivity.
  - exists template, st'. split; [exact Hx|]. split; [exact Hc|exact Hp].
Defined.
